(** * Content-control resolution and structure parsing: a shallow embedding

    This development embeds the two core modules of the DOCX-to-HTML
    converter, [app/content_resolver.py] (class [ContentControlResolver])
    and [app/structure_parser.py] (class [AdvancedStructureParser]), and
    proves or refutes the properties the specification states about them.

    Conventions.
    - A Python [str] is a Rocq [string]; its characters are the code points
      below 256.  On that range [str.lower], [str.strip] and the
      case-insensitive comparison of [re.IGNORECASE] are the functions
      written out below.
    - A Python [int] is a [Z].
    - Mutable attributes of [self] are fields of a record that is threaded
      through every call; exceptions are an explicit outcome.  The
      resolver's log messages touch no attribute and are left out; the
      parser's warnings are kept in a list.
    - What the code asks of the outside world (the file system through
      [pathlib], the DOCX converter, BeautifulSoup, [hashlib]) is a field of
      an environment record, one field per call the source makes. *)

From Stdlib Require Import ZArith NArith String Ascii List Bool Lia Sorted.
From stdpp Require Import base option list gmap strings pretty.

Import ListNotations.
Set Warnings "-register-all".
Local Open Scope string_scope.
Local Open Scope Z_scope.

(** ** Python string primitives *)

Module PyStr.

(** The character [chr(n)]. *)
Definition chr (n : N) : ascii := ascii_of_N n.

Definition quote : string := String (chr 34) EmptyString.
Definition apostrophe : string := String (chr 39) EmptyString.
Definition newline : string := String (chr 10) EmptyString.

Definition in_range (lo hi n : N) : bool := ((lo <=? n) && (n <=? hi))%N.

(** [str.lower] on one character: A-Z and the upper-case letters of the
    Latin-1 block move by 32, every other character is unchanged. *)
Definition lower_char (c : ascii) : ascii :=
  let n := N_of_ascii c in
  if in_range 65 90 n || in_range 192 214 n || in_range 216 222 n
  then ascii_of_N (n + 32) else c.

Fixpoint lower (s : string) : string :=
  match s with
  | EmptyString => EmptyString
  | String c t => String (lower_char c) (lower t)
  end.

(** [str.isspace] on one character. *)
Definition isspace (c : ascii) : bool :=
  let n := N_of_ascii c in
  in_range 9 13 n || in_range 28 32 n || (n =? 133)%N || (n =? 160)%N.

Fixpoint mem_char (c : ascii) (chars : string) : bool :=
  match chars with
  | EmptyString => false
  | String d t => Ascii.eqb c d || mem_char c t
  end.

Fixpoint lstrip_by (p : ascii -> bool) (s : string) : string :=
  match s with
  | EmptyString => EmptyString
  | String c t => if p c then lstrip_by p t else s
  end.

Fixpoint rstrip_by (p : ascii -> bool) (s : string) : string :=
  match s with
  | EmptyString => EmptyString
  | String c t =>
      match rstrip_by p t with
      | EmptyString => if p c then EmptyString else String c EmptyString
      | t' => String c t'
      end
  end.

(** [s.strip()] and [s.strip(chars)]. *)
Definition strip (s : string) : string := rstrip_by isspace (lstrip_by isspace s).
Definition strip_chars (chars s : string) : string :=
  rstrip_by (fun c => mem_char c chars) (lstrip_by (fun c => mem_char c chars) s).

(** [bool(s)]: a string is truthy when it is not empty. *)
Definition truthy (s : string) : bool :=
  match s with EmptyString => false | _ => true end.

(** [s[n:]]. *)
Fixpoint drop (n : nat) (s : string) : string :=
  match n, s with
  | O, _ => s
  | S k, EmptyString => EmptyString
  | S k, String _ t => drop k t
  end.

(** [s[:n]]. *)
Fixpoint take (n : nat) (s : string) : string :=
  match n, s with
  | O, _ => EmptyString
  | S k, EmptyString => EmptyString
  | S k, String c t => String c (take k t)
  end.

(** [s.startswith(p)], returning what follows the prefix. *)
Fixpoint strip_prefix (p s : string) : option string :=
  match p with
  | EmptyString => Some s
  | String a p' =>
      match s with
      | EmptyString => None
      | String b s' => if Ascii.eqb a b then strip_prefix p' s' else None
      end
  end.

(** [sub in s]. *)
Fixpoint contains (sub s : string) : bool :=
  match strip_prefix sub s with
  | Some _ => true
  | None =>
      match s with
      | EmptyString => false
      | String _ t => contains sub t
      end
  end.

(** The offset of the first occurrence of [sub] at or after the start of
    [s], as [s.find(sub)] gives it. *)
Fixpoint find (sub s : string) : option nat :=
  match strip_prefix sub s with
  | Some _ => Some O
  | None =>
      match s with
      | EmptyString => None
      | String _ t => option_map S (find sub t)
      end
  end.

(** [s.replace(old, new)] for a non-empty [old]: the occurrences are found
    from left to right and do not overlap.  [skip] counts the characters of
    an occurrence that are still to be passed over. *)
Fixpoint replace_from (old new : string) (skip : nat) (s : string) : string :=
  match s with
  | EmptyString => EmptyString
  | String c t =>
      match skip with
      | S k => replace_from old new k t
      | O =>
          match strip_prefix old s with
          | Some _ => new +:+ replace_from old new (String.length old - 1) t
          | None => String c (replace_from old new O t)
          end
      end
  end.

(** With an empty [old], Python puts [new] before every character and at
    the end. *)
Fixpoint intersperse (new s : string) : string :=
  match s with
  | EmptyString => new
  | String c t => new +:+ String c (intersperse new t)
  end.

Definition replace (old new s : string) : string :=
  match old with
  | EmptyString => intersperse new s
  | _ => replace_from old new O s
  end.

(** [s.split(sep)] for a one-character separator. *)
Fixpoint split_on (sep : ascii) (s : string) : list string :=
  match s with
  | EmptyString => [EmptyString]
  | String c t =>
      if Ascii.eqb c sep then EmptyString :: split_on sep t
      else match split_on sep t with
           | [] => [String c EmptyString]
           | w :: ws => String c w :: ws
           end
  end.

(** [s.split(sep, 1)] when [sep] occurs in [s]: what is before its first
    occurrence and what is after. *)
Fixpoint partition (sep : ascii) (s : string) : option (string * string) :=
  match s with
  | EmptyString => None
  | String c t =>
      if Ascii.eqb c sep then Some (EmptyString, t)
      else match partition sep t with
           | Some (before, after) => Some (String c before, after)
           | None => None
           end
  end.

(** [s.split()]: the runs of characters between white space.  The
    auxiliary function gives the run that starts [s] and the later runs. *)
Fixpoint split_ws_aux (s : string) : string * list string :=
  match s with
  | EmptyString => (EmptyString, [])
  | String c t =>
      let '(run, rest) := split_ws_aux t in
      if isspace c then (EmptyString, if truthy run then run :: rest else rest)
      else (String c run, rest)
  end.

Definition split_ws (s : string) : list string :=
  let '(run, rest) := split_ws_aux s in
  if truthy run then run :: rest else rest.

(** [sep.join(parts)]. *)
Fixpoint join (sep : string) (parts : list string) : string :=
  match parts with
  | [] => EmptyString
  | [p] => p
  | p :: rest => p +:+ sep +:+ join sep rest
  end.

End PyStr.

(** ** Regular expressions

    The part of Python's [re] that the patterns of the two modules use:
    literals, [.], [\s], a negated one-character class, sequence,
    alternation, greedy and lazy repetition, and capturing groups, under the
    flags [IGNORECASE] and [DOTALL].  Matching is the backtracking search of
    [re]: alternatives are tried from left to right, a greedy repetition
    tries one more turn before it tries to stop, a lazy one the other way
    round, and the first complete match wins. *)

Module Re.

Inductive regex : Type :=
| Lit (s : string)            (** the characters of [s], one after the other *)
| AnyChar                     (** [.] *)
| Space                       (** [\s] *)
| NotChar (c : ascii)         (** [[^c]], [c] not a letter *)
| Seq (a b : regex)
| Alt (a b : regex)           (** [a|b] *)
| Opt (a : regex)             (** [a?] *)
| Star (a : regex)            (** [a*] *)
| LazyStar (a : regex)        (** [a*?] *)
| Group (n : nat) (a : regex). (** the [n]-th pair of capturing parentheses *)

(** [a+] and [a+?] *)
Definition Plus (a : regex) : regex := Seq a (Star a).
Definition LazyPlus (a : regex) : regex := Seq a (LazyStar a).

(** The expressions of [rs] one after the other. *)
Definition cat (rs : list regex) : regex := fold_right Seq (Lit EmptyString) rs.

(** A compiled pattern: the expression and its flags. *)
Record pattern : Type := MkPattern {
  expr : regex;
  ignorecase : bool;
  dotall : bool
}.

(** The groups captured so far, the latest capture of a group first. *)
Definition captures : Type := list (nat * string).

Fixpoint capture (n : nat) (cs : captures) : option string :=
  match cs with
  | [] => None
  | (m, text) :: rest => if Nat.eqb n m then Some text else capture n rest
  end.

(** A literal of the pattern against the text, ignoring case. *)
Fixpoint strip_prefix_ci (lit s : string) : option string :=
  match lit with
  | EmptyString => Some s
  | String a lit' =>
      match s with
      | EmptyString => None
      | String b s' =>
          if Ascii.eqb (PyStr.lower_char a) (PyStr.lower_char b)
          then strip_prefix_ci lit' s' else None
      end
  end.

(** What was consumed between the text [s] and its suffix [s']. *)
Definition consumed (s s' : string) : string :=
  PyStr.take (String.length s - String.length s') s.

Section Run.

Variables (ic da : bool).
Context {R : Type}.

(** [run r s cs k] matches [r] at the start of [s] and hands the rest of the
    text and the captures to the continuation [k]; when [k] fails, the next
    way of matching [r] is tried. *)
Fixpoint run (r : regex) (s : string) (cs : captures)
    (k : string -> captures -> option R) {struct r} : option R :=
  match r with
  | Lit l =>
      match (if ic then strip_prefix_ci l s else PyStr.strip_prefix l s) with
      | Some s' => k s' cs
      | None => None
      end
  | AnyChar =>
      match s with
      | String c t => if da || negb (Ascii.eqb c (PyStr.chr 10)) then k t cs else None
      | EmptyString => None
      end
  | Space =>
      match s with
      | String c t => if PyStr.isspace c then k t cs else None
      | EmptyString => None
      end
  | NotChar c =>
      match s with
      | String d t => if Ascii.eqb d c then None else k t cs
      | EmptyString => None
      end
  | Seq a b => run a s cs (fun s' cs' => run b s' cs' k)
  | Alt a b =>
      match run a s cs k with
      | Some x => Some x
      | None => run b s cs k
      end
  | Opt a =>
      match run a s cs k with
      | Some x => Some x
      | None => k s cs
      end
  | Star a =>
      (fix turn (n : nat) (s : string) (cs : captures) {struct n} : option R :=
         match n with
         | O => k s cs
         | S n' =>
             match run a s cs
                     (fun s' cs' =>
                        if (String.length s' <? String.length s)%nat
                        then turn n' s' cs' else None) with
             | Some x => Some x
             | None => k s cs
             end
         end) (String.length s) s cs
  | LazyStar a =>
      (fix turn (n : nat) (s : string) (cs : captures) {struct n} : option R :=
         match n with
         | O => k s cs
         | S n' =>
             match k s cs with
             | Some x => Some x
             | None =>
                 run a s cs
                   (fun s' cs' =>
                      if (String.length s' <? String.length s)%nat
                      then turn n' s' cs' else None)
             end
         end) (String.length s) s cs
  | Group n a => run a s cs (fun s' cs' => k s' ((n, consumed s s') :: cs'))
  end.

End Run.

(** The number of capturing groups, [pattern.groups]. *)
Fixpoint groups (r : regex) : nat :=
  match r with
  | Lit _ | AnyChar | Space | NotChar _ => O
  | Seq a b | Alt a b => (groups a + groups b)%nat
  | Opt a | Star a | LazyStar a => groups a
  | Group _ a => S (groups a)
  end.

(** [pattern.match(s)]: the captures and the length of the match at the
    start of [s]. *)
Definition match_here (p : pattern) (s : string) : option (captures * nat) :=
  run (ignorecase p) (dotall p) (expr p) s []
    (fun s' cs => Some (cs, (String.length s - String.length s')%nat)).

(** [m.group(n)], with [None] for a group that took no part. *)
Definition group (n : nat) (m : captures * nat) : option string := capture n (fst m).

(** [pattern.search(s)]: the match at the leftmost offset that has one. *)
Fixpoint search (p : pattern) (s : string) : option (captures * nat) :=
  match match_here p s with
  | Some m => Some m
  | None =>
      match s with
      | EmptyString => None
      | String _ t => search p t
      end
  end.

(** A match as [finditer] yields it: [start()], [end()], and the string
    that [findall] reports for it, which is the whole match for a pattern
    without a group and group 1 for a pattern with one, the empty string
    when that group took no part.  (With several groups [findall] gives
    tuples; no such pattern is passed to it here.) *)
Record re_match : Type := MkMatch {
  m_start : nat;
  m_end : nat;
  m_text : string
}.

Definition reported (p : pattern) (s : string) (m : captures * nat) : string :=
  match groups (expr p) with
  | O => PyStr.take (snd m) s
  | _ => default EmptyString (capture 1 (fst m))
  end.

(** [pattern.finditer(s)] for a pattern that matches no empty string: the
    text is scanned from left to right and after a match the scan resumes
    at its end.  [pos] is the offset of [s] in the whole text and [skip] the
    number of characters of the last match still to be passed over. *)
Fixpoint finditer_from (p : pattern) (pos skip : nat) (s : string) : list re_match :=
  match s with
  | EmptyString => []
  | String _ t =>
      match skip with
      | S k => finditer_from p (S pos) k t
      | O =>
          match match_here p s with
          | Some m =>
              MkMatch pos (pos + snd m) (reported p s m)
              :: finditer_from p (S pos) (snd m - 1) t
          | None => finditer_from p (S pos) O t
          end
      end
  end.

Definition finditer (p : pattern) (s : string) : list re_match :=
  finditer_from p O O s.

(** [pattern.findall(s)] *)
Definition findall (p : pattern) (s : string) : list string :=
  map m_text (finditer p s).

(** [re.compile(..., re.IGNORECASE)] and [re.compile(..., re.DOTALL)] *)
Definition compile_i (r : regex) : pattern := MkPattern r true false.
Definition compile_s (r : regex) : pattern := MkPattern r false true.

End Re.

(** ** Exceptions, outcomes and the world outside the resolver *)

(** A raised Python exception, by class name; every one is an
    [Exception], which [except Exception] catches. *)
Inductive exn : Type := Exn (name : string).

(** A returned dictionary value. *)
Inductive pyval : Type :=
| PInt (z : Z)
| PStr (s : string).

(** A small dictionary with string keys, in insertion order. *)
Module Dict.

Definition t (V : Type) : Type := list (string * V).

(** [d.get(k)] *)
Fixpoint get {V} (k : string) (d : t V) : option V :=
  match d with
  | [] => None
  | (k', v) :: rest => if String.eqb k k' then Some v else get k rest
  end.

(** [d[k] = v]: an existing key keeps its place, a new one goes last. *)
Fixpoint set {V} (k : string) (v : V) (d : t V) : t V :=
  match d with
  | [] => [(k, v)]
  | (k', v') :: rest => if String.eqb k k' then (k, v) :: rest else (k', v') :: set k v rest
  end.

End Dict.

Definition pydict : Type := Dict.t pyval.
Definition dict_get (k : string) (d : pydict) : option pyval := Dict.get k d.

(** What the resolver reads from outside.  A path is the string [str(p)] of
    the [pathlib.Path] it stands for.  A call that can raise returns
    [inl e]. *)
Record Env : Type := MkEnv {
  (** [hashlib.md5(s.encode()).hexdigest()] *)
  md5_hexdigest : string -> string;
  (** [Path.cwd()], [Path(s)], [a / b] *)
  path_cwd : string;
  path_new : string -> string;
  path_join : string -> string -> string;
  (** [p.is_absolute()], [p.exists()], [p.suffix], [p.stem] *)
  path_is_absolute : string -> bool;
  path_exists : string -> exn + bool;
  path_suffix : string -> string;
  path_stem : string -> string;
  (** [p.with_suffix(s)], [p.relative_to(base)] *)
  path_with_suffix : string -> string -> exn + string;
  path_relative_to : string -> string -> exn + string;
  (** [d.rglob('*.docx')]: the paths in the order the generator yields
      them; an [inl] is an exception raised while iterating *)
  path_rglob_docx : string -> list (exn + string);
  (** [SharerdoWordConverter().convert(open(p, 'rb').read())], as the pair
      of [bool(result.get('success'))] and [result.get('html_content', '')] *)
  convert_docx : string -> exn + (bool * string);
  (** [open(p, 'r', encoding='utf-8').read()] *)
  read_text : string -> exn + string;
  (** The fragment cut out of converted HTML with BeautifulSoup: the
      children of [body] joined, or [str(soup)] without a [body] *)
  soup_body_fragment : string -> exn + string;
  (** [elem.get('data-content-control')] for every element that
      [find_all(attrs={'data-content-control': True})] returns, in order *)
  soup_content_controls : string -> exn + list string;
  (** [str(soup)] after every element whose [data-content-control] equals
      the second argument was replaced by the parsed third argument *)
  soup_replace_controls : string -> string -> string -> exn + string
}.

(** ** Methods as state transformers

    A method takes the state of its object and gives back how it ended and
    the state it leaves behind.  [OutOfFuel] is not a Python outcome: it
    marks a run of the model that was cut short by its recursion budget,
    and no handler catches it. *)

Inductive outcome (A : Type) : Type :=
| Returned (a : A)
| Raised (e : exn)
| OutOfFuel.
Arguments Returned {A} a.
Arguments Raised {A} e.
Arguments OutOfFuel {A}.

Module Eff.

Definition M (S A : Type) : Type := S -> outcome A * S.

Section Ops.

Context {S : Type}.

Definition ret {A} (a : A) : M S A := fun st => (Returned a, st).

Definition bind {A B} (m : M S A) (f : A -> M S B) : M S B :=
  fun st =>
    match m st with
    | (Returned a, st') => f a st'
    | (Raised e, st') => (Raised e, st')
    | (OutOfFuel, st') => (OutOfFuel, st')
    end.

Definition raise {A} (e : exn) : M S A := fun st => (Raised e, st).
Definition out_of_fuel {A} : M S A := fun st => (OutOfFuel, st).
Definition gets {A} (f : S -> A) : M S A := fun st => (Returned (f st), st).
Definition modify (f : S -> S) : M S unit := fun st => (Returned tt, f st).

(** A call into the environment. *)
Definition lift {A} (r : exn + A) : M S A :=
  match r with
  | inl e => raise e
  | inr a => ret a
  end.

(** [try: m  except Exception as e: h e] *)
Definition try_except {A} (m : M S A) (h : exn -> M S A) : M S A :=
  fun st =>
    match m st with
    | (Raised e, st') => h e st'
    | r => r
    end.

(** [try: m  finally: fin] *)
Definition try_finally {A} (m : M S A) (fin : M S unit) : M S A :=
  fun st =>
    let '(o, st') := m st in
    match fin st' with
    | (Returned _, st'') => (o, st'')
    | (Raised e, st'') => (Raised e, st'')
    | (OutOfFuel, st'') => (OutOfFuel, st'')
    end.

End Ops.

Notation "x <- m ;; k" := (bind m (fun x => k))
  (at level 100, m at next level, right associativity).
Notation "m ;; k" := (bind m (fun _ => k))
  (at level 100, right associativity).

(** A [for] loop that carries [a] through the items of [l]. *)
Fixpoint foldM {S A B} (f : A -> B -> M S A) (a : A) (l : list B) : M S A :=
  match l with
  | [] => ret a
  | x :: rest => a' <- f a x ;; foldM f a' rest
  end.

End Eff.

(** ** The content-control resolver *)

Module Resolver.

Import Eff.

(** [self.statistics] *)
Record Statistics : Type := MkStatistics {
  cache_hits : Z;
  cache_misses : Z;
  total_resolutions : Z;
  circular_references : Z;
  failed_resolutions : Z
}.

(** The attributes of a [ContentControlResolver]. *)
Record Resolver : Type := MkResolver {
  base_path : string;
  max_depth : Z;
  cache : gmap string string;
  dependency_graph : gmap string (gset string);
  resolution_stack : list string;
  statistics : Statistics
}.

Definition set_cache (f : gmap string string -> gmap string string) (r : Resolver) : Resolver :=
  MkResolver (base_path r) (max_depth r) (f (cache r)) (dependency_graph r)
    (resolution_stack r) (statistics r).

Definition set_dependency_graph
    (f : gmap string (gset string) -> gmap string (gset string)) (r : Resolver) : Resolver :=
  MkResolver (base_path r) (max_depth r) (cache r) (f (dependency_graph r))
    (resolution_stack r) (statistics r).

Definition set_resolution_stack (f : list string -> list string) (r : Resolver) : Resolver :=
  MkResolver (base_path r) (max_depth r) (cache r) (dependency_graph r)
    (f (resolution_stack r)) (statistics r).

Definition set_statistics (f : Statistics -> Statistics) (r : Resolver) : Resolver :=
  MkResolver (base_path r) (max_depth r) (cache r) (dependency_graph r)
    (resolution_stack r) (f (statistics r)).

Definition incr_cache_hits (s : Statistics) : Statistics :=
  MkStatistics (cache_hits s + 1) (cache_misses s) (total_resolutions s)
    (circular_references s) (failed_resolutions s).

Definition incr_cache_misses (s : Statistics) : Statistics :=
  MkStatistics (cache_hits s) (cache_misses s + 1) (total_resolutions s)
    (circular_references s) (failed_resolutions s).

Definition incr_total_resolutions (s : Statistics) : Statistics :=
  MkStatistics (cache_hits s) (cache_misses s) (total_resolutions s + 1)
    (circular_references s) (failed_resolutions s).

Definition incr_circular_references (s : Statistics) : Statistics :=
  MkStatistics (cache_hits s) (cache_misses s) (total_resolutions s)
    (circular_references s + 1) (failed_resolutions s).

Definition incr_failed_resolutions (s : Statistics) : Statistics :=
  MkStatistics (cache_hits s) (cache_misses s) (total_resolutions s)
    (circular_references s) (failed_resolutions s + 1).

Definition reset_cache_counters (s : Statistics) : Statistics :=
  MkStatistics 0 0 (total_resolutions s) (circular_references s) (failed_resolutions s).

Abbreviation M := (Eff.M Resolver).

(** [PATTERNS], in the order of the dictionary literal. *)
Definition PATTERNS : list (string * Re.pattern) :=
  [ (** [\{\{content:([^}]+)\}\}] *)
    ("double_curly",
     Re.compile_i (Re.cat [Re.Lit "{{content:"; Re.Group 1 (Re.Plus (Re.NotChar "}"));
                           Re.Lit "}}"]));
    (** [\{\{(dc-[^}]+)\}\}] *)
    ("content_block",
     Re.compile_i (Re.cat [Re.Lit "{{";
                           Re.Group 1 (Re.Seq (Re.Lit "dc-") (Re.Plus (Re.NotChar "}")));
                           Re.Lit "}}"]));
    (** [@include\(([^)]+)\)] *)
    ("include_directive",
     Re.compile_i (Re.cat [Re.Lit "@include("; Re.Group 1 (Re.Plus (Re.NotChar ")"));
                           Re.Lit ")"]));
    (** [\[content:([^\]]+)\]] *)
    ("sharedo_content",
     Re.compile_i (Re.cat [Re.Lit "[content:"; Re.Group 1 (Re.Plus (Re.NotChar "]"));
                           Re.Lit "]"]));
    (** [<w:sdtContent[^>]*>.*?</w:sdtContent>], DOTALL *)
    ("word_content_control",
     Re.compile_s (Re.cat [Re.Lit "<w:sdtContent"; Re.Star (Re.NotChar ">"); Re.Lit ">";
                           Re.LazyStar Re.AnyChar; Re.Lit "</w:sdtContent>"])) ].

Section WithEnv.

Context (env : Env).

(** [__init__] *)
Definition init (base : option string) (depth_limit : Z) : Resolver :=
  MkResolver
    (match base with
     | Some b => if PyStr.truthy b then path_new env b else path_cwd env
     | None => path_cwd env
     end)
    depth_limit ∅ ∅ [] (MkStatistics 0 0 0 0 0).

(** [_extract_references] *)
Definition _extract_references (content : string) : list (string * string) :=
  if negb (PyStr.truthy content) then []
  else
    let references :=
      flat_map
        (fun '(pattern_name, pattern) =>
           if String.eqb pattern_name "word_content_control" then []
           else map (fun m => (pattern_name, m)) (Re.findall pattern content))
        PATTERNS in
    if PyStr.contains "<" content then
      match soup_content_controls env content with
      | inr refs =>
          references ++
          map (fun ref => ("data_attribute", ref)) (List.filter PyStr.truthy refs)
      | inl _ => references
      end
    else references.

(** [_generate_cache_key] *)
Definition _generate_cache_key (ref_type ref_path : string) : string :=
  md5_hexdigest env (ref_type +:+ ":" +:+ ref_path).

(** The wrapper of [_embed_content], an f-string over three lines. *)
Definition wrapped_content (ref_type ref_path content : string) : string :=
  PyStr.newline +:+
  "        <div class=" +:+ PyStr.quote +:+ "resolved-content" +:+ PyStr.quote +:+
  " data-source=" +:+ PyStr.quote +:+ ref_path +:+ PyStr.quote +:+
  " data-type=" +:+ PyStr.quote +:+ ref_type +:+ PyStr.quote +:+ ">" +:+ PyStr.newline +:+
  "            " +:+ content +:+ PyStr.newline +:+
  "        </div>" +:+ PyStr.newline +:+
  "        ".

(** [_embed_content] *)
Definition _embed_content (html ref_type ref_path content : string) : M string :=
  let wrapped := wrapped_content ref_type ref_path content in
  if String.eqb ref_type "double_curly" then
    ret (PyStr.replace ("{{" +:+ ref_path +:+ "}}") wrapped html)
  else if String.eqb ref_type "content_block" then
    ret (PyStr.replace ("{{" +:+ ref_path +:+ "}}") wrapped html)
  else if String.eqb ref_type "include_directive" then
    ret (PyStr.replace ("@include(" +:+ ref_path +:+ ")") wrapped html)
  else if String.eqb ref_type "sharedo_content" then
    ret (PyStr.replace ("[content:" +:+ ref_path +:+ "]") wrapped html)
  else if String.eqb ref_type "data_attribute" then
    lift (soup_replace_controls env html ref_path wrapped)
  else ret html.

(** [_resolve_path] *)
Definition common_locations : list string :=
  ["templates"; "Common/Content Blocks"; "Content Blocks"; "Documents"; "Samples/templates"].

Fixpoint resolve_in_locations (base ref_path : string) (locations : list string)
  : M (option string) :=
  match locations with
  | [] => ret None
  | location :: rest =>
      let path := path_join env (path_join env base location) ref_path in
      found <- lift (path_exists env path) ;;
      if found then ret (Some path)
      else
        path_with_ext <- lift (path_with_suffix env path ".docx") ;;
        found_ext <- lift (path_exists env path_with_ext) ;;
        if found_ext then ret (Some path_with_ext)
        else resolve_in_locations base ref_path rest
  end.

Definition _resolve_path (ref_path : string) : M (option string) :=
  let ref_path := PyStr.strip_chars (PyStr.apostrophe +:+ PyStr.quote) ref_path in
  let path := path_new env ref_path in
  absolute_found <-
    (if path_is_absolute env path then lift (path_exists env path) else ret false) ;;
  if absolute_found then ret (Some path)
  else
    base <- gets base_path ;;
    let path := path_join env base ref_path in
    found <- lift (path_exists env path) ;;
    if found then ret (Some path)
    else resolve_in_locations base ref_path common_locations.

(** [_find_content_block_file] *)
Fixpoint first_matching_docx (base block_name : string) (files : list (exn + string))
  : M (option string) :=
  match files with
  | [] => ret None
  | inl e :: _ => raise e
  | inr file_path :: rest =>
      if PyStr.contains (PyStr.lower block_name) (PyStr.lower (path_stem env file_path))
      then rel <- lift (path_relative_to env file_path base) ;; ret (Some rel)
      else first_matching_docx base block_name rest
  end.

Fixpoint search_content_block_dirs (base block_name : string) (search_dirs : list string)
  : M (option string) :=
  match search_dirs with
  | [] => ret None
  | search_dir :: rest =>
      found <- lift (path_exists env search_dir) ;;
      hit <- (if found
              then first_matching_docx base block_name (path_rglob_docx env search_dir)
              else ret None) ;;
      match hit with
      | Some rel => ret (Some rel)
      | None => search_content_block_dirs base block_name rest
      end
  end.

Definition _find_content_block_file (block_name : string) : M (option string) :=
  base <- gets base_path ;;
  search_content_block_dirs base block_name
    [ path_join env (path_join env (path_join env base "templates") "Common") "Content Blocks";
      path_join env (path_join env base "templates") "Content Blocks";
      path_join env base "Content Blocks" ].

(** The alias table of [_load_content_block]. *)
Definition content_block_mappings : list (string * string) :=
  [ ("dc-letterheader", "Common/Content Blocks/LetterHeader.docx");
    ("dc-letteraddress", "Common/Content Blocks/DC LetterAddress.docx");
    ("dc-lettersignoff", "Common/Content Blocks/DC LetterSignoff.docx");
    ("dc-footer", "Common/Content Blocks/DC Footer.docx");
    ("letterheader", "Common/Content Blocks/LetterHeader.docx");
    ("letterfooter", "Common/Content Blocks/LetterFooter.docx");
    ("letteraddress", "Common/Content Blocks/LetterAddress.docx");
    ("lettersignoff", "Common/Content Blocks/LetterSignoff.docx") ].

Fixpoint assoc (k : string) (d : list (string * string)) : option string :=
  match d with
  | [] => None
  | (k', v) :: rest => if String.eqb k k' then Some v else assoc k rest
  end.

(** [bool(x)] for an [Optional[str]]. *)
Definition truthy_opt (o : option string) : bool :=
  match o with
  | Some s => PyStr.truthy s
  | None => false
  end.

(** The per-call result of [resolve_document]: the HTML and the statistics
    dictionary. *)
Definition result : Type := string * pydict.

(** *** The methods that call back into [resolve_document]

    [resolve_document] and the loaders are mutually recursive.  The loaders
    are written over the entry point they call back, and the knot is tied
    by [resolve_document_fuel] below. *)

Section Loaders.

Variable resolve_document : string -> string -> Z -> M result.

(** [_load_and_convert_document] *)
Definition _load_and_convert_document (ref_path : string) (depth : Z) : M (option string) :=
  try_except
    (full_path <- _resolve_path ref_path ;;
     match full_path with
     | None => ret None
     | Some full_path =>
         found <- lift (path_exists env full_path) ;;
         if negb found then ret None
         else
           let suffix := PyStr.lower (path_suffix env full_path) in
           if String.eqb suffix ".docx" then
             converted <- lift (convert_docx env full_path) ;;
             let '(success, html) := converted in
             if success then
               fragment <- lift (soup_body_fragment env html) ;;
               limit <- gets max_depth ;;
               if depth <? limit then
                 nested <- resolve_document full_path fragment depth ;;
                 ret (Some (fst nested))
               else ret (Some fragment)
             else ret None
           else if String.eqb suffix ".html" || String.eqb suffix ".htm" then
             text <- lift (read_text env full_path) ;;
             ret (Some text)
           else ret None
     end)
    (fun _ => ret None).

(** [_load_content_block] *)
Definition _load_content_block (block_name : string) (depth : Z) : M (option string) :=
  let normalized_name := PyStr.strip (PyStr.lower block_name) in
  match assoc normalized_name content_block_mappings with
  | Some relative_path => _load_and_convert_document relative_path depth
  | None =>
      search_path <- _find_content_block_file block_name ;;
      if truthy_opt search_path
      then _load_and_convert_document (default EmptyString search_path) depth
      else ret None
  end.

(** [_load_referenced_content] *)
Definition _load_referenced_content (ref_id : string) (depth : Z) : M (option string) :=
  content <- _load_and_convert_document ref_id depth ;;
  if truthy_opt content then ret content
  else
    content <- _load_content_block ref_id depth ;;
    if truthy_opt content then ret content
    else ret None.

(** [_resolve_single_reference] *)
Definition _resolve_single_reference (ref_type ref_path : string) (depth : Z)
  : M (option string) :=
  let cache_key := _generate_cache_key ref_type ref_path in
  cached <- gets (fun st => cache st !! cache_key) ;;
  match cached with
  | Some content =>
      modify (set_statistics incr_cache_hits) ;;
      ret (Some content)
  | None =>
      modify (set_statistics incr_cache_misses) ;;
      resolved_content <-
        (if String.eqb ref_type "double_curly" || String.eqb ref_type "include_directive"
            || String.eqb ref_type "sharedo_content"
         then _load_and_convert_document ref_path depth
         else if String.eqb ref_type "content_block"
         then _load_content_block ref_path depth
         else if String.eqb ref_type "data_attribute"
         then _load_referenced_content ref_path depth
         else ret None) ;;
      (if truthy_opt resolved_content
       then modify (set_cache (insert cache_key (default EmptyString resolved_content)))
       else ret tt) ;;
      ret resolved_content
  end.

(** The state of the [for] loop of [resolve_document]: the running HTML and
    the counters [resolution_stats['resolved']] and
    [resolution_stats['failed']]. *)
Definition loop_state : Type := string * Z * Z.

(** [self.dependency_graph[doc_path].add(ref_path)] on a
    [defaultdict(set)]. *)
Definition add_dependency (doc_path ref_path : string)
    (g : gmap string (gset string)) : gmap string (gset string) :=
  <[doc_path := {[ref_path]} ∪ default ∅ (g !! doc_path)]> g.

(** One turn of the loop. *)
Definition resolve_reference (doc_path : string) (depth : Z)
    (acc : loop_state) (ref : string * string) : M loop_state :=
  let '(resolved_html, resolved, failed) := acc in
  let '(ref_type, ref_path) := ref in
  resolved_content <- _resolve_single_reference ref_type ref_path (depth + 1) ;;
  if truthy_opt resolved_content then
    resolved_html <-
      _embed_content resolved_html ref_type ref_path (default EmptyString resolved_content) ;;
    modify (set_dependency_graph (add_dependency doc_path ref_path)) ;;
    ret (resolved_html, resolved + 1, failed)
  else
    modify (set_statistics incr_failed_resolutions) ;;
    ret (resolved_html, resolved, failed + 1).

(** [self.resolution_stack.pop()] *)
Definition pop_resolution_stack : M unit :=
  fun st =>
    match resolution_stack st with
    | [] => (Raised (Exn "IndexError"), st)
    | _ => (Returned tt, set_resolution_stack (fun s => removelast s) st)
    end.

(** The body of [resolve_document]. *)
Definition resolve_document_body (doc_path html_content : string) (depth : Z) : M result :=
  limit <- gets max_depth ;;
  if limit <? depth then
    ret (html_content, [("error", PStr "max_depth_exceeded")])
  else
    stack <- gets resolution_stack ;;
    if bool_decide (doc_path ∈ stack) then
      modify (set_statistics incr_circular_references) ;;
      ret (html_content, [("error", PStr "circular_reference")])
    else
      modify (set_resolution_stack (fun s => (s ++ [doc_path])%list)) ;;
      modify (set_statistics incr_total_resolutions) ;;
      try_finally
        (let references := _extract_references html_content in
         match references with
         | [] => ret (html_content, [("references_found", PInt 0)])
         | _ =>
             final <- foldM (resolve_reference doc_path depth) (html_content, 0, 0) references ;;
             let '(resolved_html, resolved, failed) := final in
             ret (resolved_html,
                  [ ("references_found", PInt (Z.of_nat (length references)));
                    ("resolved", PInt resolved);
                    ("failed", PInt failed);
                    ("from_cache", PInt 0) ])
         end)
        pop_resolution_stack.

End Loaders.

(** [resolve_document].  Each level of the recursion spends one unit of
    [fuel]; a budget of [max_depth - depth + 1] levels is shown below never
    to be used up. *)
Fixpoint resolve_document_fuel (fuel : nat) (doc_path html_content : string) (depth : Z)
  : M result :=
  match fuel with
  | O => out_of_fuel
  | S fuel' => resolve_document_body (resolve_document_fuel fuel') doc_path html_content depth
  end.

(** The recursion budget that [max_depth] grants a call at [depth]. *)
Definition depth_budget (st : Resolver) (depth : Z) : nat :=
  S (Z.to_nat (max_depth st - depth)).

Definition resolve_document (doc_path html_content : string) (depth : Z) : M result :=
  fun st => resolve_document_fuel (depth_budget st depth) doc_path html_content depth st.

(** [clear_cache] *)
Definition clear_cache : M unit :=
  modify (set_cache (fun _ => ∅)) ;;
  modify (set_statistics reset_cache_counters).

(** [get_dependency_graph] *)
Definition get_dependency_graph (st : Resolver) : gmap string (list string) :=
  elements <$> dependency_graph st.

End WithEnv.

End Resolver.

(** ** The document tree of BeautifulSoup

    A parsed document is a tree of tags and strings.  The parser mutates
    the tree in place through references to its elements; here an element
    is referred to by its address, the list of child indices that leads to
    it from the root, and a mutation rewrites the tree at that address. *)

Module Dom.

(** An attribute value is the string written in the document.
    BeautifulSoup hands out the value of [class] as the list of its
    whitespace-separated tokens; the one place that reads it,
    [_extract_formatting], splits the string. *)
Definition attr_value : Type := string.

Inductive node : Type :=
| Text (s : string)
| Tag (name : string) (attrs : list (string * attr_value)) (contents : list node).

Definition path : Type := list nat.

(** [tag.get(k)] *)
Fixpoint lookup_attr (k : string) (attrs : list (string * attr_value)) : option attr_value :=
  match attrs with
  | [] => None
  | (k', v) :: rest => if String.eqb k k' then Some v else lookup_attr k rest
  end.

(** [tag[k] = v]: an existing key keeps its place, a new one goes last. *)
Fixpoint store_attr (k : string) (v : attr_value) (attrs : list (string * attr_value))
  : list (string * attr_value) :=
  match attrs with
  | [] => [(k, v)]
  | (k', v') :: rest =>
      if String.eqb k k' then (k, v) :: rest else (k', v') :: store_attr k v rest
  end.

Definition attrs_of (n : node) : list (string * attr_value) :=
  match n with
  | Tag _ attrs _ => attrs
  | Text _ => []
  end.

Definition get (k : string) (n : node) : option attr_value := lookup_attr k (attrs_of n).

Definition set_attr (k : string) (v : attr_value) (n : node) : node :=
  match n with
  | Tag name attrs contents => Tag name (store_attr k v attrs) contents
  | Text _ => n
  end.

Definition is_tag (names : list string) (n : node) : bool :=
  match n with
  | Tag name _ _ => existsb (String.eqb name) names
  | Text _ => false
  end.

Definition is_text (n : node) : bool :=
  match n with
  | Text _ => true
  | Tag _ _ _ => false
  end.

(** The element at an address. *)
Fixpoint get_at (p : path) (n : node) : option node :=
  match p with
  | [] => Some n
  | i :: p' =>
      match n with
      | Tag _ _ contents =>
          match contents !! i with
          | Some c => get_at p' c
          | None => None
          end
      | Text _ => None
      end
  end.

(** The tree with the element at an address rewritten. *)
Fixpoint update_at (f : node -> node) (p : path) (n : node) : node :=
  match p with
  | [] => f n
  | i :: p' =>
      match n with
      | Tag name attrs contents => Tag name attrs (alter (update_at f p') i contents)
      | Text _ => n
      end
  end.

(** The children of an element with their addresses. *)
Fixpoint number_from (i : nat) (here : path) (contents : list node) : list (path * node) :=
  match contents with
  | [] => []
  | c :: rest => ((here ++ [i])%list, c) :: number_from (S i) here rest
  end.

Definition children_at (here : path) (n : node) : list (path * node) :=
  match n with
  | Tag _ _ contents => number_from O here contents
  | Text _ => []
  end.

(** The descendants of an element in document order, with their
    addresses. *)
Fixpoint descendants_at (here : path) (n : node) : list (path * node) :=
  match n with
  | Text _ => []
  | Tag _ _ contents =>
      (fix walk (i : nat) (cs : list node) : list (path * node) :=
         match cs with
         | [] => []
         | c :: rest =>
             ((((here ++ [i])%list, c) :: descendants_at (here ++ [i])%list c)
              ++ walk (S i) rest)%list
         end) O contents
  end.

(** [tag.find_all(names)] and [tag.find_all(names, recursive=False)], as
    addresses; [here] is the address of [tag] and [root] the whole tree. *)
Definition find_all (names : list string) (here : path) (root : node) : list path :=
  match get_at here root with
  | Some n => map fst (List.filter (fun pn => is_tag names (snd pn)) (descendants_at here n))
  | None => []
  end.

Definition find_children (names : list string) (here : path) (root : node) : list path :=
  match get_at here root with
  | Some n => map fst (List.filter (fun pn => is_tag names (snd pn)) (children_at here n))
  | None => []
  end.

(** [tag.find_all(attrs={k: True})]: the elements that carry [k]. *)
Definition find_all_with_attr (k : string) (here : path) (root : node) : list path :=
  match get_at here root with
  | Some n =>
      map fst (List.filter (fun pn => match get k (snd pn) with Some _ => true | None => false end)
                 (descendants_at here n))
  | None => []
  end.

(** [tag.find_all(...)] with the test on an element written out. *)
Definition find_all_by (test : node -> bool) (here : path) (root : node) : list path :=
  match get_at here root with
  | Some n => map fst (List.filter (fun pn => test (snd pn)) (descendants_at here n))
  | None => []
  end.

(** [soup.find_all(string=True)]: the strings with their addresses. *)
Definition find_all_strings (root : node) : list (path * string) :=
  flat_map (fun pn => match snd pn with Text s => [(fst pn, s)] | Tag _ _ _ => [] end)
    (descendants_at [] root).

(** [text_node.wrap(wrapper)]: the wrapper takes the place of the string
    and the string becomes its only child. *)
Definition wrap (wrapper_name : string) (wrapper_attrs : list (string * attr_value))
    (n : node) : node :=
  Tag wrapper_name wrapper_attrs [n].

End Dom.

(** ** The structure parser *)

Module Parser.

Import Eff.

(** [class StructureType(Enum)] *)
Inductive StructureType : Type := TABLE | CONDITIONAL | SECTION | LIST | MIXED.

(** [class ConditionalType(Enum)] *)
Inductive ConditionalType : Type := IF_THEN | IF_THEN_ELSE | SWITCH_CASE | LOOP | NESTED.

Definition StructureType_eqb (a b : StructureType) : bool :=
  match a, b with
  | TABLE, TABLE | CONDITIONAL, CONDITIONAL | SECTION, SECTION
  | LIST, LIST | MIXED, MIXED => true
  | _, _ => false
  end.

(** [StructureNode.content] is a string or a reference to an element of
    the document tree. *)
Inductive node_content : Type :=
| ContentStr (s : string)
| ContentTag (at_path : Dom.path).

(** A value of [StructureNode.attributes]. *)
Inductive attribute : Type :=
| AttrValue (v : Dom.attr_value)
| AttrInt (z : Z).

(** A value of the dictionary [StructureNode.conditional_info]. *)
Inductive info_value : Type :=
| InfoType (t : ConditionalType)
| InfoStr (s : string)
| InfoList (l : list string)
| InfoBool (b : bool).

(** [bool(v)] *)
Definition info_truthy (v : info_value) : bool :=
  match v with
  | InfoType _ => true
  | InfoStr s => PyStr.truthy s
  | InfoList l => match l with [] => false | _ => true end
  | InfoBool b => b
  end.

(** [@dataclass class StructureNode] *)
Inductive StructureNode : Type :=
  MkNode (type : StructureType) (depth : Z) (content : node_content)
         (children : list StructureNode)
         (attributes : Dict.t attribute)
         (formatting : Dict.t Dom.attr_value)
         (conditional_info : option (Dict.t info_value)).

Definition type (n : StructureNode) : StructureType :=
  match n with MkNode t _ _ _ _ _ _ => t end.
Definition depth (n : StructureNode) : Z :=
  match n with MkNode _ d _ _ _ _ _ => d end.
Definition content (n : StructureNode) : node_content :=
  match n with MkNode _ _ c _ _ _ _ => c end.
Definition children (n : StructureNode) : list StructureNode :=
  match n with MkNode _ _ _ ch _ _ _ => ch end.
Definition attributes (n : StructureNode) : Dict.t attribute :=
  match n with MkNode _ _ _ _ a _ _ => a end.
Definition formatting (n : StructureNode) : Dict.t Dom.attr_value :=
  match n with MkNode _ _ _ _ _ f _ => f end.
Definition conditional_info (n : StructureNode) : option (Dict.t info_value) :=
  match n with MkNode _ _ _ _ _ _ ci => ci end.

(** [node.children.append(child)] *)
Definition append_child (child : StructureNode) (n : StructureNode) : StructureNode :=
  match n with
  | MkNode t d c ch a f ci => MkNode t d c (ch ++ [child])%list a f ci
  end.

Definition set_formatting (f : Dict.t Dom.attr_value) (n : StructureNode) : StructureNode :=
  match n with
  | MkNode t d c ch a _ ci => MkNode t d c ch a f ci
  end.

Definition set_conditional_info (ci : option (Dict.t info_value)) (n : StructureNode)
  : StructureNode :=
  match n with
  | MkNode t d c ch a f _ => MkNode t d c ch a f ci
  end.

Definition MAX_NESTING_DEPTH : Z := 10.

(** [str(n)] of an integer. *)
Definition str_int (n : Z) : string := pretty n.

(** *** Validation *)

(** [_calculate_max_depth] *)
Fixpoint _calculate_max_depth (node : StructureNode) : Z :=
  match node with
  | MkNode _ d _ ch _ _ _ =>
      match map _calculate_max_depth ch with
      | [] => d
      | m :: ms => fold_left Z.max ms m
      end
  end.

(** The test of [_find_unclosed_conditionals] on one node:
    [node.conditional_info and not node.conditional_info.get('closed', True)] *)
Definition reads_unclosed (node : StructureNode) : bool :=
  match conditional_info node with
  | None | Some [] => false
  | Some info =>
      negb (match Dict.get "closed" info with
            | Some v => info_truthy v
            | None => true
            end)
  end.

(** [_find_unclosed_conditionals] *)
Fixpoint _find_unclosed_conditionals (node : StructureNode) : list StructureNode :=
  match node with
  | MkNode t _ _ ch _ _ _ =>
      ((if StructureType_eqb t CONDITIONAL && reads_unclosed node then [node] else [])
       ++ flat_map _find_unclosed_conditionals ch)%list
  end.

(** [_find_invalid_nesting] *)
Fixpoint _find_invalid_nesting (node : StructureNode) : list string :=
  match node with
  | MkNode t d _ ch _ _ _ =>
      ((if StructureType_eqb t TABLE && (5 <? d)
        then ["Table nested " +:+ str_int d +:+ " levels deep may cause rendering issues"]
        else [])
       ++ (if StructureType_eqb t MIXED && (3 <? d)
           then ["Complex mixed structure at depth " +:+ str_int d]
           else [])
       ++ flat_map _find_invalid_nesting ch)%list
  end.

(** [sum(xs)] *)
Definition sum (xs : list Z) : Z := fold_left Z.add xs 0.

(** [_count_nodes] *)
Fixpoint _count_nodes (node : StructureNode) : Z :=
  match node with
  | MkNode _ _ _ ch _ _ _ => 1 + sum (map _count_nodes ch)
  end.

(** [_count_by_type] *)
Fixpoint _count_by_type (node_type : StructureType) (node : StructureNode) : Z :=
  match node with
  | MkNode t _ _ ch _ _ _ =>
      (if StructureType_eqb t node_type then 1 else 0)
      + sum (map (_count_by_type node_type) ch)
  end.

(** The dictionary under [structure_summary]. *)
Record Summary : Type := MkSummary {
  total_nodes : Z;
  max_depth : Z;
  table_nodes : Z;
  conditional_nodes : Z;
  mixed_nodes : Z
}.

(** The dictionary that [validate_structure] returns. *)
Record ValidationResults : Type := MkValidation {
  is_valid : bool;
  errors : list string;
  warnings : list string;
  structure_summary : Summary
}.

(** [validate_structure] *)
Definition validate_structure (root : StructureNode) : ValidationResults :=
  let max_depth := _calculate_max_depth root in
  let warnings1 :=
    if MAX_NESTING_DEPTH <? max_depth
    then ["Structure depth " +:+ str_int max_depth +:+ " exceeds recommended maximum "
          +:+ str_int MAX_NESTING_DEPTH]
    else [] in
  let open_conditionals := _find_unclosed_conditionals root in
  let '(valid, errors1) :=
    match open_conditionals with
    | [] => (true, [])
    | _ => (false, ["Found " +:+ str_int (Z.of_nat (length open_conditionals))
                    +:+ " unclosed conditional blocks"])
    end in
  let invalid_nesting := _find_invalid_nesting root in
  MkValidation valid errors1 (warnings1 ++ invalid_nesting)%list
    (MkSummary (_count_nodes root) max_depth
       (_count_by_type TABLE root) (_count_by_type CONDITIONAL root)
       (_count_by_type MIXED root)).

(** *** The patterns *)

Definition spaces : Re.regex := Re.Star Re.Space.
Definition spaces1 : Re.regex := Re.Plus Re.Space.
Definition opt_newline : Re.regex := Re.Opt (Re.Lit PyStr.newline).

(** [CONDITIONAL_PATTERNS], in the order of the dictionary literal. *)
Definition CONDITIONAL_PATTERNS : list (string * Re.pattern) :=
  [ (** [\{\%\s*if\s+([^%]+)\s*\%\}] *)
    ("if_simple",
     Re.compile_i (Re.cat [Re.Lit "{%"; spaces; Re.Lit "if"; spaces1;
                           Re.Group 1 (Re.Plus (Re.NotChar "%")); spaces; Re.Lit "%}"]));
    (** [if\s+(.+?)\s+(?:then|:)] *)
    ("if_complex",
     Re.compile_i (Re.cat [Re.Lit "if"; spaces1; Re.Group 1 (Re.LazyPlus Re.AnyChar);
                           spaces1; Re.Alt (Re.Lit "then") (Re.Lit ":")]));
    (** [(?:if|IF)\s*\n?\s*(.+?)\s*\n?\s*(?:then|THEN|:)], IGNORECASE | MULTILINE *)
    ("if_multiline",
     Re.compile_i (Re.cat [Re.Alt (Re.Lit "if") (Re.Lit "IF"); spaces; opt_newline; spaces;
                           Re.Group 1 (Re.LazyPlus Re.AnyChar); spaces; opt_newline; spaces;
                           Re.Alt (Re.Lit "then") (Re.Alt (Re.Lit "THEN") (Re.Lit ":"))]));
    (** [\{\%\s*endif\s*\%\}|endif|ENDIF] *)
    ("endif",
     Re.compile_i (Re.Alt (Re.cat [Re.Lit "{%"; spaces; Re.Lit "endif"; spaces; Re.Lit "%}"])
                          (Re.Alt (Re.Lit "endif") (Re.Lit "ENDIF"))));
    (** [\{\%\s*else\s*\%\}|else|ELSE] *)
    ("else",
     Re.compile_i (Re.Alt (Re.cat [Re.Lit "{%"; spaces; Re.Lit "else"; spaces; Re.Lit "%}"])
                          (Re.Alt (Re.Lit "else") (Re.Lit "ELSE"))));
    (** [\{\%\s*elif\s+([^%]+)\s*\%\}|elif\s+(.+)] *)
    ("elif",
     Re.compile_i (Re.Alt (Re.cat [Re.Lit "{%"; spaces; Re.Lit "elif"; spaces1;
                                   Re.Group 1 (Re.Plus (Re.NotChar "%")); spaces; Re.Lit "%}"])
                          (Re.cat [Re.Lit "elif"; spaces1; Re.Group 2 (Re.Plus Re.AnyChar)])));
    (** [switch\s*\(([^)]+)\)] *)
    ("switch",
     Re.compile_i (Re.cat [Re.Lit "switch"; spaces; Re.Lit "(";
                           Re.Group 1 (Re.Plus (Re.NotChar ")")); Re.Lit ")"]));
    (** [case\s+([^:]+):] *)
    ("case",
     Re.compile_i (Re.cat [Re.Lit "case"; spaces1; Re.Group 1 (Re.Plus (Re.NotChar ":"));
                           Re.Lit ":"]));
    (** [\{\%\s*for\s+(.+?)\s+in\s+(.+?)\s*\%\}] *)
    ("for_loop",
     Re.compile_i (Re.cat [Re.Lit "{%"; spaces; Re.Lit "for"; spaces1;
                           Re.Group 1 (Re.LazyPlus Re.AnyChar); spaces1; Re.Lit "in"; spaces1;
                           Re.Group 2 (Re.LazyPlus Re.AnyChar); spaces; Re.Lit "%}"])) ].

(** [CONDITIONAL_PATTERNS[name].search(text)] *)
Definition pattern_search (name text : string) : option (Re.captures * nat) :=
  match Dict.get name CONDITIONAL_PATTERNS with
  | Some p => Re.search p text
  | None => None
  end.

(** *** The parser object *)

(** [self.statistics] *)
Record Statistics : Type := MkStatistics {
  max_depth_reached : Z;
  tables_parsed : Z;
  conditionals_parsed : Z;
  nested_structures : Z;
  complex_structures : Z
}.

(** The parser: its statistics and the warnings it has logged.  The
    attributes [structure_stack], [depth_counter] and [formatting_stack]
    are set by [__init__] and never touched again. *)
Record Parser : Type := MkParser {
  statistics : Statistics;
  logged : list string
}.

(** [__init__] *)
Definition init : Parser := MkParser (MkStatistics 0 0 0 0 0) [].

(** The parser together with the document tree of the call in progress. *)
Record Work : Type := MkWork {
  self : Parser;
  soup : Dom.node
}.

(** BeautifulSoup's parser and serialiser: [BeautifulSoup(html,
    'html.parser')] and [str(soup)]. *)
Record Bs4 : Type := MkBs4 {
  bs4_parse : string -> exn + Dom.node;
  bs4_str : Dom.node -> string
}.

Definition set_statistics (f : Statistics -> Statistics) (w : Work) : Work :=
  MkWork (MkParser (f (statistics (self w))) (logged (self w))) (soup w).

Definition set_soup (f : Dom.node -> Dom.node) (w : Work) : Work :=
  MkWork (self w) (f (soup w)).

(** [logger.warning(msg)] *)
Definition log_warning (msg : string) (w : Work) : Work :=
  MkWork (MkParser (statistics (self w)) (logged (self w) ++ [msg])%list) (soup w).

Definition incr_tables_parsed (s : Statistics) : Statistics :=
  MkStatistics (max_depth_reached s) (tables_parsed s + 1) (conditionals_parsed s)
    (nested_structures s) (complex_structures s).

Definition incr_conditionals_parsed (s : Statistics) : Statistics :=
  MkStatistics (max_depth_reached s) (tables_parsed s) (conditionals_parsed s + 1)
    (nested_structures s) (complex_structures s).

Definition incr_nested_structures (s : Statistics) : Statistics :=
  MkStatistics (max_depth_reached s) (tables_parsed s) (conditionals_parsed s)
    (nested_structures s + 1) (complex_structures s).

Definition incr_complex_structures (s : Statistics) : Statistics :=
  MkStatistics (max_depth_reached s) (tables_parsed s) (conditionals_parsed s)
    (nested_structures s) (complex_structures s + 1).

Definition set_max_depth_reached (d : Z) (s : Statistics) : Statistics :=
  MkStatistics d (tables_parsed s) (conditionals_parsed s)
    (nested_structures s) (complex_structures s).

(** [elem[k] = v] on the element at an address. *)
Definition set_attr_at (p : Dom.path) (k : string) (v : Dom.attr_value) : M Work unit :=
  modify (set_soup (Dom.update_at (Dom.set_attr k v) p)).

(** The element at an address, as the tree has it now. *)
Definition element_at (p : Dom.path) : M Work Dom.node :=
  gets (fun w => default (Dom.Text EmptyString) (Dom.get_at p (soup w))).

Definition non_empty {A} (l : list A) : bool :=
  match l with [] => false | _ => true end.

(** *** Nested tables *)

(** The inline styles of [_extract_formatting]. *)
Definition style_properties (style_str : string) : Dict.t Dom.attr_value :=
  fold_left
    (fun formatting style =>
       match PyStr.partition ":" style with
       | Some (prop, value) =>
           Dict.set (PyStr.strip prop) (PyStr.strip value) formatting
       | None => formatting
       end)
    (List.filter PyStr.truthy (map PyStr.strip (PyStr.split_on ";" style_str)))
    [].

Definition format_attrs : list string :=
  ["align"; "valign"; "width"; "height"; "bgcolor"; "border"].

(** [_extract_formatting] *)
Definition _extract_formatting (element : Dom.node) : Dict.t Dom.attr_value :=
  let formatting :=
    match Dom.get "style" element with
    | Some style_str =>
        if PyStr.truthy style_str then style_properties style_str else []
    | None => []
    end in
  let formatting :=
    match Dom.get "class" element with
    | Some value =>
        let classes := PyStr.split_ws value in
        if non_empty classes
        then Dict.set "classes" (PyStr.join " " classes) formatting
        else formatting
    | None => formatting
    end in
  fold_left
    (fun formatting attr =>
       match Dom.get attr element with
       | Some v => if PyStr.truthy v then Dict.set attr v formatting else formatting
       | None => formatting
       end)
    format_attrs formatting.

(** A [for] loop over addresses that only mutates the tree. *)
Definition for_each {A} (l : list A) (body : A -> M Work unit) : M Work unit :=
  foldM (fun _ x => body x) tt l.

(** [_preserve_cell_content] *)
Definition _preserve_cell_content (cell : Dom.path) (depth : Z) : M Work unit :=
  lists <- gets (fun w => Dom.find_all ["ul"; "ol"] cell (soup w)) ;;
  tables <- gets (fun w => Dom.find_all ["table"] cell (soup w)) ;;
  paragraphs <- gets (fun w => Dom.find_all ["p"] cell (soup w)) ;;
  let has_list := non_empty lists in
  let has_table := non_empty tables in
  let has_multiple_paragraphs := (1 <? length paragraphs)%nat in
  if has_list || has_table || has_multiple_paragraphs then
    set_attr_at cell "data-complex-content" "true" ;;
    set_attr_at cell "data-content-depth" (str_int depth) ;;
    (if has_list
     then for_each lists (fun list_elem =>
            set_attr_at list_elem "data-preserved-list" "true")
     else ret tt) ;;
    (if has_table
     then set_attr_at cell "data-has-nested-table" "true"
     else ret tt)
  else ret tt.

Section NestedTables.

(** The recursive call of [_process_nested_tables]. *)
Variable recurse : Dom.path -> StructureNode -> Z -> M Work StructureNode.

(** One turn of the loop over the tables of [_process_nested_tables]. *)
Definition process_table (depth : Z) (parent : StructureNode) (table : Dom.path)
  : M Work StructureNode :=
  modify (set_statistics incr_tables_parsed) ;;
  element <- element_at table ;;
  let table_node :=
    MkNode TABLE (depth + 1) (ContentTag table) []
      (map (fun kv => (fst kv, AttrValue (snd kv))) (Dom.attrs_of element)) [] None in
  let table_node := set_formatting (_extract_formatting element) table_node in
  nested_tables <- gets (fun w => Dom.find_all ["table"] table (soup w)) ;;
  table_node <-
    (if non_empty nested_tables then
       modify (set_statistics incr_nested_structures) ;;
       cells <- gets (fun w => Dom.find_all ["td"; "th"] table (soup w)) ;;
       foldM
         (fun table_node cell =>
            cell_tables <- gets (fun w => Dom.find_children ["table"] cell (soup w)) ;;
            if non_empty cell_tables then recurse cell table_node (depth + 1)
            else ret table_node)
         table_node cells
     else ret table_node) ;;
  set_attr_at table "data-nesting-level" (str_int (depth + 1)) ;;
  set_attr_at table "data-structure-type"
    (if non_empty nested_tables then "nested-table" else "simple-table") ;;
  cells <- gets (fun w => Dom.find_all ["td"; "th"] table (soup w)) ;;
  for_each cells (fun cell => _preserve_cell_content cell (depth + 1)) ;;
  ret (append_child table_node parent).

(** The body of [_process_nested_tables]; [at_path] is the address of the
    element passed as [soup]. *)
Definition _process_nested_tables_body (at_path : Dom.path) (parent : StructureNode)
    (depth : Z) : M Work StructureNode :=
  if MAX_NESTING_DEPTH <=? depth then
    modify (log_warning ("Max table nesting depth " +:+ str_int MAX_NESTING_DEPTH
                         +:+ " reached")) ;;
    ret parent
  else
    tables <- gets (fun w => Dom.find_children ["table"] at_path (soup w)) ;;
    foldM (process_table depth) parent tables.

End NestedTables.

(** [_process_nested_tables].  Each level of the recursion spends one unit
    of [fuel]. *)
Fixpoint _process_nested_tables_fuel (fuel : nat) (at_path : Dom.path)
    (parent : StructureNode) (depth : Z) : M Work StructureNode :=
  match fuel with
  | O => out_of_fuel
  | S fuel' =>
      _process_nested_tables_body (_process_nested_tables_fuel fuel') at_path parent depth
  end.

(** The recursion budget that [MAX_NESTING_DEPTH] grants a call at
    [depth]. *)
Definition nesting_budget (depth : Z) : nat := S (Z.to_nat (MAX_NESTING_DEPTH - depth)).

Definition _process_nested_tables (at_path : Dom.path) (parent : StructureNode) (depth : Z)
  : M Work StructureNode :=
  _process_nested_tables_fuel (nesting_budget depth) at_path parent depth.

(** *** Conditional blocks *)

(** [int(s)] for a string: surrounding whitespace, an optional sign, and
    decimal digits that single underscores may separate. *)
Definition digit_value (c : ascii) : option Z :=
  let n := N_of_ascii c in
  if PyStr.in_range 48 57 n then Some (Z.of_N n - 48) else None.

Fixpoint int_digits (acc : Z) (after_digit : bool) (s : string) : option Z :=
  match s with
  | EmptyString => if after_digit then Some acc else None
  | String c t =>
      match digit_value c with
      | Some d => int_digits (10 * acc + d) true t
      | None =>
          if Ascii.eqb c "_" && after_digit then
            match t with
            | EmptyString => None
            | String c' _ =>
                match digit_value c' with
                | Some _ => int_digits acc false t
                | None => None
                end
            end
          else None
      end
  end.

Definition int_of_str (s : string) : exn + Z :=
  let s := PyStr.strip s in
  let '(negative, body) :=
    match s with
    | String "-" t => (true, t)
    | String "+" t => (false, t)
    | _ => (false, s)
    end in
  match int_digits 0 false body with
  | Some n => inr (if negative then - n else n)
  | None => inl (Exn "ValueError")
  end.

(** [int(elem.get('data-depth', 0))] *)
Definition data_depth (element : Dom.node) : exn + Z :=
  match Dom.get "data-depth" element with
  | None => inr 0
  | Some s => int_of_str s
  end.

(** The stack of open conditionals; the top is the last element.
    [current_conditional] is an alias of the top of the stack, or [None]
    when the stack is empty, at every point of the loop. *)
Definition conditional_stack : Type := list StructureNode.

(** The mutation that the [else] branch makes through
    [current_conditional]. *)
Definition mark_else (n : StructureNode) : StructureNode :=
  match conditional_info n with
  | Some info =>
      let branches :=
        match Dict.get "branches" info with
        | Some (InfoList l) => (l ++ ["else"])%list
        | _ => ["else"]
        end in
      set_conditional_info
        (Some (Dict.set "branches" (InfoList branches)
                 (Dict.set "type" (InfoType IF_THEN_ELSE) info)))
        n
  | None => n
  end.

Fixpoint update_last {A} (f : A -> A) (l : list A) : list A :=
  match l with
  | [] => []
  | [x] => [f x]
  | x :: rest => x :: update_last f rest
  end.

(** [soup.new_tag('div', **attrs)] put around the string at an address.
    A string of a parsed document has a parent, so the test
    [if text_node.parent] before [text_node.wrap(wrapper)] holds. *)
Definition wrap_at (p : Dom.path) (attrs : list (string * string)) : M Work unit :=
  modify (set_soup (Dom.update_at
                      (Dom.wrap "div" attrs) p)).

(** The first of the three [if] patterns that matches somewhere. *)
Definition if_match (text : string) : option (Re.captures * nat) :=
  match pattern_search "if_simple" text with
  | Some m => Some m
  | None =>
      match pattern_search "if_complex" text with
      | Some m => Some m
      | None => pattern_search "if_multiline" text
      end
  end.

Definition is_match (m : option (Re.captures * nat)) : bool :=
  match m with Some _ => true | None => false end.

(** One turn of the loop over the strings of the document. *)
Definition process_text_node (acc : StructureNode * conditional_stack)
    (text_node : Dom.path * string) : M Work (StructureNode * conditional_stack) :=
  let '(parent, stack) := acc in
  let '(at_path, text) := text_node in
  match if_match text with
  | Some m =>
      modify (set_statistics incr_conditionals_parsed) ;;
      let condition := default EmptyString (Re.group 1 m) in
      let current_conditional :=
        MkNode CONDITIONAL (Z.of_nat (length stack) + 1) (ContentStr condition) [] [] []
          (Some [("type", InfoType IF_THEN); ("condition", InfoStr condition);
                 ("branches", InfoList [])]) in
      let stack := (stack ++ [current_conditional])%list in
      wrap_at at_path [("data-conditional", "if"); ("data-condition", condition);
                       ("data-depth", str_int (Z.of_nat (length stack)))] ;;
      ret (parent, stack)
  | None =>
      if is_match (pattern_search "else" text) then
        match stack with
        | [] => ret (parent, stack)
        | _ =>
            let stack := update_last mark_else stack in
            wrap_at at_path [("data-conditional", "else");
                             ("data-depth", str_int (Z.of_nat (length stack)))] ;;
            ret (parent, stack)
        end
      else if is_match (pattern_search "endif" text) then
        match last stack with
        | None => ret (parent, stack)
        | Some completed_conditional =>
            let stack := removelast stack in
            let parent := append_child completed_conditional parent in
            wrap_at at_path [("data-conditional", "endif");
                             ("data-depth", str_int (Z.of_nat (length stack) + 1))] ;;
            ret (parent, stack)
        end
      else ret (parent, stack)
  end.

(** [_process_conditional_blocks] *)
Definition _process_conditional_blocks (parent : StructureNode) : M Work StructureNode :=
  text_nodes <- gets (fun w => Dom.find_all_strings (soup w)) ;;
  final <- foldM process_text_node (parent, []) text_nodes ;;
  let '(parent, stack) := final in
  (if (1 <? length stack)%nat then
     modify (set_statistics incr_complex_structures) ;;
     elems <- gets (fun w => Dom.find_all_with_attr "data-conditional" [] (soup w)) ;;
     for_each elems
       (fun elem =>
          element <- element_at elem ;;
          depth <- lift (data_depth element) ;;
          if 1 <? depth
          then set_attr_at elem "data-nested-conditional" "true"
          else ret tt)
   else ret tt) ;;
  ret parent.

(** *** Mixed content *)

(** Whether an attribute value matches the string asked for in
    [find_all(attrs={k: s})]. *)
Definition attr_matches (s : string) (v : Dom.attr_value) : bool := String.eqb s v.

Definition is_conditional_if_div (n : Dom.node) : bool :=
  Dom.is_tag ["div"] n
  && match Dom.get "data-conditional" n with
     | Some v => attr_matches "if" v
     | None => false
     end.

(** One turn of the loop of [_process_mixed_content]. *)
Definition process_conditional_div (parent : StructureNode) (cond_div : Dom.path)
  : M Work StructureNode :=
  tables_in_conditional <- gets (fun w => Dom.find_all ["table"] cond_div (soup w)) ;;
  if non_empty tables_in_conditional then
    modify (set_statistics incr_complex_structures) ;;
    element <- element_at cond_div ;;
    let mixed_node :=
      MkNode MIXED (depth parent + 1) (ContentStr "conditional_with_table") []
        [("condition", AttrValue (default EmptyString
                                    (Dom.get "data-condition" element)));
         ("table_count", AttrInt (Z.of_nat (length tables_in_conditional)))]
        [] None in
    set_attr_at cond_div "data-structure-type" "mixed-conditional-table" ;;
    for_each tables_in_conditional
      (fun table =>
         set_attr_at table "data-within-conditional" "true" ;;
         cond <- element_at cond_div ;;
         set_attr_at table "data-conditional-depth"
           (default "1" (Dom.get "data-depth" cond))) ;;
    ret (append_child mixed_node parent)
  else ret parent.

(** [_process_mixed_content] *)
Definition _process_mixed_content (parent : StructureNode) : M Work StructureNode :=
  conditional_divs <- gets (fun w => Dom.find_all_by is_conditional_if_div [] (soup w)) ;;
  foldM process_conditional_div parent conditional_divs.

(** *** Metadata *)

Definition css_line (s : string) : string := "        " +:+ s +:+ PyStr.newline.

Definition nesting_rule (level colour : string) : string :=
  "[data-nesting-level=" +:+ PyStr.quote +:+ level +:+ PyStr.quote
  +:+ "] { border-left: 2px solid " +:+ colour +:+ "; }".

(** The style sheet of [_add_structure_metadata]. *)
Definition structure_css : string :=
  PyStr.newline
  +:+ css_line "[data-nesting-level] { position: relative; }"
  +:+ css_line (nesting_rule "1" "#e0e0e0")
  +:+ css_line (nesting_rule "2" "#d0d0d0")
  +:+ css_line (nesting_rule "3" "#c0c0c0")
  +:+ css_line "[data-conditional] { background-color: rgba(255, 243, 205, 0.1); }"
  +:+ css_line "[data-nested-conditional] { background-color: rgba(255, 243, 205, 0.2); }"
  +:+ css_line "[data-complex-content] { background-color: rgba(230, 247, 255, 0.1); }"
  +:+ "        ".

(** [tag.append(child)] *)
Definition append_node (child : Dom.node) (n : Dom.node) : Dom.node :=
  match n with
  | Dom.Tag name attrs contents => Dom.Tag name attrs (contents ++ [child])%list
  | Dom.Text _ => n
  end.

(** [_add_structure_metadata] *)
Definition _add_structure_metadata : M Work unit :=
  body <- gets (fun w => head (Dom.find_all ["body"] [] (soup w))) ;;
  (match body with
   | Some body =>
       stats <- gets (fun w => statistics (self w)) ;;
       set_attr_at body "data-structure-parsed" "true" ;;
       set_attr_at body "data-max-depth" (str_int (max_depth_reached stats)) ;;
       set_attr_at body "data-table-count" (str_int (tables_parsed stats)) ;;
       set_attr_at body "data-conditional-count"
         (str_int (conditionals_parsed stats))
   | None => ret tt
   end) ;;
  let style_tag := Dom.Tag "style" [] [Dom.Text structure_css] in
  head_tag <- gets (fun w => head (Dom.find_all ["head"] [] (soup w))) ;;
  match head_tag with
  | Some head_tag => modify (set_soup (Dom.update_at (append_node style_tag) head_tag))
  | None => ret tt
  end.

(** *** Parsing *)

Section WithBs4.

Context (bs4 : Bs4).

(** [_parse_html_structure] *)
Definition _parse_html_structure (html : string) (parent : StructureNode)
  : M Parser (StructureNode * string) :=
  tree <- lift (bs4_parse bs4 html) ;;
  fun p =>
    let run :=
      (parent <- _process_nested_tables [] parent 0 ;;
       parent <- _process_conditional_blocks parent ;;
       parent <- _process_mixed_content parent ;;
       _add_structure_metadata ;;
       enhanced_html <- gets (fun w => bs4_str bs4 (soup w)) ;;
       ret (parent, enhanced_html)) in
    let '(o, w) := run (MkWork p tree) in
    (o, self w).

(** [_parse_text_structure] *)
Definition is_conditional_line (line : string) : bool :=
  existsb (fun np => is_match (Re.search (snd np) line)) CONDITIONAL_PATTERNS.

Definition _parse_text_structure (text : string) (parent : StructureNode)
  : M Parser string :=
  let lines := PyStr.split_on (PyStr.chr 10) text in
  enhanced_lines <-
    foldM
      (fun enhanced_lines line =>
         if is_conditional_line line then
           modify (fun p => MkParser (incr_conditionals_parsed (statistics p)) (logged p)) ;;
           ret (enhanced_lines
                ++ ["<!-- CONDITIONAL: " +:+ PyStr.strip line +:+ " -->" +:+ PyStr.newline
                    +:+ line])%list
         else ret (enhanced_lines ++ [line])%list)
      [] lines ;;
  ret (PyStr.join PyStr.newline enhanced_lines).

(** [parse_document_structure] *)
Definition parse_document_structure (content : string) : M Parser (StructureNode * string) :=
  let root := MkNode SECTION 0 (ContentStr "document_root") [] [] [] None in
  if negb (PyStr.truthy content) then ret (root, EmptyString)
  else
    parsed <-
      (if PyStr.contains "<" content && PyStr.contains ">" content
       then _parse_html_structure content root
       else
         enhanced_html <- _parse_text_structure content root ;;
         ret (root, enhanced_html)) ;;
    let '(root, enhanced_html) := parsed in
    modify (fun p => MkParser (set_max_depth_reached (_calculate_max_depth root) (statistics p))
                       (logged p)) ;;
    ret (root, enhanced_html).

End WithBs4.

(** [get_statistics] *)
Definition get_statistics (p : Parser) : Statistics := statistics p.

End Parser.

(** ** A small world to run the resolver in

    An in-memory file system under the base directory [/base].  Converting
    a [.docx] file gives its stored text as the HTML; the stored texts have
    no [body] element and no [data-content-control] attribute, so the
    fragment is the text itself and the attribute scan finds nothing.  The
    digest is the identity, which keeps distinct references apart. *)

Module Sample.

Definition files : list (string * string) :=
  [ ("/base/a.html", "<p>hi</p>");
    ("/base/self.docx", "see @include(self.docx)");
    ("/base/ping.docx", "ping @include(pong.docx)");
    ("/base/pong.docx", "pong @include(ping.docx)");
    ("/base/Common/Content Blocks/DC Footer.docx", "footer") ].

Fixpoint file_text (p : string) (fs : list (string * string)) : option string :=
  match fs with
  | [] => None
  | (q, text) :: rest => if String.eqb p q then Some text else file_text p rest
  end.

Fixpoint rfind_char (c : ascii) (s : string) : option nat :=
  match s with
  | EmptyString => None
  | String d t =>
      match rfind_char c t with
      | Some i => Some (S i)
      | None => if Ascii.eqb d c then Some O else None
      end
  end.

Definition name_of (p : string) : string :=
  match rfind_char "/" p with
  | Some i => PyStr.drop (S i) p
  | None => p
  end.

Definition suffix_of (p : string) : string :=
  let name := name_of p in
  match rfind_char "." name with
  | Some (S i) => if (S (S i) <? String.length name)%nat then PyStr.drop (S i) name else EmptyString
  | _ => EmptyString
  end.

Definition strip_suffix (p : string) : string :=
  PyStr.take (String.length p - String.length (suffix_of p)) p.

Definition is_absolute (p : string) : bool :=
  match PyStr.strip_prefix "/" p with Some _ => true | None => false end.

Definition join (a b : string) : string :=
  if is_absolute b then b else a +:+ "/" +:+ b.

Definition is_under (dir p : string) : bool :=
  match PyStr.strip_prefix (dir +:+ "/") p with Some _ => true | None => false end.

Definition exists_in (fs : list (string * string)) (p : string) : bool :=
  existsb (fun '(q, _) => String.eqb p q || is_under p q) fs.

Definition read (fs : list (string * string)) (p : string) : exn + string :=
  match file_text p fs with
  | Some text => inr text
  | None => inl (Exn "FileNotFoundError")
  end.

Definition env_of (fs : list (string * string)) : Env :=
  {| md5_hexdigest := fun s => s;
     path_cwd := "/base";
     path_new := fun s => s;
     path_join := join;
     path_is_absolute := is_absolute;
     path_exists := fun p => inr (exists_in fs p);
     path_suffix := suffix_of;
     path_stem := fun p => strip_suffix (name_of p);
     path_with_suffix := fun p sfx =>
       match name_of p with
       | EmptyString => inl (Exn "ValueError")
       | _ => inr (strip_suffix p +:+ sfx)
       end;
     path_relative_to := fun p base =>
       match PyStr.strip_prefix (base +:+ "/") p with
       | Some rel => inr rel
       | None => inl (Exn "ValueError")
       end;
     path_rglob_docx := fun dir =>
       map (fun '(q, _) => inr q)
         (List.filter
            (fun '(q, _) => is_under dir q && String.eqb (PyStr.lower (suffix_of q)) ".docx")
            fs);
     convert_docx := fun p =>
       match read fs p with
       | inr text => inr (true, text)
       | inl e => inl e
       end;
     read_text := read fs;
     soup_body_fragment := fun html => inr html;
     soup_content_controls := fun _ => inr [];
     soup_replace_controls := fun html _ _ => inr html |}.

Definition env : Env := env_of files.

(** The same world with a content-block directory that cannot be listed. *)
Definition env_unreadable : Env :=
  {| md5_hexdigest := md5_hexdigest env;
     path_cwd := path_cwd env;
     path_new := path_new env;
     path_join := path_join env;
     path_is_absolute := path_is_absolute env;
     path_exists := fun p =>
       if String.eqb p "/base/Content Blocks" then inr true else path_exists env p;
     path_suffix := path_suffix env;
     path_stem := path_stem env;
     path_with_suffix := path_with_suffix env;
     path_relative_to := path_relative_to env;
     path_rglob_docx := fun dir =>
       if String.eqb dir "/base/Content Blocks" then [inl (Exn "PermissionError")]
       else path_rglob_docx env dir;
     convert_docx := convert_docx env;
     read_text := read_text env;
     soup_body_fragment := soup_body_fragment env;
     soup_content_controls := soup_content_controls env;
     soup_replace_controls := soup_replace_controls env |}.

(** A resolver as [ContentControlResolver('/base')] builds it. *)
Definition fresh : Resolver.Resolver := Resolver.init env (Some "/base") 5.

(** A resolver in the middle of resolving [main]. *)
Definition busy : Resolver.Resolver :=
  Resolver.set_resolution_stack (fun _ => ["main"]) fresh.

(** A document of [n] tables, each in the only cell of the one before. *)
Fixpoint nested_tables (n : nat) : Dom.node :=
  match n with
  | O => Dom.Text "leaf"
  | S k => Dom.Tag "table" [] [Dom.Tag "tr" [] [Dom.Tag "td" [] [nested_tables k]]]
  end.

Definition document (n : nat) : Dom.node := Dom.Tag "[document]" [] [nested_tables n].

(** The root node of [parse_document_structure]. *)
Definition root : Parser.StructureNode :=
  Parser.MkNode Parser.SECTION 0 (Parser.ContentStr "document_root") [] [] [] None.

End Sample.

(** ** The vocabulary of the properties *)

Module Spec.

Import Eff.

(** *** Invariants of resolver methods

    [related I L strict m1 m2] says that, from every resolver that
    satisfies the invariant [I] and has depth limit [L], the two methods
    end the same way in the same resolver, that this resolver satisfies the
    invariant again, and, when [strict] is set, that the run was not cut
    short.  With [m1 = m2] it is an invariant of one method; with two
    budgets of the same method it says that the budget does not matter. *)

Definition holds (I : Resolver.Resolver -> Prop) (L : Z) (st : Resolver.Resolver) : Prop :=
  I st /\ Resolver.max_depth st = L.

Definition finished (strict : bool) {A} (o : outcome A) : Prop :=
  if strict then o <> OutOfFuel else True.

Definition related (I : Resolver.Resolver -> Prop) (L : Z) (strict : bool) {A}
    (m1 m2 : Resolver.M A) : Prop :=
  forall st, holds I L st ->
    m1 st = m2 st /\ holds I L (snd (m1 st)) /\ finished strict (fst (m1 st)).

(** Two budgets give one run: either they are the same budget, or the
    smaller one already covers the levels that the depth limit leaves. *)
Definition covers (L : Z) (strict : bool) (n m : nat) (depth : Z) : Prop :=
  (strict = false /\ n = m) \/ ((n <= m)%nat /\ (Z.to_nat (L - depth) < n)%nat).

Section Cache.

Import Resolver.

(** The cache, read as what was written to it: every entry is a non-empty
    fragment or was there before. *)
Definition cache_extends (st0 st : Resolver) : Prop :=
  forall k v, cache st !! k = Some v -> v <> EmptyString \/ cache st0 !! k = Some v.

End Cache.

(** *** The order of references *)

Section Order.

Import Resolver.

(** The reference [ref] occurs in [content] at [offset]: the pattern of its
    kind matches there and reports its identifier.  For the kind
    [data_attribute], whose elements the HTML parser finds, the model has
    no offsets and every offset is accepted. *)
Definition occurs_at (content : string) (ref : string * string) (offset : nat) : bool :=
  match Dict.get (fst ref) PATTERNS with
  | Some p =>
      (offset <? String.length content)%nat
      && match Re.match_here p (PyStr.drop offset content) with
         | Some m => String.eqb (Re.reported p (PyStr.drop offset content) m) (snd ref)
         | None => false
         end
  | None => true
  end.

(** The references are listed by offsets that follow [R]. *)
Definition ordered_by (R : nat -> nat -> Prop) (content : string)
    (refs : list (string * string)) : Prop :=
  exists offsets,
    Forall2 (fun ref offset => occurs_at content ref offset = true) refs offsets
    /\ StronglySorted R offsets.

(** Source order as the specification states it: the offsets never go
    back. *)
Definition in_source_order : string -> list (string * string) -> Prop := ordered_by le.

(** Source order with one offset for each reference. *)
Definition in_strict_source_order : string -> list (string * string) -> Prop := ordered_by lt.

(** A match that [finditer] yields is a match of the pattern at its start
    offset. *)
Definition genuine (p : Re.pattern) (content : string) (r : Re.re_match) : Prop :=
  (Re.m_start r < String.length content)%nat
  /\ exists m, Re.match_here p (PyStr.drop (Re.m_start r) content) = Some m
               /\ Re.reported p (PyStr.drop (Re.m_start r) content) m = Re.m_text r
               /\ Re.m_end r = (Re.m_start r + snd m)%nat.

(** The references of one kind, as the loop over [PATTERNS] appends
    them. *)
Definition references_of (pattern_name : string) (p : Re.pattern) (content : string)
  : list (string * string) :=
  map (fun m => (pattern_name, m)) (Re.findall p content).

(** The four textual patterns that the loop runs. *)
Definition text_patterns : list (string * Re.pattern) := firstn 4 PATTERNS.

(** The references that the attribute scan adds. *)
Definition attribute_references (env : Env) (content : string) : list (string * string) :=
  if PyStr.contains "<" content then
    match soup_content_controls env content with
    | inr refs => map (fun ref => ("data_attribute", ref)) (List.filter PyStr.truthy refs)
    | inl _ => []
    end
  else [].

End Order.

(** *** Methods that always return

    [agree Q m1 m2]: from every state both methods return, with the same
    value and the same state, and the value satisfies [Q]. *)

Definition agree {S A} (Q : A -> Prop) (m1 m2 : M S A) : Prop :=
  forall s, exists a s', m1 s = (Returned a, s') /\ m2 s = (Returned a, s') /\ Q a.

(** [ensures Q m]: whenever the method returns, the value satisfies
    [Q]. *)
Definition ensures {S A} (Q : A -> Prop) (m : M S A) : Prop :=
  forall s a s', m s = (Returned a, s') -> Q a.

(** *** Structure trees *)

Section Trees.

Import Parser.

(** The node [n] with the nodes [added] appended to its children. *)
Definition add_children (added : list StructureNode) (n : StructureNode) : StructureNode :=
  match n with
  | MkNode t d c ch a f ci => MkNode t d c (ch ++ added)%list a f ci
  end.

(** No node of the tree lies deeper than [MAX_NESTING_DEPTH]. *)
Fixpoint bounded (n : StructureNode) : bool :=
  match n with
  | MkNode _ d _ ch _ _ _ => (d <=? MAX_NESTING_DEPTH) && forallb bounded ch
  end.

(** No node of the tree reads as an unclosed conditional to
    [_find_unclosed_conditionals]. *)
Fixpoint reads_closed (n : StructureNode) : bool :=
  match n with
  | MkNode t _ _ ch _ _ _ =>
      negb (StructureType_eqb t CONDITIONAL && reads_unclosed n) && forallb reads_closed ch
  end.

(** [new] is [old] with more children, all of which satisfy [ok]. *)
Definition extends_by (ok : StructureNode -> bool) (old new : StructureNode) : Prop :=
  exists added, new = add_children added old /\ forallb ok added = true.

(** [new] is [old] with more children, all of them bounded. *)
Definition extends : StructureNode -> StructureNode -> Prop := extends_by bounded.

(** The loop over the strings keeps the parent extended by nodes that
    read closed, and every open conditional on the stack reads closed. *)
Definition conditional_invariant (old : StructureNode)
    (acc : StructureNode * conditional_stack) : Prop :=
  extends_by reads_closed old (fst acc) /\ forallb reads_closed (snd acc) = true.

End Trees.

End Spec.


(** ** Further vocabulary *)

Module Laws.

Import Eff.

(** A method that ends the same way from every state and leaves the state
    as it was. *)
Definition stateless {S A} (m : M S A) : Prop :=
  exists o, forall s, m s = (o, s).


Section Resolver.

Import Resolver.

(** The kinds of reference that [_resolve_single_reference] knows. *)
Definition reference_kinds : list string :=
  ["double_curly"; "content_block"; "include_directive"; "sharedo_content";
   "data_attribute"].


(** The directories that [_find_content_block_file] searches, in order. *)
Definition content_block_dirs (env : Env) (base : string) : list string :=
  [ path_join env (path_join env (path_join env base "templates") "Common") "Content Blocks";
    path_join env (path_join env base "templates") "Content Blocks";
    path_join env base "Content Blocks" ].

(** The file name of [file] holds the name of the block, letter case
    apart. *)
Definition names_block (env : Env) (block_name file : string) : bool :=
  PyStr.contains (PyStr.lower block_name) (PyStr.lower (path_stem env file)).

(** The text that [_embed_content] looks for in the HTML, for each kind of
    reference that it replaces as text. *)
Definition embedded_syntax (ref_path : string) : list (string * string) :=
  [ ("double_curly", "{{" +:+ ref_path +:+ "}}");
    ("content_block", "{{" +:+ ref_path +:+ "}}");
    ("include_directive", "@include(" +:+ ref_path +:+ ")");
    ("sharedo_content", "[content:" +:+ ref_path +:+ "]") ].

(** The two attributes that mark a resolved fragment. *)
Definition source_mark (ref_type ref_path : string) : string :=
  "data-source=" +:+ PyStr.quote +:+ ref_path +:+ PyStr.quote +:+
  " data-type=" +:+ PyStr.quote +:+ ref_type +:+ PyStr.quote.

(** No counter of [b] is below the counter of [a]. *)
Definition counters_le (a b : Statistics) : Prop :=
  cache_hits a <= cache_hits b
  /\ cache_misses a <= cache_misses b
  /\ total_resolutions a <= total_resolutions b
  /\ circular_references a <= circular_references b
  /\ failed_resolutions a <= failed_resolutions b.

(** Every dependency recorded in [g1] is recorded in [g2]. *)
Definition graph_le (g1 g2 : gmap string (gset string)) : Prop :=
  forall doc deps, g1 !! doc = Some deps ->
    exists deps', g2 !! doc = Some deps' /\ deps ⊆ deps'.

End Resolver.

Section Parser.

Import Parser.

(** The depths of the leaves of a structure tree, from left to right. *)
Fixpoint leaf_depths (n : StructureNode) : list Z :=
  match n with
  | MkNode _ d _ ch _ _ _ =>
      match ch with
      | [] => [d]
      | _ => flat_map leaf_depths ch
      end
  end.

(** What [_extract_formatting] reads from the attribute [style]. *)
Definition inline_styles (element : Dom.node) : Dict.t Dom.attr_value :=
  match Dom.get "style" element with
  | Some style_str => if PyStr.truthy style_str then style_properties style_str else []
  | None => []
  end.

(** The tokens of the attribute [class]. *)
Definition class_tokens (element : Dom.node) : list string :=
  match Dom.get "class" element with
  | Some value => PyStr.split_ws value
  | None => []
  end.

(** The root that [parse_document_structure] starts from. *)
Definition document_root : StructureNode :=
  MkNode SECTION 0 (ContentStr "document_root") [] [] [] None.

(** A tree of table nodes, none deeper than [MAX_NESTING_DEPTH]. *)
Fixpoint table_tree (n : StructureNode) : bool :=
  match n with
  | MkNode t d _ ch _ _ ci =>
      StructureType_eqb t TABLE && (d <=? MAX_NESTING_DEPTH)
      && match ci with None => true | Some _ => false end
      && forallb table_tree ch
  end.

Definition is_leaf (n : StructureNode) : bool :=
  match children n with [] => true | _ => false end.

(** The three shapes of a child of the root: a tree of tables, a
    conditional without children at a depth of one or more that carries
    its dictionary, or a mixed node without children at depth one. *)
Definition parser_node (n : StructureNode) : bool :=
  match type n with
  | TABLE => table_tree n
  | CONDITIONAL =>
      is_leaf n && (1 <=? depth n)
      && match conditional_info n with Some _ => true | None => false end
  | MIXED => is_leaf n && (depth n =? 1)
  | SECTION | LIST => false
  end.

(** The warning of [_find_invalid_nesting] about a table, for a depth
    within the limit. *)
Definition table_warning (w : string) : Prop :=
  exists d, 5 < d <= MAX_NESTING_DEPTH
            /\ w = "Table nested " +:+ str_int d +:+ " levels deep may cause rendering issues".

End Parser.

Section Documents.

Import Parser.

(** The strings of a document, in document order. *)
Fixpoint all_texts (n : Dom.node) : list string :=
  match n with
  | Dom.Text s => [s]
  | Dom.Tag _ _ contents => flat_map all_texts contents
  end.

(** The four counters that the passes over a document raise. *)
Definition counters_grow (a b : Parser.Statistics) : Prop :=
  tables_parsed a <= tables_parsed b
  /\ conditionals_parsed a <= conditionals_parsed b
  /\ nested_structures a <= nested_structures b
  /\ complex_structures a <= complex_structures b.

(** The parser [b] has the running totals of [a] or more, and its log
    begins with the log of [a]. *)
Definition parser_grows (a b : Parser) : Prop :=
  counters_grow (Parser.statistics a) (Parser.statistics b)
  /\ exists more, logged b = (logged a ++ more)%list.

End Documents.

(** A property of the state that a method keeps, however it ends. *)
Definition keeps {S A} (P : S -> Prop) (m : M S A) : Prop :=
  forall s, P s -> P (snd (m s)).

End Laws.

(** ** A small world to run the parser in

    A stand-in for BeautifulSoup that knows two documents and rejects
    every other text, with a serialiser that writes a tree back as
    markup. *)

Module Runs.

Definition table_html : string :=
  "<table><tr><td><table><tr><td>leaf</td></tr></table></td></tr></table>".

Definition page_html : string :=
  "<html><head></head><body><p>if x then y</p></body></html>".

Definition page : Dom.node :=
  Dom.Tag "[document]" []
    [Dom.Tag "html" []
       [Dom.Tag "head" [] [];
        Dom.Tag "body" [] [Dom.Tag "p" [] [Dom.Text "if x then y"]]]].

Definition render_attr (kv : string * Dom.attr_value) : string :=
  " " +:+ fst kv +:+ "=" +:+ PyStr.quote +:+ snd kv +:+ PyStr.quote.

Fixpoint render (n : Dom.node) : string :=
  match n with
  | Dom.Text s => s
  | Dom.Tag name attrs contents =>
      "<" +:+ name +:+ String.concat EmptyString (map render_attr attrs) +:+ ">"
      +:+ String.concat EmptyString (map render contents)
      +:+ "</" +:+ name +:+ ">"
  end.

Definition bs4 : Parser.Bs4 :=
  {| Parser.bs4_parse := fun html =>
       if String.eqb html table_html then inr (Sample.document 2)
       else if String.eqb html page_html then inr page
       else inl (Exn "ParserRejectedMarkup");
     Parser.bs4_str := fun n =>
       match n with
       | Dom.Tag _ _ contents => String.concat EmptyString (map render contents)
       | Dom.Text s => s
       end |}.

(** A file system with one content block. *)
Definition block_env : Env :=
  Sample.env_of [("/base/Content Blocks/Office Footer.docx", "footer")].

(** A resolver that has one fragment in its cache. *)
Definition warm : Resolver.Resolver :=
  Resolver.set_cache (insert "old-key" "<p>old</p>") Sample.fresh.

(** A table cell with a style, two classes and a width of its own. *)
Definition cell : Dom.node :=
  Dom.Tag "td" [("style", "width: 10px; color: red"); ("class", "wide  note");
                ("width", "50")] [].

End Runs.
(** * Properties of the resolver *)

Module ResolverFacts.

Import Eff Resolver Spec.

(** ** Reasoning about methods *)

Section Related.

Variable I : Resolver -> Prop.
Variable L : Z.
Variable strict : bool.

Local Abbreviation holds := (holds I L).
Local Abbreviation finished := (finished strict).
Local Abbreviation related := (related I L strict).

Lemma finished_returned {A} (a : A) : finished (Returned a).
Proof. unfold finished. destruct strict; [discriminate | exact Logic.I]. Qed.

Lemma finished_raised {A} (e : exn) : finished (@Raised A e).
Proof. unfold finished. destruct strict; [discriminate | exact Logic.I]. Qed.

Lemma finished_out_of_fuel {A B} :
  finished (@OutOfFuel A) -> finished (@OutOfFuel B).
Proof. unfold finished. destruct strict; [intros H; contradiction H; reflexivity | auto]. Qed.

Lemma related_ret {A} (a : A) : related (ret a) (ret a).
Proof. intros st H. cbn. auto using finished_returned. Qed.

Lemma related_raise {A} (e : exn) : related (@raise _ A e) (raise e).
Proof. intros st H. cbn. auto using finished_raised. Qed.

Lemma related_lift {A} (r : exn + A) : related (lift r) (lift r).
Proof. destruct r; [apply related_raise | apply related_ret]. Qed.

Lemma related_gets {A} (g : Resolver -> A) : related (gets g) (gets g).
Proof. intros st H. cbn. auto using finished_returned. Qed.

Lemma related_modify (f : Resolver -> Resolver) :
  (forall st, I st -> I (f st)) ->
  (forall st, max_depth (f st) = max_depth st) ->
  related (modify f) (modify f).
Proof.
  intros HI Hd st [H1 H2]. cbn. repeat split; auto using finished_returned.
  rewrite Hd. exact H2.
Qed.

Lemma related_bind {A B} (m1 m2 : M A) (f1 f2 : A -> M B) :
  related m1 m2 -> (forall a, related (f1 a) (f2 a)) ->
  related (bind m1 f1) (bind m2 f2).
Proof.
  intros Hm Hf st H. unfold bind.
  destruct (Hm st H) as (Heq & Hst & Hfin). rewrite <- Heq.
  destruct (m1 st) as [[a | e | ] st']; cbn in *.
  - apply Hf. exact Hst.
  - auto using finished_raised.
  - eauto using finished_out_of_fuel.
Qed.

(** A value read from the resolver is known to come from a resolver that
    satisfies the invariant. *)
Lemma related_bind_gets {A B} (g : Resolver -> A) (f1 f2 : A -> M B) :
  (forall st, holds st -> related (f1 (g st)) (f2 (g st))) ->
  related (bind (gets g) f1) (bind (gets g) f2).
Proof. intros Hf st H. unfold bind, gets. exact (Hf st H st H). Qed.

Lemma related_try_except {A} (m1 m2 : M A) (h1 h2 : exn -> M A) :
  related m1 m2 -> (forall e, related (h1 e) (h2 e)) ->
  related (try_except m1 h1) (try_except m2 h2).
Proof.
  intros Hm Hh st H. unfold try_except.
  destruct (Hm st H) as (Heq & Hst & Hfin). rewrite <- Heq.
  destruct (m1 st) as [[a | e | ] st']; cbn in *.
  - auto.
  - apply Hh. exact Hst.
  - auto.
Qed.

Lemma related_try_finally {A} (m1 m2 : M A) (fin1 fin2 : M unit) :
  related m1 m2 -> related fin1 fin2 ->
  related (try_finally m1 fin1) (try_finally m2 fin2).
Proof.
  intros Hm Hfin st H. unfold try_finally.
  destruct (Hm st H) as (Heq & Hst & Hf). rewrite <- Heq.
  destruct (m1 st) as [o st']; cbn in *.
  destruct (Hfin st' Hst) as (Heq' & Hst' & Hf'). rewrite <- Heq'.
  destruct (fin1 st') as [[u | e | ] st'']; cbn in *;
    eauto using finished_raised, finished_out_of_fuel.
Qed.

Lemma related_foldM {A B} (f1 f2 : A -> B -> M A) (l : list B) :
  (forall a x, related (f1 a x) (f2 a x)) ->
  forall a, related (foldM f1 a l) (foldM f2 a l).
Proof.
  intros Hf. induction l as [| x rest IH]; intros a; cbn.
  - apply related_ret.
  - apply related_bind; [apply Hf | exact IH].
Qed.

Lemma related_out_of_fuel {A} : strict = false -> related (@out_of_fuel _ A) out_of_fuel.
Proof. intros Hs st H. cbn. unfold finished. rewrite Hs. auto. Qed.

End Related.

(** One step of a proof that two methods are related: the rule for the
    construct at the head of both. *)
Ltac related_step :=
  lazymatch goal with
  | |- related _ _ _ (ret _) (ret _) => apply related_ret
  | |- related _ _ _ (raise _) (raise _) => apply related_raise
  | |- related _ _ _ (lift _) (lift _) => apply related_lift
  | |- related _ _ _ (gets _) (gets _) => apply related_gets
  | |- related _ _ _ (bind _ _) (bind _ _) => apply related_bind; [ | intros ? ]
  | |- related _ _ _ (try_except _ _) (try_except _ _) =>
      apply related_try_except; [ | intros ? ]
  | |- related _ _ _ (foldM _ _ _) (foldM _ _ _) => apply related_foldM; intros ? ?
  | |- related _ _ _ (if ?b then _ else _) (if ?b then _ else _) => destruct b
  | |- related _ _ _ (match ?x with _ => _ end) (match ?x with _ => _ end) => destruct x
  end.

Ltac related_auto := repeat related_step.

Section Methods.

Context (env : Env).
Variable I : Resolver -> Prop.
Variable L : Z.
Variable strict : bool.

Local Abbreviation rel := (related I L strict).

(** The methods that only read the resolver. *)

Lemma related_resolve_in_locations base ref_path locations :
  rel (resolve_in_locations env base ref_path locations)
      (resolve_in_locations env base ref_path locations).
Proof. induction locations as [| location rest IH]; cbn; related_auto; exact IH. Qed.

Lemma related_resolve_path ref_path :
  rel (_resolve_path env ref_path) (_resolve_path env ref_path).
Proof.
  unfold _resolve_path. related_auto; try apply related_resolve_in_locations.
Qed.

Lemma related_first_matching_docx base block_name files :
  rel (first_matching_docx env base block_name files)
      (first_matching_docx env base block_name files).
Proof. induction files as [| [e | f] rest IH]; cbn; related_auto; exact IH. Qed.

Lemma related_search_content_block_dirs base block_name dirs :
  rel (search_content_block_dirs env base block_name dirs)
      (search_content_block_dirs env base block_name dirs).
Proof.
  induction dirs as [| d rest IH]; cbn; related_auto;
    try apply related_first_matching_docx; exact IH.
Qed.

Lemma related_find_content_block_file block_name :
  rel (_find_content_block_file env block_name) (_find_content_block_file env block_name).
Proof.
  unfold _find_content_block_file. related_auto. apply related_search_content_block_dirs.
Qed.

Lemma related_embed_content html ref_type ref_path content :
  rel (_embed_content env html ref_type ref_path content)
      (_embed_content env html ref_type ref_path content).
Proof. unfold _embed_content. related_auto. Qed.

(** The invariant survives the updates that the loaders and the loop
    make. *)
Hypothesis I_cache_hit : forall st, I st -> I (set_statistics incr_cache_hits st).
Hypothesis I_cache_miss : forall st, I st -> I (set_statistics incr_cache_misses st).
Hypothesis I_failed : forall st, I st -> I (set_statistics incr_failed_resolutions st).
Hypothesis I_cache_write :
  forall st k v, PyStr.truthy v = true -> I st -> I (set_cache (insert k v) st).
Hypothesis I_dependency :
  forall st doc ref, I st -> I (set_dependency_graph (add_dependency doc ref) st).

Section Loaders.

(** Two versions of the entry point the loaders call back, related at
    every depth below the limit. *)
Variables rec1 rec2 : string -> string -> Z -> M result.
Variable depth : Z.
Hypothesis related_rec :
  depth < L -> forall doc html, rel (rec1 doc html depth) (rec2 doc html depth).

Lemma related_load_and_convert_document ref_path :
  rel (_load_and_convert_document env rec1 ref_path depth)
      (_load_and_convert_document env rec2 ref_path depth).
Proof.
  unfold _load_and_convert_document.
  apply related_try_except; [ | intros; apply related_ret ].
  apply related_bind; [apply related_resolve_path | intros [full_path | ]].
  2: apply related_ret.
  apply related_bind; [apply related_lift | intros found ].
  destruct (negb found); [apply related_ret | ].
  destruct (String.eqb _ ".docx").
  - apply related_bind; [apply related_lift | intros [success html] ].
    destruct success; [ | apply related_ret ].
    apply related_bind; [apply related_lift | intros fragment ].
    apply related_bind_gets. intros st [_ Hst]. rewrite Hst.
    destruct (depth <? L) eqn:Hlt.
    + apply related_bind; [ | intros; apply related_ret ].
      apply related_rec. lia.
    + apply related_ret.
  - related_auto.
Qed.

Lemma related_load_content_block block_name :
  rel (_load_content_block env rec1 block_name depth)
      (_load_content_block env rec2 block_name depth).
Proof.
  unfold _load_content_block.
  destruct (assoc _ _).
  - apply related_load_and_convert_document.
  - apply related_bind; [apply related_find_content_block_file | intros search_path ].
    destruct (truthy_opt search_path);
      [apply related_load_and_convert_document | apply related_ret].
Qed.

Lemma related_load_referenced_content ref_id :
  rel (_load_referenced_content env rec1 ref_id depth)
      (_load_referenced_content env rec2 ref_id depth).
Proof.
  unfold _load_referenced_content.
  apply related_bind; [apply related_load_and_convert_document | intros content ].
  destruct (truthy_opt content); [apply related_ret | ].
  apply related_bind; [apply related_load_content_block | intros content' ].
  destruct (truthy_opt content'); apply related_ret.
Qed.

Lemma related_dispatch ref_type ref_path :
  rel (if String.eqb ref_type "double_curly" || String.eqb ref_type "include_directive"
          || String.eqb ref_type "sharedo_content"
       then _load_and_convert_document env rec1 ref_path depth
       else if String.eqb ref_type "content_block"
       then _load_content_block env rec1 ref_path depth
       else if String.eqb ref_type "data_attribute"
       then _load_referenced_content env rec1 ref_path depth
       else ret None)
      (if String.eqb ref_type "double_curly" || String.eqb ref_type "include_directive"
          || String.eqb ref_type "sharedo_content"
       then _load_and_convert_document env rec2 ref_path depth
       else if String.eqb ref_type "content_block"
       then _load_content_block env rec2 ref_path depth
       else if String.eqb ref_type "data_attribute"
       then _load_referenced_content env rec2 ref_path depth
       else ret None).
Proof.
  destruct (_ || _); [apply related_load_and_convert_document | ].
  destruct (String.eqb _ "content_block"); [apply related_load_content_block | ].
  destruct (String.eqb _ "data_attribute"); [apply related_load_referenced_content | ].
  apply related_ret.
Qed.

Lemma truthy_opt_default o : truthy_opt o = true -> PyStr.truthy (default EmptyString o) = true.
Proof. destruct o; cbn; [auto | discriminate]. Qed.

Lemma related_resolve_single_reference ref_type ref_path :
  rel (_resolve_single_reference env rec1 ref_type ref_path depth)
      (_resolve_single_reference env rec2 ref_type ref_path depth).
Proof.
  unfold _resolve_single_reference.
  apply related_bind; [apply related_gets | intros [content | ] ].
  - apply related_bind; [ | intros; apply related_ret ].
    apply related_modify; auto.
  - apply related_bind; [apply related_modify; auto | intros _ ].
    apply related_bind; [apply related_dispatch | intros resolved_content ].
    apply related_bind; [ | intros; apply related_ret ].
    destruct (truthy_opt resolved_content) eqn:Ht; [ | apply related_ret ].
    apply related_modify; [ | auto ].
    intros st. apply I_cache_write. apply truthy_opt_default. exact Ht.
Qed.

End Loaders.

Lemma related_resolve_reference rec1 rec2 doc_path depth acc ref :
  (depth + 1 < L -> forall doc html,
     rel (rec1 doc html (depth + 1)) (rec2 doc html (depth + 1))) ->
  rel (resolve_reference env rec1 doc_path depth acc ref)
      (resolve_reference env rec2 doc_path depth acc ref).
Proof.
  intros Hrec. unfold resolve_reference.
  destruct acc as [[resolved_html resolved] failed]. destruct ref as [ref_type ref_path].
  apply related_bind;
    [apply related_resolve_single_reference; exact Hrec | intros resolved_content ].
  destruct (truthy_opt resolved_content).
  - apply related_bind; [apply related_embed_content | intros html' ].
    apply related_bind; [apply related_modify; auto | intros; apply related_ret ].
  - apply related_bind; [apply related_modify; auto | intros; apply related_ret ].
Qed.

(** The loop and the return statement after it. *)
Lemma related_resolve_references rec1 rec2 doc_path html_content depth :
  (depth + 1 < L -> forall doc html,
     rel (rec1 doc html (depth + 1)) (rec2 doc html (depth + 1))) ->
  rel (match _extract_references env html_content with
       | [] => ret (html_content, [("references_found", PInt 0)])
       | _ =>
           final <- foldM (resolve_reference env rec1 doc_path depth) (html_content, 0, 0)
                      (_extract_references env html_content) ;;
           let '(resolved_html, resolved, failed) := final in
           ret (resolved_html,
                [ ("references_found",
                   PInt (Z.of_nat (length (_extract_references env html_content))));
                  ("resolved", PInt resolved);
                  ("failed", PInt failed);
                  ("from_cache", PInt 0) ])
       end)
      (match _extract_references env html_content with
       | [] => ret (html_content, [("references_found", PInt 0)])
       | _ =>
           final <- foldM (resolve_reference env rec2 doc_path depth) (html_content, 0, 0)
                      (_extract_references env html_content) ;;
           let '(resolved_html, resolved, failed) := final in
           ret (resolved_html,
                [ ("references_found",
                   PInt (Z.of_nat (length (_extract_references env html_content))));
                  ("resolved", PInt resolved);
                  ("failed", PInt failed);
                  ("from_cache", PInt 0) ])
       end).
Proof.
  intros Hrec. destruct (_extract_references env html_content) as [| r rs].
  - apply related_ret.
  - apply related_bind.
    + apply related_foldM. intros a x. apply related_resolve_reference. exact Hrec.
    + intros [[resolved_html resolved] failed]. apply related_ret.
Qed.

End Methods.

(** ** The entry point *)

Section EntryPoint.

Context (env : Env).
Variable I : Resolver -> Prop.
Variable L : Z.
Variable strict : bool.

Local Abbreviation rel := (related I L strict).

Hypothesis I_cache_hit : forall st, I st -> I (set_statistics incr_cache_hits st).
Hypothesis I_cache_miss : forall st, I st -> I (set_statistics incr_cache_misses st).
Hypothesis I_failed : forall st, I st -> I (set_statistics incr_failed_resolutions st).
Hypothesis I_cache_write :
  forall st k v, PyStr.truthy v = true -> I st -> I (set_cache (insert k v) st).
Hypothesis I_dependency :
  forall st doc ref, I st -> I (set_dependency_graph (add_dependency doc ref) st).
Hypothesis I_circular : forall st, I st -> I (set_statistics incr_circular_references st).
Hypothesis I_total : forall st, I st -> I (set_statistics incr_total_resolutions st).
Hypothesis I_stack : forall st f, I st -> I (set_resolution_stack f st).

Lemma related_pop : rel pop_resolution_stack pop_resolution_stack.
Proof.
  intros st [H1 H2]. unfold pop_resolution_stack.
  destruct (resolution_stack st); cbn.
  - repeat split; auto using finished_raised.
  - repeat split; auto using finished_returned.
Qed.

Local Abbreviation covers := (covers L strict).

(** The body of [resolve_document] re-enters only one level deeper, and
    only below the depth limit: two entry points that are related there
    give related bodies. *)
Lemma related_resolve_document_body rec1 rec2 doc_path html_content depth :
  (depth + 1 < L -> forall doc html,
     rel (rec1 doc html (depth + 1)) (rec2 doc html (depth + 1))) ->
  rel (resolve_document_body env rec1 doc_path html_content depth)
      (resolve_document_body env rec2 doc_path html_content depth).
Proof.
  intros Hrec. unfold resolve_document_body.
  apply related_bind_gets. intros st [_ Hst]. rewrite Hst.
  destruct (L <? depth) eqn:Hd; [apply related_ret | ].
  apply related_bind; [apply related_gets | intros stack ].
  destruct (bool_decide _).
  { apply related_bind; [apply related_modify; auto | intros; apply related_ret ]. }
  apply related_bind; [apply related_modify; auto | intros _ ].
  apply related_bind; [apply related_modify; auto | intros _ ].
  apply related_try_finally; [ | apply related_pop ].
  apply related_resolve_references; auto.
Qed.

Lemma related_resolve_document_fuel n :
  forall m doc_path html_content depth,
    covers n m depth ->
    rel (resolve_document_fuel env n doc_path html_content depth)
        (resolve_document_fuel env m doc_path html_content depth).
Proof.
  induction n as [| n IH]; intros m doc_path html_content depth Hc.
  - destruct Hc as [[Hs <-] | [_ Hlt]]; [ | lia ].
    cbn. apply related_out_of_fuel. exact Hs.
  - destruct m as [| m]; [destruct Hc as [[_ Hc] | [Hc _]]; [discriminate | lia] | ].
    cbn [resolve_document_fuel]. apply related_resolve_document_body.
    intros Hlt doc html. apply IH.
    destruct Hc as [[Hs Hc] | [Hle Hc]]; [left | right]; split; auto; lia.
Qed.

End EntryPoint.

(** ** Invariants of the resolver *)

Lemma truthy_non_empty v : PyStr.truthy v = true -> v <> EmptyString.
Proof. destruct v; [discriminate | intros _; discriminate]. Qed.

Section Facts.

Context (env : Env).

(** Every run of [resolve_document] leaves [max_depth] and [base_path] as
    they were, and with a budget above [max_depth - depth] it is not cut
    short. *)
Lemma resolve_document_fuel_total fuel doc_path html_content depth st :
  (Z.to_nat (max_depth st - depth) < fuel)%nat ->
  fst (resolve_document_fuel env fuel doc_path html_content depth st) <> OutOfFuel.
Proof.
  intros Hfuel.
  assert (H : related (fun _ => True) (max_depth st) true
                (resolve_document_fuel env fuel doc_path html_content depth)
                (resolve_document_fuel env fuel doc_path html_content depth)).
  { apply related_resolve_document_fuel; auto. right. split; [lia | exact Hfuel]. }
  destruct (H st) as (_ & _ & Hfin); [split; auto | exact Hfin].
Qed.

(** A larger budget changes nothing. *)
Lemma resolve_document_fuel_stable n m doc_path html_content depth st :
  (Z.to_nat (max_depth st - depth) < n)%nat -> (n <= m)%nat ->
  resolve_document_fuel env n doc_path html_content depth st
  = resolve_document_fuel env m doc_path html_content depth st.
Proof.
  intros Hn Hle.
  assert (H : related (fun _ => True) (max_depth st) true
                (resolve_document_fuel env n doc_path html_content depth)
                (resolve_document_fuel env m doc_path html_content depth)).
  { apply related_resolve_document_fuel; auto. right. split; [exact Hle | exact Hn]. }
  destruct (H st) as (Heq & _); [split; auto | exact Heq].
Qed.

(** The model satisfies the recursion of the source: [resolve_document] is
    its body over [resolve_document] itself. *)
Lemma resolve_document_unfold doc_path html_content depth st :
  resolve_document env doc_path html_content depth st
  = resolve_document_body env (resolve_document env) doc_path html_content depth st.
Proof.
  unfold resolve_document at 1. unfold depth_budget. cbn [resolve_document_fuel].
  set (k := Z.to_nat (max_depth st - depth)).
  assert (H : related (fun _ => True) (max_depth st) false
                (resolve_document_body env (resolve_document_fuel env k)
                   doc_path html_content depth)
                (resolve_document_body env (resolve_document env)
                   doc_path html_content depth)).
  { apply related_resolve_document_body; auto.
    intros Hlt doc html st' Hst'.
    assert (Hk : depth_budget st' (depth + 1) = k).
    { unfold depth_budget. destruct Hst' as [_ ->]. subst k. lia. }
    unfold resolve_document. rewrite Hk.
    destruct (related_resolve_document_fuel env (fun _ => True) (max_depth st) false)
      with (n := k) (m := k) (doc_path := doc) (html_content := html)
           (depth := depth + 1) (st := st') as (_ & H2 & H3); auto.
    left. auto. }
  destruct (H st) as (Heq & _); [split; auto | exact Heq].
Qed.

(** A general invariant: whatever the budget, a run keeps every property
    of the resolver that the single updates keep. *)
Lemma resolve_document_fuel_keeps (I : Resolver -> Prop) fuel doc_path html_content depth st :
  (forall st, I st -> I (set_statistics incr_cache_hits st)) ->
  (forall st, I st -> I (set_statistics incr_cache_misses st)) ->
  (forall st, I st -> I (set_statistics incr_failed_resolutions st)) ->
  (forall st k v, PyStr.truthy v = true -> I st -> I (set_cache (insert k v) st)) ->
  (forall st doc ref, I st -> I (set_dependency_graph (add_dependency doc ref) st)) ->
  (forall st, I st -> I (set_statistics incr_circular_references st)) ->
  (forall st, I st -> I (set_statistics incr_total_resolutions st)) ->
  (forall st f, I st -> I (set_resolution_stack f st)) ->
  I st ->
  I (snd (resolve_document_fuel env fuel doc_path html_content depth st)).
Proof.
  intros H1 H2 H3 H4 H5 H6 H7 H8 HI.
  assert (H : related I (max_depth st) false
                (resolve_document_fuel env fuel doc_path html_content depth)
                (resolve_document_fuel env fuel doc_path html_content depth)).
  { apply related_resolve_document_fuel; auto. left. auto. }
  destruct (H st) as (_ & [HI' _] & _); [split; auto | exact HI'].
Qed.

(** The resolution stack is the same after a run as before it, however the
    run ends. *)
Lemma resolve_document_fuel_stack fuel :
  forall doc_path html_content depth st,
    resolution_stack (snd (resolve_document_fuel env fuel doc_path html_content depth st))
    = resolution_stack st.
Proof.
  induction fuel as [| fuel IH]; intros doc_path html_content depth st; [reflexivity | ].
  cbn [resolve_document_fuel]. unfold resolve_document_body, bind, gets. cbn.
  destruct (max_depth st <? depth); [reflexivity | ].
  destruct (bool_decide _); [reflexivity | ].
  set (st1 := set_statistics incr_total_resolutions
                (set_resolution_stack (fun s => (s ++ [doc_path])%list) st)).
  set (body := match _extract_references env html_content with [] => _ | _ => _ end).
  assert (Hbody : related (fun s => resolution_stack s = resolution_stack st1)
                     (max_depth st1) false body body).
  { apply related_resolve_references; try (intros; cbn; assumption).
    intros _ doc html s [Hs Hd]. repeat split.
    - cbv beta. rewrite IH. exact Hs.
    - assert (K := resolve_document_fuel_keeps (fun s' => max_depth s' = max_depth st1)
                     fuel doc html (depth + 1) s).
      apply K; auto. }
  unfold try_finally.
  destruct (Hbody st1) as (_ & [Hs _] & _); [split; reflexivity | ].
  destruct (body st1) as [o st2]. cbn in Hs.
  unfold pop_resolution_stack. rewrite Hs. subst st1.
  cbn [resolution_stack set_statistics set_resolution_stack] in *.
  destruct (resolution_stack st ++ [doc_path])%list eqn:Happ.
  - destruct (resolution_stack st); discriminate.
  - cbn [snd resolution_stack set_resolution_stack].
    rewrite Hs, <- Happ. apply removelast_last.
Qed.

End Facts.

End ResolverFacts.

(** * The claims about the resolver *)

Section ResolverClaims.

Import Eff Resolver Spec ResolverFacts.

Context (env : Env).

(** C1. For every document reference graph (every environment), every
    resolver and every call, [resolve_document] terminates: the body
    re-enters only one level deeper and only below [max_depth]
    ([related_resolve_document_body]), so the budget of
    [max_depth - depth + 1] nested levels is never used up, and any larger
    budget gives the same result. *)
Theorem resolve_document_terminates doc_path html_content depth st :
  fst (resolve_document env doc_path html_content depth st) <> OutOfFuel
  /\ forall fuel, (depth_budget st depth <= fuel)%nat ->
       resolve_document_fuel env fuel doc_path html_content depth st
       = resolve_document env doc_path html_content depth st.
Proof.
  unfold resolve_document, depth_budget. split.
  - apply resolve_document_fuel_total. lia.
  - intros fuel Hfuel. symmetry. apply resolve_document_fuel_stable; lia.
Qed.

(** The entry guards, for any budget of at least one level. *)
Lemma entry_guards_fuel fuel doc_path html_content depth st :
  (max_depth st < depth ->
   resolve_document_fuel env (S fuel) doc_path html_content depth st
   = (Returned (html_content, [("error", PStr "max_depth_exceeded")]), st))
  /\ (depth <= max_depth st -> doc_path ∈ resolution_stack st ->
      resolve_document_fuel env (S fuel) doc_path html_content depth st
      = (Returned (html_content, [("error", PStr "circular_reference")]),
         set_statistics incr_circular_references st)).
Proof.
  cbn [resolve_document_fuel]. unfold resolve_document_body, bind, gets. cbn. split.
  - intros H. apply Z.ltb_lt in H. rewrite H. reflexivity.
  - intros H Hin. apply Z.ltb_ge in H. rewrite H.
    rewrite bool_decide_eq_true_2 by exact Hin. reflexivity.
Qed.

(** C4. A call with [depth > max_depth] returns the input HTML with the
    flag [max_depth_exceeded] and leaves the resolver as it was; a call
    that passes this first guard with a document already on the resolution
    stack returns the input HTML with the flag [circular_reference] and
    leaves a resolver that differs only in [circular_references], which
    is one higher. *)
Theorem resolve_document_entry_guards doc_path html_content depth st :
  (max_depth st < depth ->
   resolve_document env doc_path html_content depth st
   = (Returned (html_content, [("error", PStr "max_depth_exceeded")]), st))
  /\ (depth <= max_depth st -> doc_path ∈ resolution_stack st ->
      resolve_document env doc_path html_content depth st
      = (Returned (html_content, [("error", PStr "circular_reference")]),
         MkResolver (base_path st) (max_depth st) (cache st) (dependency_graph st)
           (resolution_stack st)
           (MkStatistics (cache_hits (statistics st)) (cache_misses (statistics st))
              (total_resolutions (statistics st))
              (circular_references (statistics st) + 1)
              (failed_resolutions (statistics st))))).
Proof. unfold resolve_document, depth_budget. apply entry_guards_fuel. Qed.

(** C6. The resolution stack after a call of [resolve_document] is the
    stack before it, whether the call stopped at a guard, returned early
    for want of references, returned after the loop, or raised: what was
    pushed on entry has been popped. *)
Theorem resolution_stack_restored doc_path html_content depth st :
  resolution_stack (snd (resolve_document env doc_path html_content depth st))
  = resolution_stack st.
Proof. unfold resolve_document. apply resolve_document_fuel_stack. Qed.

(** C7. [clear_cache] empties the cache and sets [cache_hits] and
    [cache_misses] to zero; the dependency graph, the other three counters,
    the resolution stack and the configuration are as before. *)
Theorem clear_cache_resets_only_cache st :
  clear_cache st
  = (Returned tt,
     MkResolver (base_path st) (max_depth st) ∅ (dependency_graph st)
       (resolution_stack st)
       (MkStatistics 0 0 (total_resolutions (statistics st))
          (circular_references (statistics st))
          (failed_resolutions (statistics st)))).
Proof. reflexivity. Qed.

(** C10. Whenever a call of [resolve_document] passes the entry guards,
    finds at least one reference and returns, the returned statistics hold
    [from_cache = 0], whatever was served from the cache. *)
Theorem from_cache_is_always_zero doc_path html_content depth st html' stats st' :
  depth <= max_depth st ->
  doc_path ∉ resolution_stack st ->
  _extract_references env html_content <> [] ->
  resolve_document env doc_path html_content depth st = (Returned (html', stats), st') ->
  dict_get "from_cache" stats = Some (PInt 0).
Proof.
  intros Hd Hstack Hrefs. unfold resolve_document, depth_budget.
  cbn [resolve_document_fuel]. unfold resolve_document_body, bind, gets. cbn.
  apply Z.ltb_ge in Hd. rewrite Hd.
  rewrite bool_decide_eq_false_2 by exact Hstack.
  unfold try_finally.
  destruct (_extract_references env html_content) as [| r rs]; [contradiction | ].
  match goal with |- context [foldM ?f ?a ?l ?s] => destruct (foldM f a l s) as [[final | e | ] st1] end.
  - destruct final as [[resolved_html resolved] failed]. cbn.
    destruct (pop_resolution_stack st1) as [[u | e | ] st2]; intros H; inversion H.
    reflexivity.
  - destruct (pop_resolution_stack st1) as [[u | e' | ] st2]; intros H; inversion H.
  - destruct (pop_resolution_stack st1) as [[u | e' | ] st2]; intros H; inversion H.
Qed.

(** C5. When a reference that is not in the cache resolves to a non-empty
    fragment, the resolution has raised [cache_misses]; resolving the same
    reference again, at any depth, returns the same fragment and changes
    nothing but [cache_hits], which is one higher; and every cache entry
    that the first resolution wrote is a non-empty fragment. *)
Theorem second_resolution_hits_cache fuel ref_type ref_path depth st content st' :
  cache st !! _generate_cache_key env ref_type ref_path = None ->
  _resolve_single_reference env (resolve_document_fuel env fuel) ref_type ref_path depth st
  = (Returned (Some content), st') ->
  PyStr.truthy content = true ->
  cache_misses (statistics st) < cache_misses (statistics st')
  /\ (forall fuel' depth',
        _resolve_single_reference env (resolve_document_fuel env fuel') ref_type ref_path
          depth' st'
        = (Returned (Some content),
           MkResolver (base_path st') (max_depth st') (cache st') (dependency_graph st')
             (resolution_stack st')
             (MkStatistics (cache_hits (statistics st') + 1) (cache_misses (statistics st'))
                (total_resolutions (statistics st')) (circular_references (statistics st'))
                (failed_resolutions (statistics st')))))
  /\ cache_extends st st'.
Proof.
  intros Hnone Hrun Htruthy.
  unfold _resolve_single_reference in Hrun. unfold bind at 1, gets in Hrun.
  rewrite Hnone in Hrun. unfold bind at 1, modify in Hrun.
  set (st1 := set_statistics incr_cache_misses st) in *.
  set (I := fun s => cache_extends st1 s
                     /\ cache_misses (statistics st1) <= cache_misses (statistics s)).
  assert (Hrel : forall d doc html,
             related I (max_depth st1) false
               (resolve_document_fuel env fuel doc html d)
               (resolve_document_fuel env fuel doc html d)).
  { intros d doc html. apply related_resolve_document_fuel;
      try (intros s; intros; unfold I in *; cbn; tauto);
      try (left; auto).
    - intros s [H1 H2]. unfold I; cbn. split; [exact H1 | ]. subst st1. cbn in H2. lia.
    - intros s k v Hv [H1 H2]. unfold I; cbn. split; [ | exact H2].
      intros k' v'. cbn [cache set_cache]. destruct (decide (k = k')) as [<- | Hne].
      + rewrite lookup_insert_eq. intros [= <-]. left. apply truthy_non_empty, Hv.
      + rewrite lookup_insert_ne by exact Hne. apply H1. }
  assert (Hdisp := related_dispatch env I (max_depth st1) false
                     (resolve_document_fuel env fuel) (resolve_document_fuel env fuel)
                     depth (fun _ => Hrel depth) ref_type ref_path).
  destruct (Hdisp st1) as (_ & [[Hext Hmiss] _] & _).
  { split; [ | reflexivity]. split; [intros k v Hk; right; exact Hk | lia]. }
  unfold bind in Hrun.
  match type of Hrun with
  | context [(if ?c then ?a else ?b) st1] => destruct ((if c then a else b) st1) as [[res | e | ] st2]
  end; try discriminate.
  cbn [snd] in Hext, Hmiss.
  destruct (truthy_opt res) eqn:Hres; unfold ret in Hrun.
  - injection Hrun as -> <-. change (default EmptyString (Some content)) with content.
    repeat split.
    + subst st1. cbn in Hmiss |- *. lia.
    + intros fuel' depth'. unfold _resolve_single_reference, bind, gets. cbn.
      rewrite lookup_insert_eq. reflexivity.
    + intros k v. cbn [cache set_cache].
      destruct (decide (_generate_cache_key env ref_type ref_path = k)) as [<- | Hne].
      * rewrite lookup_insert_eq. intros [= <-]. left. apply truthy_non_empty, Hres.
      * rewrite lookup_insert_ne by exact Hne. intros Hk.
        destruct (Hext k v Hk) as [? | Hk']; [left; assumption | right; exact Hk'].
  - injection Hrun as -> <-. destruct content; discriminate.
Qed.

End ResolverClaims.

(** * The order of extracted references *)

Section ExtractionOrder.

Import Resolver Spec.

Lemma drop_step pos : forall content c t,
  PyStr.drop pos content = String c t ->
  PyStr.drop (S pos) content = t /\ (pos < String.length content)%nat.
Proof.
  induction pos as [| pos IH]; intros content c t H.
  - cbn in H. subst content. cbn. split; [reflexivity | lia].
  - destruct content as [| d content]; [discriminate | ].
    cbn [PyStr.drop] in H. destruct (IH content c t H) as [H1 H2].
    split; [exact H1 | cbn; lia].
Qed.

Lemma drop_empty pos : forall content,
  PyStr.drop pos content = EmptyString -> (String.length content <= pos)%nat.
Proof.
  induction pos as [| pos IH]; intros content H.
  - cbn in H. subst content. cbn. lia.
  - destruct content as [| d content]; [cbn; lia | ].
    cbn [PyStr.drop] in H. apply IH in H. cbn. lia.
Qed.

Section Scan.

Variable p : Re.pattern.
Variable content : string.

Local Abbreviation genuine := (genuine p content).

Lemma finditer_from_sound s : forall pos skip,
  PyStr.drop pos content = s ->
  Forall (fun r => (pos <= Re.m_start r)%nat /\ genuine r) (Re.finditer_from p pos skip s)
  /\ StronglySorted lt (map Re.m_start (Re.finditer_from p pos skip s)).
Proof.
  induction s as [| c t IH]; intros pos skip Hs; cbn [Re.finditer_from].
  - split; constructor.
  - destruct (drop_step pos content c t Hs) as [Ht Hlt].
    assert (Hweaken : forall k,
               Forall (fun r => (S pos <= Re.m_start r)%nat /\ genuine r)
                 (Re.finditer_from p (S pos) k t) ->
               Forall (fun r => (pos <= Re.m_start r)%nat /\ genuine r)
                 (Re.finditer_from p (S pos) k t)).
    { intros k. apply List.Forall_impl. intros r [H1 H2]. split; [lia | exact H2]. }
    destruct skip as [| k].
    + destruct (Re.match_here p (String c t)) as [m | ] eqn:Hm.
      * destruct (IH (S pos) (snd m - 1)%nat Ht) as [HF HS]. split.
        -- constructor; [ | apply Hweaken, HF].
           split; [cbn; lia | ]. split; [exact Hlt | ].
           exists m. cbn [Re.m_start Re.m_text Re.m_end]. rewrite Hs. auto.
        -- cbn [map Re.m_start]. constructor; [exact HS | ].
           apply List.Forall_map. eapply List.Forall_impl; [ | exact HF].
           intros r [H1 _]. cbn. lia.
      * destruct (IH (S pos) O Ht) as [HF HS]. split; [apply Hweaken, HF | exact HS].
    + destruct (IH (S pos) k Ht) as [HF HS]. split; [apply Hweaken, HF | exact HS].
Qed.

(** Nothing is dropped: a match of the pattern at any offset is yielded,
    or starts inside a match that is. *)
Lemma finditer_from_complete s : forall pos skip,
  PyStr.drop pos content = s ->
  forall offset m,
    (pos + skip <= offset)%nat -> (offset < String.length content)%nat ->
    Re.match_here p (PyStr.drop offset content) = Some m ->
    exists r, In r (Re.finditer_from p pos skip s)
              /\ (Re.m_start r <= offset)%nat
              /\ (offset < Re.m_end r \/ offset = Re.m_start r)%nat.
Proof.
  induction s as [| c t IH]; intros pos skip Hs offset m Hle Hlt Hm.
  - apply drop_empty in Hs. lia.
  - destruct (drop_step pos content c t Hs) as [Ht _]. cbn [Re.finditer_from].
    destruct skip as [| k].
    + destruct (Re.match_here p (String c t)) as [m0 | ] eqn:Hm0.
      * destruct (decide (offset < pos + snd m0 \/ offset = pos)%nat) as [Hin | Hout].
        -- exists (Re.MkMatch pos (pos + snd m0) (Re.reported p (String c t) m0)).
           split; [left; reflexivity | ]. cbn. lia.
        -- destruct (IH (S pos) (snd m0 - 1)%nat Ht offset m) as (r & Hr & H1 & H2);
             [lia | exact Hlt | exact Hm | ].
           exists r. split; [right; exact Hr | auto].
      * assert (offset <> pos) by (intros ->; rewrite Hs, Hm0 in Hm; discriminate).
        destruct (IH (S pos) O Ht offset m) as (r & Hr & H1 & H2);
          [lia | exact Hlt | exact Hm | ].
        exists r. auto.
    + destruct (IH (S pos) k Ht offset m) as (r & Hr & H1 & H2);
        [lia | exact Hlt | exact Hm | ].
      exists r. auto.
Qed.

End Scan.

Lemma references_of_ordered pattern_name p content :
  Dict.get pattern_name PATTERNS = Some p ->
  in_strict_source_order content (references_of pattern_name p content).
Proof.
  intros Hp. exists (map Re.m_start (Re.finditer p content)).
  destruct (finditer_from_sound p content content O O eq_refl) as [HF HS].
  split; [ | exact HS]. clear HS.
  unfold references_of, Re.findall, Re.finditer.
  induction HF as [| r rs [_ (Hlt & m & Hm & Hrep & _)] _ IH]; cbn; [constructor | ].
  constructor; [ | exact IH].
  unfold occurs_at. cbn [fst snd]. rewrite Hp, Hm, Hrep, String.eqb_refl.
  apply Nat.ltb_lt in Hlt. rewrite Hlt. reflexivity.
Qed.

Lemma extract_references_unfold env content :
  _extract_references env content
  = if negb (PyStr.truthy content) then []
    else (flat_map (fun np => references_of (fst np) (snd np) content) text_patterns
          ++ attribute_references env content)%list.
Proof.
  unfold _extract_references, attribute_references.
  destruct (negb (PyStr.truthy content)); [reflexivity | ].
  cbn [PATTERNS text_patterns firstn flat_map String.eqb Ascii.eqb Bool.eqb fst snd app].
  unfold references_of. rewrite !app_nil_r.
  destruct (PyStr.contains "<" content); [ | rewrite app_nil_r; reflexivity].
  destruct (soup_content_controls env content); [rewrite app_nil_r | ]; reflexivity.
Qed.

End ExtractionOrder.

(** * The claims about extraction and embedding *)

Section ExtractionClaims.

Import Eff Resolver Spec ResolverFacts.

(** C8, as the specification states it, fails: with an include directive
    before a double-curly reference, the extractor lists the double-curly
    reference first, and no choice of offsets puts the list in source
    order. *)
Lemma extract_references_not_in_source_order :
  ~ in_source_order "@include(a){{content:b}}"
      (_extract_references Sample.env "@include(a){{content:b}}").
Proof.
  change (_extract_references Sample.env "@include(a){{content:b}}")
    with [("double_curly", "b"); ("include_directive", "a")].
  intros (offsets & HF & HS).
  assert (Hlen := Forall2_length _ _ _ HF).
  destruct offsets as [| o1 [| o2 [| o3 rest]]]; try discriminate Hlen.
  apply Forall2_cons_1 in HF as [H1 HF]. apply Forall2_cons_1 in HF as [H2 _].
  apply StronglySorted_inv in HS as [_ Hle]. apply List.Forall_inv in Hle.
  destruct o2 as [| o2].
  - assert (o1 = O) by lia. subst o1. vm_compute in H1. discriminate.
  - do 23 (destruct o2 as [| o2]; [vm_compute in H2; discriminate | ]).
    vm_compute in H2. discriminate.
Qed.

(** C8, amended.  The extractor returns the references grouped by kind, in
    the order [double_curly], [content_block], [include_directive],
    [sharedo_content], [data_attribute].  Within each textual kind the
    references are in source order, one for each match that the scan from
    left to right finds, so that a reference that occurs twice is listed
    twice; and every place where the pattern matches is such a match or
    lies inside one. *)
Theorem extract_references_grouped_by_kind env content :
  _extract_references env content
  = (if negb (PyStr.truthy content) then []
     else (flat_map (fun np => references_of (fst np) (snd np) content) text_patterns
           ++ attribute_references env content)%list)
  /\ map fst text_patterns
     = ["double_curly"; "content_block"; "include_directive"; "sharedo_content"]
  /\ Forall (fun ref => fst ref = "data_attribute") (attribute_references env content)
  /\ forall name p, In (name, p) text_patterns ->
       Forall (fun ref => fst ref = name) (references_of name p content)
       /\ in_strict_source_order content (references_of name p content)
       /\ forall offset m,
            (offset < String.length content)%nat ->
            Re.match_here p (PyStr.drop offset content) = Some m ->
            exists r, In r (Re.finditer p content)
                      /\ (Re.m_start r <= offset)%nat
                      /\ (offset < Re.m_end r \/ offset = Re.m_start r)%nat.
Proof.
  split; [apply extract_references_unfold | ].
  split; [reflexivity | ].
  split.
  { unfold attribute_references. destruct (PyStr.contains "<" content); [ | constructor].
    destruct (soup_content_controls env content) as [e | refs]; [constructor | ].
    apply List.Forall_map. apply List.Forall_forall. reflexivity. }
  intros name p Hin. repeat split.
  - unfold references_of. apply List.Forall_map. apply List.Forall_forall. reflexivity.
  - apply references_of_ordered.
    cbn in Hin. destruct Hin as [H | [H | [H | [H | []]]]]; inversion H; reflexivity.
  - intros offset m Hlt Hm.
    apply (finditer_from_complete p content content O O eq_refl offset m); auto. lia.
Qed.

(** At work on an input with the two kinds interleaved and one reference
    twice. *)
Lemma extract_references_grouped_by_kind_witness :
  _extract_references Sample.env "@include(a){{content:b}}@include(a)"
  = [("double_curly", "b"); ("include_directive", "a"); ("include_directive", "a")]
  /\ in_strict_source_order "@include(a){{content:b}}@include(a)"
       [("include_directive", "a"); ("include_directive", "a")].
Proof.
  destruct (extract_references_grouped_by_kind Sample.env
              "@include(a){{content:b}}@include(a)") as (H1 & _ & _ & H4).
  split.
  - rewrite H1. reflexivity.
  - pose (p := snd (nth 2 PATTERNS (EmptyString, Re.compile_i (Re.Lit EmptyString)))).
    assert (Hp : In ("include_directive", p) text_patterns)
      by (right; right; left; reflexivity).
    exact (proj1 (proj2 (H4 "include_directive" p Hp))).
Defined.

(** C3 at its failing input.  The reference [{{content:a.html}}] resolves
    (it is counted as resolved and its fragment is in the cache), and the
    returned HTML is the input: [_embed_content] looked for
    [{{a.html}}]. *)
Theorem double_curly_reference_is_not_embedded :
  let run := resolve_document Sample.env "main.docx" "{{content:a.html}}" 0 Sample.fresh in
  fst run
  = Returned ("{{content:a.html}}",
              [("references_found", PInt 1); ("resolved", PInt 1);
               ("failed", PInt 0); ("from_cache", PInt 0)])
  /\ cache (snd run) !! _generate_cache_key Sample.env "double_curly" "a.html"
     = Some "<p>hi</p>".
Proof. vm_compute. split; reflexivity. Qed.

(** For every document, what [_embed_content] replaces for a
    [double_curly] reference is the identifier between braces, without
    the [content:] that the pattern matched before it. *)
Lemma double_curly_replaces_bare_identifier env html ref_path content :
  _embed_content env html "double_curly" ref_path content
  = ret (PyStr.replace ("{{" +:+ ref_path +:+ "}}")
           (wrapped_content "double_curly" ref_path content) html).
Proof. reflexivity. Qed.

(** The sibling branch rebuilds the whole directive and embeds the
    fragment. *)
Lemma include_directive_is_embedded :
  fst (resolve_document Sample.env "main.docx" "@include(a.html)" 0 Sample.fresh)
  = Returned (wrapped_content "include_directive" "a.html" "<p>hi</p>",
              [("references_found", PInt 1); ("resolved", PInt 1);
               ("failed", PInt 0); ("from_cache", PInt 0)]).
Proof. vm_compute. reflexivity. Qed.

(** The replaced text is case-sensitive while the pattern is not: a
    directive written in upper case resolves and stays in the HTML. *)
Lemma upper_case_directive_is_not_embedded :
  fst (resolve_document Sample.env "main.docx" "@INCLUDE(a.html)" 0 Sample.fresh)
  = Returned ("@INCLUDE(a.html)",
              [("references_found", PInt 1); ("resolved", PInt 1);
               ("failed", PInt 0); ("from_cache", PInt 0)]).
Proof. vm_compute. reflexivity. Qed.

End ExtractionClaims.

(** * Witnesses and runs of the resolver *)

Section ResolverRuns.

Import Eff Resolver Spec ResolverFacts.

(** A document that includes itself: the run ends, and a larger budget
    gives the same run. *)
Lemma resolve_document_terminates_witness :
  fst (resolve_document Sample.env "main" "x @include(self.docx) y" 0 Sample.fresh)
  <> OutOfFuel
  /\ resolve_document_fuel Sample.env 9 "main" "x @include(self.docx) y" 0 Sample.fresh
     = resolve_document Sample.env "main" "x @include(self.docx) y" 0 Sample.fresh.
Proof.
  destruct (resolve_document_terminates Sample.env "main" "x @include(self.docx) y" 0
              Sample.fresh) as [H1 H2].
  split; [exact H1 | apply H2; vm_compute; lia].
Defined.

(** The cycle of the self-including document is met once. *)
Lemma self_reference_is_detected :
  circular_references
    (statistics (snd (resolve_document Sample.env "main" "x @include(self.docx) y" 0
                        Sample.fresh))) = 1.
Proof. vm_compute. reflexivity. Qed.

(** Two documents that include each other. *)
Lemma mutual_reference_is_detected :
  let run := resolve_document Sample.env "main" "x @include(ping.docx) y" 0 Sample.fresh in
  circular_references (statistics (snd run)) = 1
  /\ total_resolutions (statistics (snd run)) = 3
  /\ resolution_stack (snd run) = [].
Proof. vm_compute. repeat split; reflexivity. Qed.

Lemma resolve_document_entry_guards_witness :
  resolve_document Sample.env "deep" "<p>x</p>" 6 Sample.fresh
  = (Returned ("<p>x</p>", [("error", PStr "max_depth_exceeded")]), Sample.fresh)
  /\ fst (resolve_document Sample.env "main" "<p>x</p>" 1 Sample.busy)
     = Returned ("<p>x</p>", [("error", PStr "circular_reference")])
  /\ circular_references (statistics (snd (resolve_document Sample.env "main" "<p>x</p>" 1 Sample.busy)))
     = 1.
Proof.
  destruct (resolve_document_entry_guards Sample.env "deep" "<p>x</p>" 6 Sample.fresh)
    as [H1 _].
  destruct (resolve_document_entry_guards Sample.env "main" "<p>x</p>" 1 Sample.busy)
    as [_ H2].
  split; [apply H1; cbn; lia | ].
  rewrite H2; [split; reflexivity | cbn; lia | cbn; left ].
Defined.

(** The three ways out of the body, each with the stack as before. *)
Lemma stack_restored_after_zero_references :
  resolve_document Sample.env "main" "<p>plain</p>" 0 Sample.fresh
  = (Returned ("<p>plain</p>", [("references_found", PInt 0)]),
     set_statistics incr_total_resolutions Sample.fresh).
Proof. vm_compute. reflexivity. Qed.

Lemma stack_restored_after_exception :
  let run := resolve_document Sample.env_unreadable "main" "{{dc-nothing}}" 0 Sample.fresh in
  fst run = Raised (Exn "PermissionError") /\ resolution_stack (snd run) = [].
Proof. vm_compute. split; reflexivity. Qed.

(** A second reference to the same file is served from the cache, and
    [from_cache] is still zero. *)
Lemma from_cache_is_always_zero_witness :
  let run :=
    resolve_document Sample.env "main" "@include(a.html) and @include(a.html)" 0 Sample.fresh in
  cache_hits (statistics (snd run)) = 1
  /\ exists html stats, fst run = Returned (html, stats)
                        /\ dict_get "from_cache" stats = Some (PInt 0).
Proof.
  split; [vm_compute; reflexivity | ].
  eexists. eexists. split; [vm_compute; reflexivity | ].
  eapply (from_cache_is_always_zero Sample.env "main" "@include(a.html) and @include(a.html)"
            0 Sample.fresh).
  - cbn. lia.
  - cbn. apply not_elem_of_nil.
  - vm_compute. discriminate.
  - vm_compute. reflexivity.
Defined.

(** The include of [a.html], resolved twice. *)
Lemma second_resolution_hits_cache_witness :
  let first :=
    _resolve_single_reference Sample.env (resolve_document_fuel Sample.env 5)
      "include_directive" "a.html" 1 Sample.fresh in
  let second :=
    _resolve_single_reference Sample.env (resolve_document_fuel Sample.env 5)
      "include_directive" "a.html" 1 (snd first) in
  fst first = Returned (Some "<p>hi</p>")
  /\ fst second = Returned (Some "<p>hi</p>")
  /\ cache_misses (statistics (snd first)) = 1
  /\ cache_hits (statistics (snd second)) = 1.
Proof.
  cbv zeta.
  destruct (second_resolution_hits_cache Sample.env 5 "include_directive" "a.html" 1
              Sample.fresh "<p>hi</p>"
              (snd (_resolve_single_reference Sample.env (resolve_document_fuel Sample.env 5)
                      "include_directive" "a.html" 1 Sample.fresh)))
    as (H1 & H2 & H3).
  - vm_compute. reflexivity.
  - vm_compute. reflexivity.
  - reflexivity.
  - split; [vm_compute; reflexivity | ].
    rewrite (H2 5%nat 1). split; [reflexivity | ].
    split; vm_compute; reflexivity.
Defined.

End ResolverRuns.

(** * Properties of the structure parser *)

Module ParserFacts.

Import Eff Parser Spec.

(** ** Methods that always return *)

Section Agree.

Context {S : Type}.

Lemma agree_ret {A} (Q : A -> Prop) (a : A) : Q a -> agree (S:=S) Q (ret a) (ret a).
Proof. intros H s. exists a, s. auto. Qed.

Lemma agree_gets {A} (Q : A -> Prop) (g : S -> A) :
  (forall s, Q (g s)) -> agree (S:=S) Q (gets g) (gets g).
Proof. intros H s. exists (g s), s. auto. Qed.

Lemma agree_modify (f : S -> S) : agree (S:=S) (fun _ => True) (modify f) (modify f).
Proof. intros s. exists tt, (f s). auto. Qed.

Lemma agree_bind {A B} (Q1 : A -> Prop) (Q2 : B -> Prop) (m1 m2 : M S A)
    (f1 f2 : A -> M S B) :
  agree (S:=S) Q1 m1 m2 -> (forall a, Q1 a -> agree (S:=S) Q2 (f1 a) (f2 a)) ->
  agree (S:=S) Q2 (bind m1 f1) (bind m2 f2).
Proof.
  intros Hm Hf s. destruct (Hm s) as (a & s1 & E1 & E2 & Ha).
  destruct (Hf a Ha s1) as (b & s2 & F1 & F2 & Hb).
  exists b, s2. unfold bind. rewrite E1, E2. auto.
Qed.

Lemma agree_weaken {A} (Q1 Q2 : A -> Prop) (m1 m2 : M S A) :
  (forall a, Q1 a -> Q2 a) -> agree (S:=S) Q1 m1 m2 -> agree (S:=S) Q2 m1 m2.
Proof.
  intros HQ Hm s. destruct (Hm s) as (a & s1 & E1 & E2 & Ha). exists a, s1. auto.
Qed.

Lemma agree_foldM {A B} (Q : A -> Prop) (f1 f2 : A -> B -> M S A) (l : list B) :
  (forall a x, Q a -> agree (S:=S) Q (f1 a x) (f2 a x)) ->
  forall a, Q a -> agree (S:=S) Q (foldM f1 a l) (foldM f2 a l).
Proof.
  intros Hf. induction l as [| x rest IH]; intros a Ha; cbn.
  - apply agree_ret. exact Ha.
  - eapply agree_bind; [apply Hf; exact Ha | exact IH].
Qed.

End Agree.

(** ** The nested-table walk *)

Section Extension.

Variable ok : StructureNode -> bool.

Lemma extends_refl n : extends_by ok n n.
Proof. exists []. destruct n. cbn. rewrite app_nil_r. auto. Qed.

Lemma extends_trans a b c : extends_by ok a b -> extends_by ok b c -> extends_by ok a c.
Proof.
  intros (x & -> & Hx) (y & -> & Hy). exists (x ++ y)%list. destruct a. cbn.
  rewrite <- app_assoc, forallb_app, Hx, Hy. auto.
Qed.

Lemma extends_append_child old p child :
  extends_by ok old p -> ok child = true -> extends_by ok old (append_child child p).
Proof.
  intros (x & -> & Hx) Hc. exists (x ++ [child])%list. destruct old. cbn.
  rewrite <- app_assoc, forallb_app, Hx. cbn. rewrite Hc. auto.
Qed.

End Extension.

Lemma agree_set_attr_at p k v :
  agree (fun _ => True) (set_attr_at p k v) (set_attr_at p k v).
Proof. apply agree_modify. Qed.

Lemma agree_for_each {A} (l : list A) (body : A -> M Work unit) :
  (forall x, agree (fun _ => True) (body x) (body x)) ->
  agree (fun _ => True) (for_each l body) (for_each l body).
Proof. intros H. apply agree_foldM; auto. Qed.

Ltac agree_any :=
  lazymatch goal with
  | |- agree _ (ret _) (ret _) => apply agree_ret; exact Logic.I
  | |- agree _ (gets _) (gets _) => apply agree_gets; intros; exact Logic.I
  | |- agree _ (modify _) (modify _) => apply agree_modify
  | |- agree _ (set_attr_at _ _ _) (set_attr_at _ _ _) => apply agree_set_attr_at
  | |- agree _ (for_each _ _) (for_each _ _) => apply agree_for_each; intros ?
  | |- agree _ (bind _ _) (bind _ _) =>
      apply (agree_bind (fun _ => True)); [ | intros ? _ ]
  | |- agree _ (if ?b then _ else _) (if ?b then _ else _) => destruct b
  end.

Lemma agree_preserve_cell_content cell depth :
  agree (fun _ => True) (_preserve_cell_content cell depth)
    (_preserve_cell_content cell depth).
Proof. unfold _preserve_cell_content. repeat agree_any. Qed.

Section Walk.

(** A property of nodes that every table node within the depth limit has
    when its children have it. *)
Variable ok : StructureNode -> bool.
Hypothesis ok_table :
  forall d c ch a f,
    d <= MAX_NESTING_DEPTH -> forallb ok ch = true -> ok (MkNode TABLE d c ch a f None) = true.

Lemma extends_table d c a f new :
  d <= MAX_NESTING_DEPTH -> extends_by ok (MkNode TABLE d c [] a f None) new -> ok new = true.
Proof. intros Hd (x & -> & Hx). cbn. apply ok_table; auto. Qed.

Section Table.

Variables rec1 rec2 : Dom.path -> StructureNode -> Z -> M Work StructureNode.
Variable depth : Z.
Hypothesis depth_below : depth < MAX_NESTING_DEPTH.
Hypothesis agree_rec :
  forall cell table_node,
    agree (extends_by ok table_node) (rec1 cell table_node (depth + 1))
      (rec2 cell table_node (depth + 1)).

Lemma agree_process_table old parent table :
  extends_by ok old parent ->
  agree (extends_by ok old) (process_table rec1 depth parent table)
    (process_table rec2 depth parent table).
Proof.
  intros Hparent. unfold process_table.
  agree_any; [agree_any | ].
  apply (agree_bind (fun _ => True)); [unfold element_at; agree_any | intros element _ ].
  apply (agree_bind (fun _ => True)); [agree_any | intros nested_tables _ ].
  set (node0 := set_formatting _ _).
  apply (agree_bind (extends_by ok node0)).
  - destruct (non_empty nested_tables); [ | apply agree_ret, extends_refl].
    apply (agree_bind (fun _ => True)); [agree_any | intros _ _ ].
    apply (agree_bind (fun _ => True)); [agree_any | intros cells _ ].
    apply agree_foldM; [ | apply extends_refl].
    intros node cell Hnode.
    apply (agree_bind (fun _ => True)); [agree_any | intros cell_tables _ ].
    destruct (non_empty cell_tables); [ | apply agree_ret; exact Hnode].
    eapply agree_weaken; [ | apply agree_rec].
    intros node'. apply extends_trans. exact Hnode.
  - intros table_node Hnode.
    apply (agree_bind (fun _ => True)); [agree_any | intros _ _ ].
    apply (agree_bind (fun _ => True)); [agree_any | intros _ _ ].
    apply (agree_bind (fun _ => True)); [agree_any | intros cells _ ].
    apply (agree_bind (fun _ => True)).
    + apply agree_for_each. intros cell. apply agree_preserve_cell_content.
    + intros _ _. apply agree_ret. apply extends_append_child; [exact Hparent | ].
      subst node0. cbn [set_formatting] in Hnode.
      eapply extends_table; [ | exact Hnode]. lia.
Qed.

End Table.

(** With a budget above [MAX_NESTING_DEPTH - depth] the walk returns, any
    larger budget gives the same result, and what it adds to the parent
    are trees whose nodes satisfy [ok]. *)
Lemma agree_process_nested_tables n :
  forall m at_path parent depth,
    (n <= m)%nat -> (Z.to_nat (MAX_NESTING_DEPTH - depth) < n)%nat ->
    agree (extends_by ok parent) (_process_nested_tables_fuel n at_path parent depth)
      (_process_nested_tables_fuel m at_path parent depth).
Proof.
  induction n as [| n IH]; intros m at_path parent depth Hle Hlt; [lia | ].
  destruct m as [| m]; [lia | ].
  cbn [_process_nested_tables_fuel]. unfold _process_nested_tables_body.
  destruct (MAX_NESTING_DEPTH <=? depth) eqn:Hd.
  - apply (agree_bind (fun _ => True)); [apply agree_modify | intros _ _ ].
    apply agree_ret, extends_refl.
  - apply Z.leb_gt in Hd.
    apply (agree_bind (fun _ => True)); [agree_any | intros tables _ ].
    apply agree_foldM; [ | apply extends_refl].
    intros p table Hp. apply agree_process_table; [exact Hd | | exact Hp].
    intros cell table_node. apply IH; lia.
Qed.

End Walk.

Lemma bounded_table d c ch a f :
  d <= MAX_NESTING_DEPTH -> forallb bounded ch = true ->
  bounded (MkNode TABLE d c ch a f None) = true.
Proof. intros Hd Hch. cbn. rewrite Hch. apply Z.leb_le in Hd. rewrite Hd. reflexivity. Qed.

Lemma reads_closed_table d c ch a f :
  d <= MAX_NESTING_DEPTH -> forallb reads_closed ch = true ->
  reads_closed (MkNode TABLE d c ch a f None) = true.
Proof. intros _ Hch. cbn. exact Hch. Qed.

(** The model satisfies the recursion of the source:
    [_process_nested_tables] is its body over [_process_nested_tables]
    itself. *)
Lemma process_nested_tables_unfold at_path parent depth w :
  _process_nested_tables at_path parent depth w
  = _process_nested_tables_body _process_nested_tables at_path parent depth w.
Proof.
  unfold _process_nested_tables at 1. unfold nesting_budget.
  cbn [_process_nested_tables_fuel]. unfold _process_nested_tables_body.
  destruct (MAX_NESTING_DEPTH <=? depth) eqn:Hd; [reflexivity | ].
  apply Z.leb_gt in Hd.
  set (k := Z.to_nat (MAX_NESTING_DEPTH - depth)).
  assert (H : agree (extends_by bounded parent)
                (tables <- gets (fun w => Dom.find_children ["table"] at_path (soup w)) ;;
                 foldM (process_table (_process_nested_tables_fuel k) depth) parent tables)
                (tables <- gets (fun w => Dom.find_children ["table"] at_path (soup w)) ;;
                 foldM (process_table _process_nested_tables depth) parent tables)).
  { apply (agree_bind (fun _ => True)); [agree_any | intros tables _ ].
    apply agree_foldM; [ | apply extends_refl].
    intros p table Hp.
    apply (agree_process_table bounded bounded_table); [exact Hd | | exact Hp].
    intros cell table_node. unfold _process_nested_tables.
    replace (nesting_budget (depth + 1)) with k by (unfold nesting_budget; subst k; lia).
    apply (agree_process_nested_tables bounded bounded_table); subst k; lia. }
  destruct (H w) as (a & w' & E1 & E2 & _). congruence.
Qed.

(** ** No parse result reads as unclosed *)

Section Ensures.

Context {S : Type}.

Lemma ensures_any {A} (m : M S A) : ensures (fun _ => True) m.
Proof. intros s a s' _. exact Logic.I. Qed.

Lemma ensures_ret {A} (Q : A -> Prop) (a : A) : Q a -> ensures (S:=S) Q (ret a).
Proof. intros H s a' s' E. inversion E. subst. exact H. Qed.

Lemma ensures_bind {A B} (Q1 : A -> Prop) (Q2 : B -> Prop) (m : M S A) (f : A -> M S B) :
  ensures Q1 m -> (forall a, Q1 a -> ensures Q2 (f a)) -> ensures Q2 (bind m f).
Proof.
  intros Hm Hf s b s' E. unfold bind in E.
  destruct (m s) as [[a | e | ] s1] eqn:Em; try discriminate.
  exact (Hf a (Hm s a s1 Em) s1 b s' E).
Qed.

Lemma ensures_then {A B} (Q : B -> Prop) (m : M S A) (f : A -> M S B) :
  (forall a, ensures Q (f a)) -> ensures Q (bind m f).
Proof. intros Hf. apply (ensures_bind (fun _ => True)); [apply ensures_any | auto]. Qed.

Lemma ensures_foldM {A B} (Q : A -> Prop) (f : A -> B -> M S A) (l : list B) :
  (forall a x, Q a -> ensures Q (f a x)) -> forall a, Q a -> ensures Q (foldM f a l).
Proof.
  intros Hf. induction l as [| x rest IH]; intros a Ha; cbn.
  - apply ensures_ret. exact Ha.
  - eapply ensures_bind; [apply Hf; exact Ha | exact IH].
Qed.

Lemma agree_ensures {A} (Q : A -> Prop) (m : M S A) : agree Q m m -> ensures Q m.
Proof.
  intros H s a s' E. destruct (H s) as (a' & s1 & E1 & _ & Ha). congruence.
Qed.

End Ensures.

Lemma dict_get_set_other {V} (k k' : string) (v : V) (d : Dict.t V) :
  k <> k' -> Dict.get k (Dict.set k' v d) = Dict.get k d.
Proof.
  intros Hne. induction d as [| [k0 v0] rest IH]; cbn.
  - destruct (String.eqb_spec k k'); [contradiction | reflexivity].
  - destruct (String.eqb_spec k' k0) as [-> | Hk0]; cbn.
    + destruct (String.eqb_spec k k0); [contradiction | reflexivity].
    + destruct (String.eqb_spec k k0); [reflexivity | exact IH].
Qed.

Lemma dict_set_non_empty {V} (k : string) (v : V) (d : Dict.t V) : Dict.set k v d <> [].
Proof. destruct d as [| [k0 v0] rest]; cbn; [ | destruct (String.eqb k k0)]; discriminate. Qed.

(** The [else] branch writes the keys [type] and [branches] only. *)
Lemma reads_closed_mark_else n : reads_closed n = true -> reads_closed (mark_else n) = true.
Proof.
  destruct n as [t d c ch a f [info | ]]; [ | auto].
  unfold mark_else. cbn [conditional_info set_conditional_info].
  cbn [reads_closed]. unfold reads_unclosed. cbn [conditional_info].
  set (branches := match Dict.get "branches" info with Some (InfoList l) => _ | _ => _ end).
  set (info' := Dict.set "branches" _ _).
  assert (Hget : Dict.get "closed" info' = Dict.get "closed" info).
  { subst info'. rewrite !dict_get_set_other by discriminate. reflexivity. }
  assert (Hne : info' <> []) by apply dict_set_non_empty.
  destruct info' as [| kv rest]; [contradiction | ]. rewrite Hget.
  destruct info as [| kv0 rest0]; [ | auto].
  cbn. intros ->. destruct (StructureType_eqb t CONDITIONAL); reflexivity.
Qed.

Lemma forallb_update_last {A} (p : A -> bool) (g : A -> A) (l : list A) :
  (forall x, p x = true -> p (g x) = true) ->
  forallb p l = true -> forallb p (update_last g l) = true.
Proof.
  intros Hg. induction l as [| x [| y rest] IH]; cbn in *; auto.
  - rewrite !andb_true_r. apply Hg.
  - intros H. apply andb_prop in H as [Hx Hrest]. rewrite Hx. cbn. apply IH. exact Hrest.
Qed.

Lemma forallb_last {A} (p : A -> bool) (l : list A) x :
  forallb p l = true -> last l = Some x ->
  p x = true /\ forallb p (removelast l) = true.
Proof.
  induction l as [| y [| z rest] IH]; cbn in *; [discriminate | | ].
  - rewrite andb_true_r. intros Hy [= <-]. auto.
  - intros H Hlast. apply andb_prop in H as [Hy Hrest].
    destruct (IH Hrest Hlast) as [Hx Hrem]. rewrite Hy. auto.
Qed.

Lemma ensures_process_text_node old acc text_node :
  conditional_invariant old acc ->
  ensures (conditional_invariant old) (process_text_node acc text_node).
Proof.
  destruct acc as [parent stack]. destruct text_node as [at_path text].
  intros [Hparent Hstack]. cbn [fst snd] in *. unfold process_text_node.
  destruct (if_match text) as [m | ].
  - apply ensures_then. intros _. apply ensures_then. intros _. apply ensures_ret.
    split; [exact Hparent | ]. cbn [fst snd]. rewrite forallb_app, Hstack. reflexivity.
  - destruct (is_match (pattern_search "else" text)).
    + destruct stack as [| s0 stack0] eqn:Es; [apply ensures_ret; split; auto | ].
      apply ensures_then. intros _. apply ensures_ret. split; [exact Hparent | ].
      cbn [fst snd]. apply forallb_update_last; [apply reads_closed_mark_else | exact Hstack].
    + destruct (is_match (pattern_search "endif" text)); [ | apply ensures_ret; split; auto].
      destruct (last stack) as [completed | ] eqn:El; [ | apply ensures_ret; split; auto].
      destruct (forallb_last reads_closed stack completed Hstack El) as [Hc Hrem].
      apply ensures_then. intros _. apply ensures_ret. split; [ | exact Hrem].
      cbn [fst]. apply extends_append_child; assumption.
Qed.

Lemma ensures_process_conditional_blocks old parent :
  extends_by reads_closed old parent ->
  ensures (extends_by reads_closed old) (_process_conditional_blocks parent).
Proof.
  intros Hparent. unfold _process_conditional_blocks.
  apply ensures_then. intros text_nodes.
  eapply ensures_bind.
  - apply (ensures_foldM (conditional_invariant old)).
    + intros acc x Hacc. apply ensures_process_text_node. exact Hacc.
    + split; [exact Hparent | reflexivity].
  - intros [parent' stack] [Hp _]. apply ensures_then. intros _. apply ensures_ret. exact Hp.
Qed.

Lemma ensures_process_mixed_content old parent :
  extends_by reads_closed old parent ->
  ensures (extends_by reads_closed old) (_process_mixed_content parent).
Proof.
  intros Hparent. unfold _process_mixed_content.
  apply ensures_then. intros conditional_divs.
  apply ensures_foldM; [ | exact Hparent].
  intros p cond_div Hp. unfold process_conditional_div.
  apply ensures_then. intros tables.
  destruct (non_empty tables); [ | apply ensures_ret; exact Hp].
  do 4 (apply ensures_then; intros ?). apply ensures_ret.
  apply extends_append_child; [exact Hp | reflexivity].
Qed.

Lemma reads_closed_sound :
  forall n, reads_closed n = true -> _find_unclosed_conditionals n = [].
Proof.
  fix IH 1. intros [t d c ch a f ci] H. cbn [reads_closed] in H.
  apply andb_prop in H as [Hn Hch]. cbn [_find_unclosed_conditionals].
  apply negb_true_iff in Hn. rewrite Hn. cbn [app]. clear Hn.
  induction ch as [| x rest IHrest]; [reflexivity | ].
  cbn in Hch. apply andb_prop in Hch as [Hx Hrest].
  cbn [flat_map]. rewrite (IH x Hx). cbn [app]. apply IHrest. exact Hrest.
Qed.

Section Parse.

Context (bs4 : Bs4).

Lemma ensures_parse_html_structure html parent :
  ensures (fun r => extends_by reads_closed parent (fst r))
    (_parse_html_structure bs4 html parent).
Proof.
  unfold _parse_html_structure. apply ensures_then. intros tree p r p'.
  match goal with
  | |- context [let '(o, w) := ?run ?w0 in _] => destruct (run w0) as [o w] eqn:Erun
  end.
  intros [= -> <-]. revert Erun.
  match goal with
  | |- ?run ?w0 = _ -> _ => apply (fun H => H w0 r w); change (ensures (fun r => extends_by reads_closed parent (fst r)) run)
  end.
  eapply ensures_bind.
  { apply agree_ensures. unfold _process_nested_tables.
    apply (agree_process_nested_tables reads_closed reads_closed_table);
      [apply le_n | unfold nesting_budget; lia]. }
  intros p1 H1. eapply ensures_bind; [apply ensures_process_conditional_blocks, H1 | ].
  intros p2 H2. eapply ensures_bind; [apply ensures_process_mixed_content, H2 | ].
  intros p3 H3. do 2 (apply ensures_then; intros ?). apply ensures_ret. exact H3.
Qed.

(** X22. Whatever the content, a structure tree that
    [parse_document_structure] returns has no node that
    [_find_unclosed_conditionals] reports, and [validate_structure] calls
    it valid. *)
Lemma parse_result_is_always_valid content p root enhanced p' :
  parse_document_structure bs4 content p = (Returned (root, enhanced), p') ->
  _find_unclosed_conditionals root = []
  /\ is_valid (validate_structure root) = true
  /\ errors (validate_structure root) = [].
Proof.
  intros Hrun.
  assert (Hroot : reads_closed root = true).
  { revert Hrun. unfold parse_document_structure.
    set (root0 := MkNode SECTION 0 (ContentStr "document_root") [] [] [] None).
    assert (Hext : forall r, extends_by reads_closed root0 r -> reads_closed r = true).
    { intros r (x & -> & Hx). cbn. exact Hx. }
    destruct (negb (PyStr.truthy content)).
    { intros [= <- _ _]. reflexivity. }
    intros Hrun.
    refine (ensures_bind (fun r => extends_by reads_closed root0 (fst r))
              (fun r => reads_closed (fst r) = true) _ _ _ _ p (root, enhanced) p' Hrun).
    - destruct (_ && _).
      + apply ensures_parse_html_structure.
      + apply ensures_then. intros ?. apply ensures_ret. apply extends_refl.
    - intros [r e] Hr. apply ensures_then. intros _. apply ensures_ret. apply Hext, Hr. }
  assert (Hnone := reads_closed_sound root Hroot).
  unfold validate_structure. rewrite Hnone. auto.
Qed.

End Parse.

End ParserFacts.

(** * The claims about the structure parser *)

Section ParserClaims.

Import Eff Parser Spec ParserFacts.

(** C9. The nested-table walk always returns: the budget of
    [MAX_NESTING_DEPTH - depth + 1] levels of recursion is never used up,
    nothing is raised, and every node it adds to the tree has a depth of at
    most [MAX_NESTING_DEPTH].  Called at a depth of [MAX_NESTING_DEPTH] or
    more it logs the warning and returns the parent as it is, without a
    look at the document. *)
Theorem nested_table_walk_is_bounded at_path parent depth w :
  (exists parent' w',
      _process_nested_tables at_path parent depth w = (Returned parent', w')
      /\ extends parent parent'
      /\ forall fuel, (nesting_budget depth <= fuel)%nat ->
           _process_nested_tables_fuel fuel at_path parent depth w = (Returned parent', w'))
  /\ (MAX_NESTING_DEPTH <= depth ->
      _process_nested_tables at_path parent depth w
      = (Returned parent,
         MkWork (MkParser (statistics (self w))
                   (logged (self w) ++ ["Max table nesting depth 10 reached"])%list)
           (soup w))).
Proof.
  split.
  - destruct (agree_process_nested_tables bounded bounded_table
                (nesting_budget depth) (nesting_budget depth)
                at_path parent depth (le_n _)) with (s := w)
      as (parent' & w' & E1 & _ & Hext); [unfold nesting_budget; lia | ].
    exists parent', w'. repeat split; [exact E1 | exact Hext | ].
    intros fuel Hfuel.
    destruct (agree_process_nested_tables bounded bounded_table
                (nesting_budget depth) fuel
                at_path parent depth Hfuel) with (s := w)
      as (p2 & w2 & F1 & F2 & _); [unfold nesting_budget; lia | ].
    unfold _process_nested_tables in E1. congruence.
  - intros Hd. unfold _process_nested_tables, nesting_budget.
    cbn [_process_nested_tables_fuel]. unfold _process_nested_tables_body.
    apply Z.leb_le in Hd. rewrite Hd. reflexivity.
Qed.

(** A call at the limit, and the walk over eleven tables nested in one
    another: it returns, one warning is logged, and no node is deeper than
    ten. *)
Lemma nested_table_walk_is_bounded_witness :
  _process_nested_tables [0%nat] Sample.root 10 (MkWork init (Sample.document 11))
  = (Returned Sample.root,
     MkWork (MkParser (MkStatistics 0 0 0 0 0) ["Max table nesting depth 10 reached"])
       (Sample.document 11)).
Proof.
  destruct (nested_table_walk_is_bounded [0%nat] Sample.root 10
              (MkWork init (Sample.document 11))) as [_ H].
  apply H. vm_compute. discriminate.
Defined.

Lemma eleven_nested_tables :
  let run := _process_nested_tables [] Sample.root 0 (MkWork init (Sample.document 11)) in
  exists parent', fst run = Returned parent'
                  /\ bounded parent' = true
                  /\ _calculate_max_depth parent' = 10
                  /\ logged (self (snd run)) = ["Max table nesting depth 10 reached"].
Proof. eexists. vm_compute. repeat split; reflexivity. Qed.

(** C2 at its failing input.  For the text [{if X} A], which has no
    [endif], the parser returns the bare root and [validate_structure]
    reports a valid structure without any error. *)
Theorem unclosed_conditional_is_not_reported bs4 :
  exists enhanced p,
    parse_document_structure bs4 "{if X} A" init = (Returned (Sample.root, enhanced), p)
    /\ validate_structure Sample.root
       = MkValidation true [] [] (MkSummary 1 0 0 0 0).
Proof. eexists. eexists. split; vm_compute; reflexivity. Qed.

(** The balanced text of the same claim is valid, as the claim says. *)
Lemma balanced_conditional_is_valid bs4 :
  exists enhanced p,
    parse_document_structure bs4 "{if X} A {endif}" init
    = (Returned (Sample.root, enhanced), p)
    /\ is_valid (validate_structure Sample.root) = true
    /\ errors (validate_structure Sample.root) = [].
Proof. eexists. eexists. repeat split; vm_compute; reflexivity. Qed.

(** What the validator would need to see: a conditional node whose
    dictionary holds [closed = False] is reported. *)
Lemma validator_reports_a_marked_node :
  let node :=
    MkNode CONDITIONAL 1 (ContentStr "X") [] [] []
      (Some [("type", InfoType IF_THEN); ("closed", InfoBool false)]) in
  let results := validate_structure (append_child node Sample.root) in
  is_valid results = false /\ errors results = ["Found 1 unclosed conditional blocks"].
Proof. vm_compute. split; reflexivity. Qed.

End ParserClaims.

(** * Runs of the primitives *)

Section Primitives.

Example lower_mixed : PyStr.lower "DC-LetterHeader " = "dc-letterheader ".
Proof. reflexivity. Qed.

Example strip_spaces : PyStr.strip "  dc-footer  " = "dc-footer".
Proof. reflexivity. Qed.

Example replace_all : PyStr.replace "ab" "X" "abcabab" = "XcXX".
Proof. reflexivity. Qed.

Example findall_double_curly :
  Re.findall (default (Re.compile_i (Re.Lit EmptyString)) (Dict.get "double_curly" Resolver.PATTERNS))
    "a {{content:x.docx}} b {{CONTENT:y}} {{content:}} {{content:z}"
  = ["x.docx"; "y"].
Proof. reflexivity. Qed.

Example search_if_complex :
  Parser.pattern_search "if_complex" "xx if  a b  then c" = Some ([(1%nat, "a b")], 13%nat).
Proof. reflexivity. Qed.

Example search_lazy_stops_early :
  Parser.pattern_search "for_loop" "{% for x in  y z %}"
  = Some ([(2%nat, "y z"); (1%nat, "x")], 19%nat).
Proof. reflexivity. Qed.

End Primitives.

(** * Strings *)

Module PyStrFacts.

Import PyStr.


Lemma append_cons c (a b : string) : String c a +:+ b = String c (a +:+ b).
Proof. reflexivity. Qed.

Lemma strip_prefix_length l : forall s s',
  strip_prefix l s = Some s' ->
  String.length s = (String.length l + String.length s')%nat.
Proof.
  induction l as [| a l IH]; intros s s' H; cbn in H.
  - injection H as ->. reflexivity.
  - destruct s as [| b s]; [discriminate | ].
    destruct (Ascii.eqb a b); [ | discriminate]. cbn. rewrite (IH _ _ H). reflexivity.
Qed.

Lemma append_assoc (a b c : string) : ((a +:+ b) +:+ c) = (a +:+ (b +:+ c)).
Proof.
  induction a as [| x a IH]; [reflexivity | ].
  change (String x ((a +:+ b) +:+ c) = String x (a +:+ (b +:+ c))).
  rewrite IH. reflexivity.
Qed.

Lemma contains_here sub s rest : strip_prefix sub s = Some rest -> contains sub s = true.
Proof. intros H. destruct s; cbn; rewrite H; reflexivity. Qed.

Lemma strip_prefix_append sub rest : strip_prefix sub (sub +:+ rest) = Some rest.
Proof.
  induction sub as [| c sub IH]; [reflexivity | ].
  change (String c sub +:+ rest) with (String c (sub +:+ rest)).
  cbn [strip_prefix]. rewrite Ascii.eqb_refl. exact IH.
Qed.

Lemma contains_append sub before after : contains sub (before +:+ sub +:+ after) = true.
Proof.
  induction before as [| c before IH].
  - change (contains sub (sub +:+ after) = true).
    apply (contains_here _ _ after). apply strip_prefix_append.
  - change (String c before +:+ sub +:+ after) with (String c (before +:+ sub +:+ after)).
    cbn [contains]. destruct (strip_prefix sub _); [reflexivity | exact IH].
Qed.

Lemma replace_from_skip old new k : forall s,
  replace_from old new k s = replace_from old new O (drop k s).
Proof.
  induction k as [| k IH]; intros s; [reflexivity | ].
  destruct s as [| c t]; [reflexivity | ]. cbn [replace_from drop]. apply IH.
Qed.

(** Without an occurrence of [old], [replace] gives the string back. *)
Lemma replace_absent old new s :
  old <> EmptyString -> contains old s = false -> replace old new s = s.
Proof.
  intros Hold. unfold replace. destruct old as [| o old']; [contradiction | ].
  set (old := String o old') in *. clearbody old.
  induction s as [| c t IH]; [reflexivity | ].
  cbn [contains replace_from].
  destruct (strip_prefix old (String c t)); [discriminate | ].
  intros H. rewrite (IH H). reflexivity.
Qed.

(** With the first occurrence of [old] at offset [n], [replace] keeps what
    is before it, puts [new] in its place and goes on behind it. *)
Lemma replace_first old new : forall s n,
  old <> EmptyString -> find old s = Some n ->
  replace old new s
  = take n s +:+ new +:+ replace old new (drop (n + String.length old) s).
Proof.
  intros s n Hold. unfold replace. destruct old as [| o old']; [contradiction | ].
  set (old := String o old') in *.
  assert (Hlen : String.length old = S (String.length old')) by reflexivity.
  clearbody old. revert n.
  induction s as [| c t IH]; intros n H.
  - cbn in H. destruct (strip_prefix old EmptyString) eqn:E; [ | discriminate].
    apply strip_prefix_length in E. cbn in E. lia.
  - cbn [find] in H. cbn [replace_from].
    destruct (strip_prefix old (String c t)) as [rest | ].
    + injection H as <-. cbn [take drop Nat.add].
      change (EmptyString +:+ new +:+ ?x) with (new +:+ x).
      rewrite Hlen. cbn [Nat.sub drop]. rewrite Nat.sub_0_r.
      rewrite replace_from_skip. reflexivity.
    + destruct (find old t) as [m | ]; [ | discriminate]. injection H as <-.
      cbn [take drop Nat.add option_map].
      change (String c (take m t) +:+ ?x) with (String c (take m t +:+ x)).
      rewrite (IH m eq_refl). reflexivity.
Qed.

End PyStrFacts.

(** * How a run of a method ends *)

Module EffFacts.

Import Eff.

Section Inversion.

Context {S : Type}.

Lemma bind_returned {A B} (m : M S A) (f : A -> M S B) s b s' :
  bind m f s = (Returned b, s') ->
  exists a s1, m s = (Returned a, s1) /\ f a s1 = (Returned b, s').
Proof. unfold bind. destruct (m s) as [[a | e | ] s1]; try discriminate. eauto. Qed.

Lemma lift_returned {A} (r : exn + A) (s : S) a s' :
  lift r s = (Returned a, s') -> r = inr a /\ s' = s.
Proof. destruct r; cbn; intros H; inversion H; auto. Qed.

Lemma ret_returned {A} (x : A) (s : S) a s' :
  ret x s = (Returned a, s') -> a = x /\ s' = s.
Proof. cbn. intros H; inversion H; auto. Qed.

End Inversion.

End EffFacts.


(** * Paths and files of the resolver *)

Section ResolverPaths.

Import Eff Resolver Spec EffFacts.

Context (env : Env).

Lemma resolve_in_locations_returned base ref_path locations st r st' :
  resolve_in_locations env base ref_path locations st = (Returned r, st') ->
  st' = st
  /\ match r with
     | Some p => path_exists env p = inr true
     | None =>
         Forall (fun location =>
                   path_exists env (path_join env (path_join env base location) ref_path)
                   = inr false)
           locations
     end.
Proof.
  revert st r st'. induction locations as [| location rest IH]; intros st r st' H.
  - apply ret_returned in H as [-> ->]. auto.
  - cbn [resolve_in_locations] in H.
    apply bind_returned in H as (found & s1 & H1 & H).
    apply lift_returned in H1 as [E1 ->].
    destruct found.
    { apply ret_returned in H as [-> ->]. auto. }
    apply bind_returned in H as (path_with_ext & s2 & H2 & H).
    apply lift_returned in H2 as [E2 ->].
    apply bind_returned in H as (found_ext & s3 & H3 & H).
    apply lift_returned in H3 as [E3 ->].
    destruct found_ext.
    { apply ret_returned in H as [-> ->]. auto. }
    destruct (IH _ _ _ H) as [-> Hr]. split; [reflexivity | ].
    destruct r; [exact Hr | constructor; assumption].
Qed.

(** X1. A path that [_resolve_path] returns exists, and the resolver is
    left as it was; when it returns [None], neither the file under the
    base path nor the file in any of the common locations exists. *)
Theorem resolve_path_returns_existing_path ref_path st r st' :
  _resolve_path env ref_path st = (Returned r, st') ->
  st' = st
  /\ match r with
     | Some p => path_exists env p = inr true
     | None =>
         let name := PyStr.strip_chars (PyStr.apostrophe +:+ PyStr.quote) ref_path in
         path_exists env (path_join env (base_path st) name) = inr false
         /\ Forall (fun location =>
                      path_exists env
                        (path_join env (path_join env (base_path st) location) name)
                      = inr false)
              common_locations
     end.
Proof.
  unfold _resolve_path. intros H.
  apply bind_returned in H as (absolute_found & s1 & H1 & H).
  assert (Habs : s1 = st /\ (absolute_found = true ->
                   path_exists env (path_new env
                     (PyStr.strip_chars (PyStr.apostrophe +:+ PyStr.quote) ref_path))
                   = inr true)).
  { destruct (path_is_absolute env _).
    - apply lift_returned in H1 as [E ->]. split; [reflexivity | intros ->; exact E].
    - apply ret_returned in H1 as [-> ->]. split; [reflexivity | discriminate]. }
  destruct Habs as [-> Habs].
  destruct absolute_found.
  { apply ret_returned in H as [-> ->]. auto. }
  apply bind_returned in H as (base & s2 & H2 & H). cbn in H2. injection H2 as <- <-.
  apply bind_returned in H as (found & s3 & H3 & H).
  apply lift_returned in H3 as [E3 ->].
  destruct found.
  { apply ret_returned in H as [-> ->]. auto. }
  destruct (resolve_in_locations_returned _ _ _ _ _ _ H) as [-> Hr].
  split; [reflexivity | ]. destruct r; [exact Hr | split; assumption].
Qed.

End ResolverPaths.

Section ResolverSearch.

Import Eff Resolver Spec Laws EffFacts.

Context (env : Env).

Lemma first_matching_docx_returned base block_name files st r st' :
  first_matching_docx env base block_name files st = (Returned r, st') ->
  st' = st
  /\ match r with
     | Some rel =>
         exists file, In (inr file) files
                      /\ names_block env block_name file = true
                      /\ path_relative_to env file base = inr rel
     | None => forall file, In (inr file) files -> names_block env block_name file = false
     end.
Proof.
  revert st r st'. induction files as [| [e | file] rest IH]; intros st r st' H.
  - apply ret_returned in H as [-> ->]. split; [reflexivity | intros file []].
  - discriminate H.
  - cbn [first_matching_docx] in H. fold (names_block env block_name file) in H.
    destruct (names_block env block_name file) eqn:Hname.
    + apply bind_returned in H as (rel & s1 & H1 & H).
      apply lift_returned in H1 as [E ->]. apply ret_returned in H as [-> ->].
      split; [reflexivity | ]. exists file. repeat split; [left; reflexivity | | ]; assumption.
    + destruct (IH _ _ _ H) as [-> Hr]. split; [reflexivity | ].
      destruct r as [rel | ].
      * destruct Hr as (f & Hin & Hf). exists f. split; [right; exact Hin | exact Hf].
      * intros f [[= <-] | Hin]; [exact Hname | apply Hr, Hin].
Qed.

Lemma search_content_block_dirs_returned base block_name dirs st r st' :
  search_content_block_dirs env base block_name dirs st = (Returned r, st') ->
  st' = st
  /\ match r with
     | Some rel =>
         exists dir file,
           In dir dirs /\ path_exists env dir = inr true
           /\ In (inr file) (path_rglob_docx env dir)
           /\ names_block env block_name file = true
           /\ path_relative_to env file base = inr rel
     | None =>
         forall dir file,
           In dir dirs -> path_exists env dir = inr true ->
           In (inr file) (path_rglob_docx env dir) ->
           names_block env block_name file = false
     end.
Proof.
  revert st r st'. induction dirs as [| dir rest IH]; intros st r st' H.
  - apply ret_returned in H as [-> ->]. split; [reflexivity | intros dir file []].
  - cbn [search_content_block_dirs] in H.
    apply bind_returned in H as (found & s1 & H1 & H).
    apply lift_returned in H1 as [E ->].
    apply bind_returned in H as (hit & s2 & H2 & H).
    assert (Hhit : s2 = st
                   /\ match hit with
                      | Some rel =>
                          found = true
                          /\ exists file, In (inr file) (path_rglob_docx env dir)
                                          /\ names_block env block_name file = true
                                          /\ path_relative_to env file base = inr rel
                      | None =>
                          found = true ->
                          forall file, In (inr file) (path_rglob_docx env dir) ->
                                       names_block env block_name file = false
                      end).
    { destruct found.
      - destruct (first_matching_docx_returned _ _ _ _ _ _ H2) as [-> Hr].
        split; [reflexivity | ]. destruct hit; auto.
      - apply ret_returned in H2 as [-> ->]. split; [reflexivity | discriminate]. }
    destruct Hhit as [-> Hhit]. destruct hit as [rel | ].
    + apply ret_returned in H as [-> ->]. split; [reflexivity | ].
      destruct Hhit as (-> & file & Hf). exists dir, file.
      split; [left; reflexivity | split; [exact E | exact Hf]].
    + destruct (IH _ _ _ H) as [-> Hr]. split; [reflexivity | ].
      destruct r as [rel | ].
      * destruct Hr as (d & f & Hin & Hf). exists d, f. split; [right; exact Hin | exact Hf].
      * intros d f [<- | Hin] Hd Hf.
        -- rewrite E in Hd. injection Hd as ->. apply Hhit; auto.
        -- apply (Hr d f); assumption.
Qed.

(** X2. What [_find_content_block_file] returns is the path, relative to
    the base path, of a [.docx] file that lies in one of the three search
    directories, in one that exists, and whose name holds the block name,
    letter case apart.  When it returns [None], no file in an existing
    search directory has such a name.  The resolver is left as it was. *)
Theorem find_content_block_file_returns_named_file block_name st r st' :
  _find_content_block_file env block_name st = (Returned r, st') ->
  st' = st
  /\ match r with
     | Some rel =>
         exists dir file,
           In dir (content_block_dirs env (base_path st))
           /\ path_exists env dir = inr true
           /\ In (inr file) (path_rglob_docx env dir)
           /\ names_block env block_name file = true
           /\ path_relative_to env file (base_path st) = inr rel
     | None =>
         forall dir file,
           In dir (content_block_dirs env (base_path st)) ->
           path_exists env dir = inr true ->
           In (inr file) (path_rglob_docx env dir) ->
           names_block env block_name file = false
     end.
Proof.
  unfold _find_content_block_file. intros H.
  apply bind_returned in H as (base & s1 & H1 & H). cbn in H1. injection H1 as <- <-.
  exact (search_content_block_dirs_returned _ _ _ _ _ _ H).
Qed.

End ResolverSearch.

(** * Exceptions of the resolver *)

Module RaiseFacts.

Import Eff Laws.

Section Rules.

Context {S : Type}.







End Rules.

End RaiseFacts.

Section ResolverErrors.

Import Eff Resolver Spec Laws EffFacts RaiseFacts ResolverFacts.

Context (env : Env).






End ResolverErrors.

(** * Exceptions that leave the resolver *)

Section EscapingErrors.

Import Eff Resolver Spec Laws EffFacts.

Context (env : Env).

Lemma stateless_ret {S A} (a : A) : stateless (S:=S) (ret a).
Proof. exists (Returned a). reflexivity. Qed.

Lemma stateless_lift {S A} (r : exn + A) : stateless (S:=S) (lift r).
Proof. destruct r as [e | a]; [exists (Raised e) | exists (Returned a)]; reflexivity. Qed.

Lemma stateless_bind {S A B} (m : Eff.M S A) (f : A -> Eff.M S B) :
  stateless m -> (forall a, stateless (f a)) -> stateless (bind m f).
Proof.
  intros [o Hm] Hf. destruct o as [a | e | ].
  - destruct (Hf a) as [o Ha]. exists o. intros s. unfold bind. rewrite Hm. apply Ha.
  - exists (Raised e). intros s. unfold bind. rewrite Hm. reflexivity.
  - exists OutOfFuel. intros s. unfold bind. rewrite Hm. reflexivity.
Qed.

Lemma first_matching_docx_stateless base block_name files :
  stateless (first_matching_docx env base block_name files).
Proof.
  induction files as [| [e | file] rest IH]; cbn [first_matching_docx].
  - apply stateless_ret.
  - exists (Raised e). reflexivity.
  - destruct (PyStr.contains _ _); [ | exact IH].
    apply stateless_bind; [apply stateless_lift | intros; apply stateless_ret].
Qed.

Lemma search_content_block_dirs_stateless base block_name dirs :
  stateless (search_content_block_dirs env base block_name dirs).
Proof.
  induction dirs as [| dir rest IH]; cbn [search_content_block_dirs].
  - apply stateless_ret.
  - apply stateless_bind; [apply stateless_lift | intros found].
    apply stateless_bind.
    + destruct found; [apply first_matching_docx_stateless | apply stateless_ret].
    + intros [rel | ]; [apply stateless_ret | exact IH].
Qed.

(** The search for a content block reads the base path and nothing else,
    and changes nothing. *)
Lemma find_content_block_file_reads_base_path block_name st1 st2 :
  base_path st1 = base_path st2 ->
  _find_content_block_file env block_name st2
  = (fst (_find_content_block_file env block_name st1), st2).
Proof.
  intros Hbase. unfold _find_content_block_file, bind, gets. cbv beta iota.
  rewrite Hbase.
  destruct (search_content_block_dirs_stateless (base_path st2) block_name
              [ path_join env (path_join env (path_join env (base_path st2) "templates")
                                 "Common") "Content Blocks";
                path_join env (path_join env (base_path st2) "templates") "Content Blocks";
                path_join env (base_path st2) "Content Blocks" ]) as [o Ho].
  rewrite !Ho. reflexivity.
Qed.

(** X23. The search for a content block is not guarded by a handler.  When
    the first reference of a document is a content block that is not in
    the cache and not among the aliases, and the search for its file
    raises (a directory that cannot be read, say), [resolve_document]
    raises this exception; the reference has been counted as a cache miss,
    the call as a resolution, and the resolution stack is as before. *)
Theorem content_block_search_error_escapes doc_path html_content depth st block_name rest e :
  depth <= max_depth st ->
  doc_path ∉ resolution_stack st ->
  _extract_references env html_content = ("content_block", block_name) :: rest ->
  cache st !! _generate_cache_key env "content_block" block_name = None ->
  assoc (PyStr.strip (PyStr.lower block_name)) content_block_mappings = None ->
  fst (_find_content_block_file env block_name st) = Raised e ->
  resolve_document env doc_path html_content depth st
  = (Raised e,
     MkResolver (base_path st) (max_depth st) (cache st) (dependency_graph st)
       (resolution_stack st)
       (MkStatistics (cache_hits (statistics st)) (cache_misses (statistics st) + 1)
          (total_resolutions (statistics st) + 1) (circular_references (statistics st))
          (failed_resolutions (statistics st)))).
Proof.
  intros Hdepth Hstack Hrefs Hcache Halias Hsearch.
  unfold resolve_document, depth_budget. cbn [resolve_document_fuel].
  unfold resolve_document_body, bind at 1, gets. cbn beta iota.
  apply Z.ltb_ge in Hdepth. rewrite Hdepth.
  unfold bind at 1. cbn beta iota. rewrite bool_decide_eq_false_2 by exact Hstack.
  unfold bind at 1, modify at 1. cbn beta iota.
  unfold bind at 1, modify at 1. cbn beta iota.
  rewrite Hrefs. cbn [foldM]. unfold try_finally.
  set (st1 := set_statistics incr_total_resolutions _).
  set (st2 := set_statistics incr_cache_misses st1).
  assert (Hturn : forall rec acc,
             resolve_reference env rec doc_path depth acc ("content_block", block_name) st1
             = (Raised e, st2)).
  { intros rec [[html resolved] failed]. unfold resolve_reference, bind at 1.
    unfold _resolve_single_reference, bind at 1, gets.
    change (cache st1) with (cache st). rewrite Hcache.
    unfold bind at 1, modify at 1. cbn beta iota. fold st2.
    unfold bind at 1. cbn [String.eqb Ascii.eqb Bool.eqb orb].
    unfold _load_content_block. rewrite Halias. unfold bind at 1.
    rewrite (find_content_block_file_reads_base_path block_name st st2 eq_refl), Hsearch.
    reflexivity. }
  unfold bind at 1. unfold bind at 1. rewrite Hturn.
  unfold pop_resolution_stack. subst st2 st1.
  cbn [resolution_stack set_statistics set_resolution_stack].
  destruct (resolution_stack st ++ [doc_path])%list eqn:Happ.
  { destruct (resolution_stack st); discriminate. }
  clear Happ Hturn. unfold set_resolution_stack, set_statistics, incr_cache_misses,
    incr_total_resolutions.
  cbn [resolution_stack base_path max_depth cache dependency_graph statistics
       cache_hits cache_misses total_resolutions circular_references failed_resolutions].
  rewrite removelast_last. reflexivity.
Qed.

End EscapingErrors.

(** * What a run of the resolver leaves behind *)

Section ResolverAccounting.

Import Eff Resolver Spec Laws EffFacts ResolverFacts.

Context (env : Env).

Section Keeps.

(** A property of the resolver that every single update keeps. *)
Variable I : Resolver -> Prop.
Hypothesis I_cache_hit : forall st, I st -> I (set_statistics incr_cache_hits st).
Hypothesis I_cache_miss : forall st, I st -> I (set_statistics incr_cache_misses st).
Hypothesis I_failed : forall st, I st -> I (set_statistics incr_failed_resolutions st).
Hypothesis I_cache_write :
  forall st k v, PyStr.truthy v = true -> I st -> I (set_cache (insert k v) st).
Hypothesis I_dependency :
  forall st doc ref, I st -> I (set_dependency_graph (add_dependency doc ref) st).
Hypothesis I_circular : forall st, I st -> I (set_statistics incr_circular_references st).
Hypothesis I_total : forall st, I st -> I (set_statistics incr_total_resolutions st).
Hypothesis I_stack : forall st f, I st -> I (set_resolution_stack f st).

Lemma resolve_single_reference_keeps fuel ref_type ref_path depth st :
  I st ->
  I (snd (_resolve_single_reference env (resolve_document_fuel env fuel)
            ref_type ref_path depth st)).
Proof.
  intros HI.
  assert (H : related I (max_depth st) false
                (_resolve_single_reference env (resolve_document_fuel env fuel)
                   ref_type ref_path depth)
                (_resolve_single_reference env (resolve_document_fuel env fuel)
                   ref_type ref_path depth)).
  { apply related_resolve_single_reference; auto.
    intros _ doc html. apply related_resolve_document_fuel; auto. left. auto. }
  destruct (H st) as (_ & [HI' _] & _); [split; auto | exact HI'].
Qed.

End Keeps.

Lemma embed_content_returned html ref_type ref_path content st html' st' :
  _embed_content env html ref_type ref_path content st = (Returned html', st') -> st' = st.
Proof.
  unfold _embed_content.
  repeat match goal with
         | |- context [if ?b then _ else _] => destruct b
         end;
    intros H; first [apply ret_returned in H | apply lift_returned in H]; tauto.
Qed.

(** One turn of the loop counts the reference as resolved or as failed; a
    failed one leaves the HTML as it is and is counted in the lifetime
    statistics too. *)
Lemma resolve_reference_counts fuel doc_path depth html resolved failed ref st
    html' resolved' failed' st' :
  resolve_reference env (resolve_document_fuel env fuel) doc_path depth
    (html, resolved, failed) ref st
  = (Returned (html', resolved', failed'), st') ->
  failed_resolutions (statistics st) + (failed' - failed)
  <= failed_resolutions (statistics st')
  /\ ((resolved' = resolved + 1 /\ failed' = failed)
      \/ (resolved' = resolved /\ failed' = failed + 1 /\ html' = html)).
Proof.
  destruct ref as [ref_type ref_path]. unfold resolve_reference. intros H.
  apply bind_returned in H as (res & s1 & H1 & H).
  assert (Hle : failed_resolutions (statistics st) <= failed_resolutions (statistics s1)).
  { pose (I := fun s => failed_resolutions (statistics st)
                         <= failed_resolutions (statistics s)).
    assert (K : I (snd (_resolve_single_reference env (resolve_document_fuel env fuel)
                          ref_type ref_path (depth + 1) st))).
    { apply resolve_single_reference_keeps; unfold I; cbn; intros; lia. }
    rewrite H1 in K. exact K. }
  destruct (truthy_opt res).
  - apply bind_returned in H as (h & s2 & H2 & H).
    apply embed_content_returned in H2 as ->.
    apply bind_returned in H as (u & s3 & H3 & H).
    cbn in H3. injection H3 as <- <-. apply ret_returned in H as [[= -> -> ->] ->].
    cbn. split; [lia | left; auto].
  - apply bind_returned in H as (u & s3 & H3 & H).
    cbn in H3. injection H3 as <- <-. apply ret_returned in H as [[= -> -> ->] ->].
    cbn. split; [lia | right; auto].
Qed.

Lemma resolve_references_count fuel doc_path depth refs :
  forall html resolved failed st html' resolved' failed' st',
    foldM (resolve_reference env (resolve_document_fuel env fuel) doc_path depth)
      (html, resolved, failed) refs st
    = (Returned (html', resolved', failed'), st') ->
    resolved <= resolved' /\ failed <= failed'
    /\ (resolved' - resolved) + (failed' - failed) = Z.of_nat (length refs)
    /\ (resolved' = resolved -> html' = html)
    /\ failed_resolutions (statistics st) + (failed' - failed)
       <= failed_resolutions (statistics st').
Proof.
  induction refs as [| ref rest IH]; intros html resolved failed st html' resolved' failed' st' H.
  - apply ret_returned in H as [[= -> -> ->] ->]. cbn. repeat split; lia.
  - cbn [foldM] in H. apply bind_returned in H as ([[h1 r1] f1] & s1 & H1 & H).
    apply resolve_reference_counts in H1 as [Hf1 Hstep].
    apply IH in H as (Hr & Hf & Hsum & Hhtml & Hglobal).
    cbn [length]. rewrite Nat2Z.inj_succ.
    destruct Hstep as [[-> ->] | (-> & -> & ->)].
    + repeat split; try lia.
    + repeat split; try lia. exact Hhtml.
Qed.

(** X4. The statistics that [resolve_document] returns add up.  A call
    that is not stopped at a guard reports the number of references that
    [_extract_references] lists; with none, the HTML is returned as it is
    and the keys [resolved] and [failed] are missing; otherwise every
    reference is counted once, as resolved or as failed, the lifetime
    counter [failed_resolutions] has grown by at least the failures of this
    call, and a call that resolved nothing returns the HTML as it is. *)
Theorem resolution_statistics_add_up doc_path html_content depth st html' stats st' :
  resolve_document env doc_path html_content depth st = (Returned (html', stats), st') ->
  dict_get "error" stats = None ->
  let references := _extract_references env html_content in
  dict_get "references_found" stats = Some (PInt (Z.of_nat (length references)))
  /\ (references = [] ->
      html' = html_content
      /\ dict_get "resolved" stats = None /\ dict_get "failed" stats = None)
  /\ (references <> [] ->
      exists resolved failed,
        dict_get "resolved" stats = Some (PInt resolved)
        /\ dict_get "failed" stats = Some (PInt failed)
        /\ 0 <= resolved /\ 0 <= failed
        /\ resolved + failed = Z.of_nat (length references)
        /\ (resolved = 0 -> html' = html_content)
        /\ failed_resolutions (statistics st) + failed
           <= failed_resolutions (statistics st')).
Proof.
  unfold resolve_document, depth_budget. cbn [resolve_document_fuel].
  set (fuel := Z.to_nat (max_depth st - depth)).
  unfold resolve_document_body, bind at 1, gets. cbn beta iota.
  destruct (max_depth st <? depth).
  { intros [= <- <- <-]. discriminate. }
  unfold bind at 1. cbn beta iota.
  destruct (bool_decide _).
  { intros [= <- <- <-]. discriminate. }
  unfold bind at 1, modify at 1. cbn beta iota.
  unfold bind at 1, modify at 1. cbn beta iota.
  set (st1 := set_statistics incr_total_resolutions _).
  assert (Hst1 : failed_resolutions (statistics st1) = failed_resolutions (statistics st))
    by reflexivity.
  unfold try_finally. intros H Herr. cbv zeta.
  destruct (_extract_references env html_content) as [| r rs] eqn:Er.
  - cbn in H. destruct (pop_resolution_stack st1) as [[u | e | ] st2]; try discriminate.
    injection H as <- <- <-. split; [reflexivity | split].
    + intros _. repeat split.
    + intros Hne. contradiction Hne. reflexivity.
  - rewrite <- Er in *.
    match type of H with
    | context [bind ?m ?f st1] => destruct (bind m f st1) as [o st2] eqn:Ebody
    end.
    destruct (pop_resolution_stack st2) as [[u | e | ] st3] eqn:Epop; try discriminate.
    injection H as -> <-.
    unfold pop_resolution_stack in Epop.
    assert (Hst3 : failed_resolutions (statistics st3) = failed_resolutions (statistics st2)).
    { destruct (resolution_stack st2); inversion Epop; reflexivity. }
    apply bind_returned in Ebody as ([[h1 r1] f1] & s1 & Hloop & Hret).
    apply ret_returned in Hret as [[= -> ->] ->].
    apply resolve_references_count in Hloop as (Hr & Hf & Hsum & Hhtml & Hglobal).
    split; [reflexivity | ]. split; [rewrite Er; discriminate | ].
    intros _. exists r1, f1. repeat split; try lia.
    intros ->. apply Hhtml. reflexivity.
Qed.

(** X5. Whatever way a call of [resolve_document] ends, it only adds to
    the resolver: the base path and the depth limit are as before, no
    counter has gone down, every dependency recorded before is still
    recorded, and every key of the cache is still in the cache. *)
Theorem resolve_document_only_adds doc_path html_content depth st :
  let st' := snd (resolve_document env doc_path html_content depth st) in
  base_path st' = base_path st
  /\ max_depth st' = max_depth st
  /\ counters_le (statistics st) (statistics st')
  /\ graph_le (dependency_graph st) (dependency_graph st')
  /\ dom (cache st) ⊆ dom (cache st').
Proof.
  cbv zeta. unfold resolve_document.
  set (I := fun s => base_path s = base_path st
                     /\ max_depth s = max_depth st
                     /\ counters_le (statistics st) (statistics s)
                     /\ graph_le (dependency_graph st) (dependency_graph s)
                     /\ dom (cache st) ⊆ dom (cache s)).
  assert (Hcount : forall f s,
             (forall c, counters_le (statistics st) c -> counters_le (statistics st) (f c)) ->
             I s -> I (set_statistics f s)).
  { intros f s Hf (H1 & H2 & H3 & H4 & H5).
    split; [exact H1 | split; [exact H2 | split; [apply Hf, H3 | split; assumption]]]. }
  change (I (snd (resolve_document_fuel env (depth_budget st depth) doc_path html_content
                    depth st))).
  apply resolve_document_fuel_keeps.
  - intros s. apply Hcount. intros c (C1 & C2 & C3 & C4 & C5). repeat split; cbn; lia.
  - intros s. apply Hcount. intros c (C1 & C2 & C3 & C4 & C5). repeat split; cbn; lia.
  - intros s. apply Hcount. intros c (C1 & C2 & C3 & C4 & C5). repeat split; cbn; lia.
  - intros s k v _ (H1 & H2 & H3 & H4 & H5).
    split; [exact H1 | split; [exact H2 | split; [exact H3 | split; [exact H4 | ]]]].
    cbn [cache set_cache]. rewrite dom_insert. set_solver.
  - intros s doc ref (H1 & H2 & H3 & H4 & H5).
    split; [exact H1 | split; [exact H2 | split; [exact H3 | split; [ | exact H5]]]].
    cbn [dependency_graph set_dependency_graph]. unfold add_dependency.
    intros d deps Hd. destruct (H4 d deps Hd) as (deps' & Hd' & Hsub).
    destruct (decide (doc = d)) as [-> | Hne].
    + rewrite lookup_insert_eq. eexists. split; [reflexivity | ].
      rewrite Hd'. cbn. set_solver.
    + rewrite lookup_insert_ne by exact Hne. eauto.
  - intros s. apply Hcount. intros c (C1 & C2 & C3 & C4 & C5). repeat split; cbn; lia.
  - intros s. apply Hcount. intros c (C1 & C2 & C3 & C4 & C5). repeat split; cbn; lia.
  - intros s f HI. exact HI.
  - split; [reflexivity | split; [reflexivity | split; [ | split; [ | reflexivity]]]].
    + repeat split; lia.
    + intros d deps Hd. eauto.
Qed.

End ResolverAccounting.

(** * Entries of the cache *)

Section ResolverCache.

Import Eff Resolver Spec Laws EffFacts ResolverFacts.

Context (env : Env).

(** The cache [c0] is part of the cache of the resolver. *)
Variable c0 : gmap string string.
Variable L : Z.

Local Abbreviation holds_cache := (fun s : Resolver => c0 ⊆ cache s).
Local Abbreviation rel := (related holds_cache L false).

Section Turn.

Variable rec : string -> string -> Z -> M result.
Variable depth : Z.
Hypothesis rel_rec : forall d doc html, rel (rec doc html d) (rec doc html d).

(** A reference is written to the cache only after its key was looked up
    and not found, so no entry of [c0] is written over. *)
Lemma cache_kept_by_resolve_single_reference ref_type ref_path :
  rel (_resolve_single_reference env rec ref_type ref_path depth)
      (_resolve_single_reference env rec ref_type ref_path depth).
Proof.
  intros st [HI HL]. split; [reflexivity | ]. split; [ | exact Logic.I].
  unfold _resolve_single_reference, bind at 1, gets. cbn beta iota.
  destruct (cache st !! _generate_cache_key env ref_type ref_path) as [content | ] eqn:Ekey.
  { split; [exact HI | exact HL]. }
  assert (Hfresh : c0 !! _generate_cache_key env ref_type ref_path = None).
  { destruct (c0 !! _) as [v | ] eqn:E0; [ | reflexivity].
    rewrite (lookup_weaken _ _ _ _ E0 HI) in Ekey. discriminate. }
  unfold bind at 1, modify at 1. cbn beta iota.
  destruct (related_dispatch env holds_cache L false rec rec depth
              (fun _ => rel_rec depth) ref_type ref_path
              (set_statistics incr_cache_misses st)) as (_ & [HI1 HL1] & _).
  { split; [exact HI | exact HL]. }
  unfold bind at 1.
  match goal with
  | |- context [(if ?c then ?a else ?b) (set_statistics incr_cache_misses st)] =>
      destruct ((if c then a else b) (set_statistics incr_cache_misses st))
        as [[res | e | ] st2]
  end; cbn [snd] in *; try (split; assumption).
  destruct (truthy_opt res); cbn; (split; [ | exact HL1]); [ | exact HI1].
  apply insert_subseteq_r; assumption.
Qed.

Lemma cache_kept_by_resolve_reference doc_path acc ref :
  rel (resolve_reference env rec doc_path (depth - 1) acc ref)
      (resolve_reference env rec doc_path (depth - 1) acc ref).
Proof.
  unfold resolve_reference.
  destruct acc as [[resolved_html resolved] failed]. destruct ref as [ref_type ref_path].
  replace (depth - 1 + 1) with depth by lia.
  apply related_bind; [apply cache_kept_by_resolve_single_reference | intros res].
  destruct (truthy_opt res).
  - apply related_bind; [apply related_embed_content | intros html'].
    apply related_bind; [apply related_modify; auto | intros; apply related_ret].
  - apply related_bind; [apply related_modify; auto | intros; apply related_ret].
Qed.

End Turn.

Lemma cache_kept_by_resolve_document_body rec doc_path html_content depth :
  (forall d doc html, rel (rec doc html d) (rec doc html d)) ->
  rel (resolve_document_body env rec doc_path html_content depth)
      (resolve_document_body env rec doc_path html_content depth).
Proof.
  intros Hrec. unfold resolve_document_body.
  apply related_bind; [apply related_gets | intros limit].
  destruct (limit <? depth); [apply related_ret | ].
  apply related_bind; [apply related_gets | intros stack].
  destruct (bool_decide _).
  { apply related_bind; [apply related_modify; auto | intros; apply related_ret]. }
  apply related_bind; [apply related_modify; auto | intros _].
  apply related_bind; [apply related_modify; auto | intros _].
  apply related_try_finally.
  - destruct (_extract_references env html_content) as [| r rs]; [apply related_ret | ].
    apply related_bind.
    + apply related_foldM. intros acc ref.
      replace depth with (depth + 1 - 1) at 1 2 by lia.
      apply cache_kept_by_resolve_reference. exact Hrec.
    + intros [[resolved_html resolved] failed]. apply related_ret.
  - intros st [HI HL]. unfold pop_resolution_stack.
    destruct (resolution_stack st); cbn; repeat split; auto.
Qed.

Lemma cache_kept_by_resolve_document_fuel fuel :
  forall doc_path html_content depth,
    rel (resolve_document_fuel env fuel doc_path html_content depth)
        (resolve_document_fuel env fuel doc_path html_content depth).
Proof.
  induction fuel as [| fuel IH]; intros doc_path html_content depth.
  - apply related_out_of_fuel. reflexivity.
  - cbn [resolve_document_fuel]. apply cache_kept_by_resolve_document_body.
    intros d doc html. apply IH.
Qed.

End ResolverCache.

Section ResolverCacheClaims.

Import Eff Resolver Spec Laws EffFacts ResolverFacts.

Context (env : Env).

(** X6. A call of [resolve_document] writes over no entry of the cache and
    removes none: what the cache held for a key before the call it holds
    after it, whatever way the call ends. *)
Theorem resolve_document_keeps_cache_entries doc_path html_content depth st k v :
  cache st !! k = Some v ->
  cache (snd (resolve_document env doc_path html_content depth st)) !! k = Some v.
Proof.
  intros Hk. unfold resolve_document.
  destruct (cache_kept_by_resolve_document_fuel env (cache st) (max_depth st)
              (depth_budget st depth) doc_path html_content depth st)
    as (_ & [Hsub _] & _).
  { split; reflexivity. }
  exact (lookup_weaken _ _ _ _ Hk Hsub).
Qed.

End ResolverCacheClaims.

(** * What the patterns capture *)

Module ReFacts.

Import Re.

Lemma strip_prefix_ci_length l : forall s s',
  strip_prefix_ci l s = Some s' ->
  String.length s = (String.length l + String.length s')%nat.
Proof.
  induction l as [| a l IH]; intros s s' H; cbn in H.
  - injection H as ->. reflexivity.
  - destruct s as [| b s]; [discriminate | ].
    destruct (Ascii.eqb _ _); [ | discriminate]. cbn. rewrite (IH _ _ H). reflexivity.
Qed.

Section Run.

Variables ic da : bool.
Context {R : Type}.

(** An expression without groups hands the captures on as they are, with
    a text that is no longer. *)
Lemma run_group_free r :
  groups r = O ->
  forall s cs (k : string -> captures -> option R) x,
    run ic da r s cs k = Some x ->
    exists s', k s' cs = Some x /\ (String.length s' <= String.length s)%nat.
Proof.
  induction r as [l | | | c | a IHa b IHb | a IHa b IHb | a IHa | a IHa | a IHa | n a IHa];
    intros Hg s cs k x H; cbn [run groups] in *.
  - destruct ic.
    + destruct (strip_prefix_ci l s) as [s' | ] eqn:E; [ | discriminate].
      apply strip_prefix_ci_length in E. exists s'. split; [exact H | lia].
    + destruct (PyStr.strip_prefix l s) as [s' | ] eqn:E; [ | discriminate].
      apply PyStrFacts.strip_prefix_length in E. exists s'. split; [exact H | lia].
  - destruct s as [| c t]; [discriminate | ].
    destruct (da || _); [ | discriminate]. exists t. split; [exact H | cbn; lia].
  - destruct s as [| c t]; [discriminate | ].
    destruct (PyStr.isspace c); [ | discriminate]. exists t. split; [exact H | cbn; lia].
  - destruct s as [| d t]; [discriminate | ].
    destruct (Ascii.eqb d c); [discriminate | ]. exists t. split; [exact H | cbn; lia].
  - apply IHa in H as (s1 & H & H1); [ | lia].
    apply IHb in H as (s2 & H & H2); [ | lia].
    exists s2. split; [exact H | lia].
  - destruct (run ic da a s cs k) as [y | ] eqn:E.
    + injection H as ->. apply IHa in E; [exact E | lia].
    + apply IHb in H; [exact H | lia].
  - destruct (run ic da a s cs k) as [y | ] eqn:E.
    + injection H as ->. apply IHa in E; [exact E | lia].
    + exists s. split; [exact H | lia].
  - revert H. generalize (String.length s) at 1. intros n. revert s cs.
    induction n as [| n IHn]; intros s cs H.
    + exists s. split; [exact H | lia].
    + match type of H with
      | match ?m with _ => _ end = _ => destruct m as [y | ] eqn:E
      end.
      * injection H as ->. apply IHa in E as (s1 & E & H1); [ | exact Hg].
        destruct (String.length s1 <? String.length s)%nat; [ | discriminate].
        apply IHn in E as (s2 & E & H2). exists s2. split; [exact E | lia].
      * exists s. split; [exact H | lia].
  - revert H. generalize (String.length s) at 1. intros n. revert s cs.
    induction n as [| n IHn]; intros s cs H.
    + exists s. split; [exact H | lia].
    + destruct (k s cs) as [y | ] eqn:Ek.
      * injection H as ->. exists s. split; [exact Ek | lia].
      * apply IHa in H as (s1 & E & H1); [ | exact Hg].
        destruct (String.length s1 <? String.length s)%nat; [ | discriminate].
        apply IHn in E as (s2 & E & H2). exists s2. split; [exact E | lia].
  - discriminate.
Qed.

(** [[^c]+] takes at least one character. *)
Lemma run_plus_not_char c s cs (k : string -> captures -> option R) x :
  run ic da (Plus (NotChar c)) s cs k = Some x ->
  exists s', k s' cs = Some x /\ (String.length s' < String.length s)%nat.
Proof.
  unfold Plus. cbn [run]. destruct s as [| d t]; [discriminate | ].
  destruct (Ascii.eqb d c); [discriminate | ]. intros H.
  apply (run_group_free (Star (NotChar c)) eq_refl) in H as (s' & H & Hlen).
  exists s'. split; [exact H | cbn; lia].
Qed.

End Run.

(** A pattern of the form [open(body)close] whose body takes at least one
    character reports a group that is not empty. *)
Lemma delimited_group_non_empty opening body closing s m :
  (forall s cs (k : string -> captures -> option (captures * nat)) x,
     run true false body s cs k = Some x ->
     exists s', k s' cs = Some x /\ (String.length s' < String.length s)%nat) ->
  match_here (compile_i (cat [Lit opening; Group 1 body; Lit closing])) s = Some m ->
  reported (compile_i (cat [Lit opening; Group 1 body; Lit closing])) s m <> EmptyString.
Proof.
  intros Hbody. unfold match_here, reported, compile_i, cat.
  cbn [expr ignorecase dotall fold_right groups Nat.add]. cbn [run].
  destruct (strip_prefix_ci opening s) as [s1 | ]; [ | discriminate]. intros H.
  apply Hbody in H as (s2 & H & Hlen).
  destruct (strip_prefix_ci closing s2) as [s3 | ]; [ | discriminate]. cbn in H.
  injection H as <-. cbn. unfold consumed.
  destruct s1 as [| c t]; [cbn in Hlen; lia | ].
  destruct (String.length (String c t) - String.length s2)%nat eqn:E; [lia | ].
  cbn. discriminate.
Qed.

End ReFacts.

(** * The references that are extracted *)

Section ExtractedReferences.

Import Resolver Spec Laws ReFacts.

Lemma text_pattern_reports_non_empty name p s m :
  In (name, p) text_patterns -> Re.match_here p s = Some m ->
  Re.reported p s m <> EmptyString.
Proof.
  intros Hin. cbn in Hin.
  destruct Hin as [H | [H | [H | [H | []]]]]; injection H as <- <-;
    apply delimited_group_non_empty; intros s0 cs k x.
  - apply run_plus_not_char.
  - cbn [Re.run]. destruct (Re.strip_prefix_ci "dc-" s0) as [s1 | ] eqn:E; [ | discriminate].
    apply strip_prefix_ci_length in E. intros H.
    apply run_plus_not_char in H as (s2 & H & Hlen). exists s2. split; [exact H | lia].
  - apply run_plus_not_char.
  - apply run_plus_not_char.
Qed.

(** X7. Every reference that [_extract_references] lists has one of the
    five kinds [double_curly], [content_block], [include_directive],
    [sharedo_content] and [data_attribute], never the kind of the Word XML
    pattern, and an identifier that is not empty. *)
Theorem extracted_references_are_named env content kind identifier :
  In (kind, identifier) (_extract_references env content) ->
  In kind reference_kinds /\ identifier <> EmptyString.
Proof.
  rewrite extract_references_unfold.
  destruct (negb (PyStr.truthy content)); [intros [] | ].
  intros Hin. apply in_app_or in Hin as [Hin | Hin].
  - apply in_flat_map in Hin as ([name p] & Hnp & Hin). cbn [fst snd] in Hin.
    unfold references_of, Re.findall in Hin.
    apply in_map_iff in Hin as (text & [= <- <-] & Hin).
    apply in_map_iff in Hin as (r & <- & Hin).
    split.
    + cbn in Hnp. destruct Hnp as [H | [H | [H | [H | []]]]]; injection H as <- _; cbn; tauto.
    + destruct (finditer_from_sound p content content O O eq_refl) as [HF _].
      rewrite List.Forall_forall in HF.
      destruct (HF r Hin) as (_ & _ & m & Hm & <- & _).
      exact (text_pattern_reports_non_empty name p _ m Hnp Hm).
  - unfold attribute_references in Hin.
    destruct (PyStr.contains "<" content); [ | destruct Hin].
    destruct (soup_content_controls env content) as [e | refs]; [destruct Hin | ].
    apply in_map_iff in Hin as (ref & [= <- <-] & Hin).
    apply filter_In in Hin as [_ Htruthy].
    split; [cbn; tauto | ]. destruct ref; [discriminate | discriminate].
Qed.

End ExtractedReferences.

(** * Keys of the cache *)

Section CacheKeys.

Import Resolver Spec Laws.




End CacheKeys.

(** * Embedding a fragment *)


Section Embedding.

Import Eff Resolver Spec Laws PyStrFacts.

Context (env : Env).

Lemma embedded_syntax_is_replaced html ref_type ref_path content old :
  In (ref_type, old) (embedded_syntax ref_path) ->
  old <> EmptyString
  /\ _embed_content env html ref_type ref_path content
     = ret (PyStr.replace old (wrapped_content ref_type ref_path content) html).
Proof.
  intros Hin. cbn in Hin.
  destruct Hin as [H | [H | [H | [H | []]]]]; injection H as <- <-;
    (split; [discriminate | reflexivity]).
Qed.

Lemma wrapped_content_is_marked ref_type ref_path content :
  PyStr.contains (source_mark ref_type ref_path) (wrapped_content ref_type ref_path content)
  = true.
Proof.
  unfold wrapped_content, source_mark.
  set (before := PyStr.newline +:+ "        <div class=" +:+ PyStr.quote
                 +:+ "resolved-content" +:+ PyStr.quote +:+ " ").
  set (after := ">" +:+ PyStr.newline +:+ "            " +:+ content +:+ PyStr.newline
                +:+ "        </div>" +:+ PyStr.newline +:+ "        ").
  set (mark := "data-source=" +:+ PyStr.quote +:+ ref_path +:+ PyStr.quote +:+
               " data-type=" +:+ PyStr.quote +:+ ref_type +:+ PyStr.quote).
  match goal with
  | |- PyStr.contains _ ?w = true => replace w with (before +:+ mark +:+ after)
  end.
  { apply contains_append. }
  subst before mark after. cbn [PyStr.newline PyStr.quote String.append].
  rewrite !append_assoc. reflexivity.
Qed.

(** X8. For the four kinds that [_embed_content] replaces as text it
    looks for one literal text in the HTML.  When that text does not occur
    the HTML comes back as it is.  When it occurs, what is before the first
    occurrence is kept, the wrapper takes the place of the occurrence, and
    the rest is treated the same way; the wrapper holds the attributes
    [data-source] and [data-type] of the reference.  The resolver is left
    as it was. *)
Theorem embed_content_replaces_literal_text html ref_type ref_path content old st :
  In (ref_type, old) (embedded_syntax ref_path) ->
  let wrapper := wrapped_content ref_type ref_path content in
  (PyStr.contains old html = false ->
   _embed_content env html ref_type ref_path content st = (Returned html, st))
  /\ (forall n, PyStr.find old html = Some n ->
        _embed_content env html ref_type ref_path content st
        = (Returned (PyStr.take n html +:+ wrapper
                     +:+ PyStr.replace old wrapper
                           (PyStr.drop (n + String.length old) html)), st))
  /\ PyStr.contains (source_mark ref_type ref_path) wrapper = true.
Proof.
  intros Hin wrapper.
  destruct (embedded_syntax_is_replaced html ref_type ref_path content old Hin)
    as [Hold ->].
  fold wrapper. split; [ | split].
  - intros Habsent. rewrite (replace_absent _ _ _ Hold Habsent). reflexivity.
  - intros n Hfind. rewrite (replace_first _ _ _ _ Hold Hfind). reflexivity.
  - apply wrapped_content_is_marked.
Qed.

End Embedding.

(** * Structure trees *)

Module TreeFacts.

Import Parser Spec Laws.

(** Induction on a structure tree, with the property known for every
    child. *)
Lemma StructureNode_rect_children (P : StructureNode -> Prop) :
  (forall t d c ch a f ci, Forall P ch -> P (MkNode t d c ch a f ci)) ->
  forall n, P n.
Proof.
  intros H. fix IH 1. intros [t d c ch a f ci]. apply H.
  induction ch as [| x rest IHrest]; constructor; [apply IH | exact IHrest].
Qed.

Lemma fold_left_max_ge l : forall a, a <= fold_left Z.max l a.
Proof.
  induction l as [| x l IH]; intros a; cbn; [lia | ].
  specialize (IH (Z.max a x)). lia.
Qed.

Lemma fold_left_max_bounds l : forall a, Forall (fun x => x <= fold_left Z.max l a) l.
Proof.
  induction l as [| x l IH]; intros a; cbn; constructor.
  - assert (H := fold_left_max_ge l (Z.max a x)). lia.
  - apply IH.
Qed.

Lemma fold_left_max_in l : forall a, fold_left Z.max l a = a \/ In (fold_left Z.max l a) l.
Proof.
  induction l as [| x l IH]; intros a; cbn; [auto | ].
  destruct (IH (Z.max a x)) as [H | H]; [ | auto].
  rewrite H. destruct (Z.max_spec a x) as [[_ ->] | [_ ->]]; auto.
Qed.

Lemma sum_from l : forall a, fold_left Z.add l a = a + sum l.
Proof.
  unfold sum. induction l as [| x l IH]; intros a; cbn [fold_left]; [lia | ].
  rewrite (IH (a + x)), (IH (0 + x)). lia.
Qed.

Lemma sum_cons x l : sum (x :: l) = x + sum l.
Proof. unfold sum. cbn. apply sum_from. Qed.

End TreeFacts.

Section TreeMeasures.

Import Parser Spec Laws TreeFacts.

(** X10. [_calculate_max_depth] gives the largest depth among the leaves
    of the tree: it is the depth of a leaf, and no leaf lies deeper.  The
    depth of a node that has children does not count. *)
Theorem calculate_max_depth_is_deepest_leaf node :
  In (_calculate_max_depth node) (leaf_depths node)
  /\ Forall (fun d => d <= _calculate_max_depth node) (leaf_depths node).
Proof.
  induction node as [t d c ch a f ci IH] using StructureNode_rect_children.
  destruct ch as [| x rest].
  { cbn. split; [left; reflexivity | constructor; [lia | constructor]]. }
  cbn [_calculate_max_depth leaf_depths map]. set (m := fold_left Z.max (map _calculate_max_depth rest) (_calculate_max_depth x)).
  assert (Hbound : Forall (fun k => k <= m) (map _calculate_max_depth (x :: rest))).
  { cbn [map]. constructor; [apply fold_left_max_ge | apply fold_left_max_bounds]. }
  assert (Hin : In m (map _calculate_max_depth (x :: rest))).
  { cbn [map]. destruct (fold_left_max_in (map _calculate_max_depth rest)
                           (_calculate_max_depth x)) as [H | H]; [left | right]; auto. }
  clearbody m. revert IH Hbound Hin. generalize (x :: rest). clear x rest.
  intros l IH Hbound Hin. split.
  - apply in_map_iff in Hin as (child & <- & Hchild).
    apply in_flat_map. exists child. split; [exact Hchild | ].
    rewrite List.Forall_forall in IH. apply (IH child Hchild).
  - apply List.Forall_forall. intros k Hk.
    apply in_flat_map in Hk as (child & Hchild & Hk).
    rewrite List.Forall_forall in IH, Hbound.
    destruct (IH child Hchild) as [_ Hle]. rewrite List.Forall_forall in Hle.
    specialize (Hle k Hk).
    specialize (Hbound (_calculate_max_depth child) (in_map _ _ _ Hchild)). lia.
Qed.

End TreeMeasures.

(** * Formatting of an element *)

Section Formatting.

Import Parser Spec Laws ParserFacts.

Lemma dict_get_set_same {V} (k : string) (v : V) (d : Dict.t V) :
  Dict.get k (Dict.set k v d) = Some v.
Proof.
  induction d as [| [k0 v0] rest IH]; cbn.
  - rewrite String.eqb_refl. reflexivity.
  - destruct (String.eqb_spec k k0) as [-> | Hne]; cbn.
    + rewrite String.eqb_refl. reflexivity.
    + destruct (String.eqb_spec k k0); [contradiction | exact IH].
Qed.

Variable element : Dom.node.

(** One turn of the loop over [format_attrs]. *)
Local Abbreviation copy_attribute :=
  (fun (formatting : Dict.t Dom.attr_value) (attr : string) =>
     match Dom.get attr element with
     | Some v => if PyStr.truthy v then Dict.set attr v formatting else formatting
     | None => formatting
     end).

Lemma copy_attributes_keep key v attrs : forall formatting,
  Dom.get key element = Some v ->
  Dict.get key formatting = Some v ->
  Dict.get key (fold_left copy_attribute attrs formatting) = Some v.
Proof.
  induction attrs as [| attr rest IH]; intros formatting Hv Hget; [exact Hget | ].
  cbn [fold_left]. apply IH; [exact Hv | ].
  destruct (Dom.get attr element) as [w | ] eqn:Hw; [ | exact Hget].
  destruct (PyStr.truthy w); [ | exact Hget].
  destruct (String.eqb_spec key attr) as [-> | Hne].
  - rewrite Hv in Hw. injection Hw as <-. apply dict_get_set_same.
  - rewrite dict_get_set_other by exact Hne. exact Hget.
Qed.

Lemma copy_attributes_set key v attrs : forall formatting,
  In key attrs -> Dom.get key element = Some v -> PyStr.truthy v = true ->
  Dict.get key (fold_left copy_attribute attrs formatting) = Some v.
Proof.
  induction attrs as [| attr rest IH]; intros formatting Hin Hv Ht; [destruct Hin | ].
  cbn [fold_left]. destruct Hin as [-> | Hin].
  - apply copy_attributes_keep; [exact Hv | ]. rewrite Hv, Ht. apply dict_get_set_same.
  - apply IH; assumption.
Qed.

Lemma copy_attributes_other key attrs : forall formatting,
  (~ In key attrs \/ forall v, Dom.get key element = Some v -> PyStr.truthy v = false) ->
  Dict.get key (fold_left copy_attribute attrs formatting) = Dict.get key formatting.
Proof.
  induction attrs as [| attr rest IH]; intros formatting Hkey; [reflexivity | ].
  cbn [fold_left]. rewrite IH.
  - destruct (Dom.get attr element) as [w | ] eqn:Hw; [ | reflexivity].
    destruct (PyStr.truthy w) eqn:Ht; [ | reflexivity].
    apply dict_get_set_other. intros ->.
    destruct Hkey as [Hnot | Hfalse]; [apply Hnot; left; reflexivity | ].
    rewrite (Hfalse w Hw) in Ht. discriminate.
  - destruct Hkey as [Hnot | Hfalse]; [left | right; exact Hfalse].
    intros Hin. apply Hnot. right. exact Hin.
Qed.

(** X11. What [_extract_formatting] returns under a key follows a fixed
    order of precedence.  An attribute of [format_attrs] that the element
    carries with a non-empty value is returned as it is, whatever the style
    says; under [classes] the tokens of [class] are returned, joined by
    single spaces; every other key, and every key that is not overridden
    in this way, holds what the inline style declares for it. *)
Theorem extract_formatting_precedence key :
  (forall v, In key format_attrs -> Dom.get key element = Some v ->
             PyStr.truthy v = true ->
             Dict.get key (_extract_formatting element) = Some v)
  /\ (class_tokens element <> [] ->
      Dict.get "classes" (_extract_formatting element)
      = Some (PyStr.join " " (class_tokens element)))
  /\ ((~ In key format_attrs
       \/ forall v, Dom.get key element = Some v -> PyStr.truthy v = false) ->
      (key <> "classes" \/ class_tokens element = []) ->
      Dict.get key (_extract_formatting element) = Dict.get key (inline_styles element)).
Proof.
  unfold _extract_formatting. fold (inline_styles element).
  set (with_classes :=
         match Dom.get "class" element with
         | Some value =>
             if non_empty (PyStr.split_ws value)
             then Dict.set "classes" (PyStr.join " " (PyStr.split_ws value))
                    (inline_styles element)
             else inline_styles element
         | None => inline_styles element
         end).
  split; [ | split].
  - intros v Hin Hv Ht. apply copy_attributes_set; assumption.
  - intros Htokens. rewrite copy_attributes_other.
    + subst with_classes. unfold class_tokens in *.
      destruct (Dom.get "class" element) as [value | ]; [ | contradiction].
      destruct (PyStr.split_ws value); [contradiction | ]. apply dict_get_set_same.
    + left. cbn. intros H. repeat (destruct H as [H | H]; [discriminate | ]). exact H.
  - intros Hkey Hclasses. rewrite copy_attributes_other by exact Hkey.
    subst with_classes. unfold class_tokens in *.
    destruct (Dom.get "class" element) as [value | ]; [ | reflexivity].
    destruct (PyStr.split_ws value) as [| token tokens] eqn:Etokens; [reflexivity | ].
    cbn [non_empty]. apply dict_get_set_other.
    destruct Hclasses as [Hne | Hnil]; [exact Hne | discriminate].
Qed.

End Formatting.

(** * Plain text *)

Section PlainText.

Import Eff Parser Spec Laws EffFacts PyStrFacts.

Lemma split_on_non_empty sep s : PyStr.split_on sep s <> [].
Proof.
  destruct s as [| c t]; cbn; [discriminate | ].
  destruct (Ascii.eqb c sep); [discriminate | ].
  destruct (PyStr.split_on sep t); discriminate.
Qed.

Lemma join_cons sep p rest :
  rest <> [] -> PyStr.join sep (p :: rest) = p +:+ sep +:+ PyStr.join sep rest.
Proof. destruct rest; [contradiction | reflexivity]. Qed.

(** Splitting at a character and joining with it gives the string back. *)
Lemma join_split_on sep s :
  PyStr.join (String sep EmptyString) (PyStr.split_on sep s) = s.
Proof.
  induction s as [| c t IH]; [reflexivity | ].
  cbn [PyStr.split_on]. destruct (Ascii.eqb_spec c sep) as [-> | Hne].
  - rewrite join_cons by apply split_on_non_empty. rewrite IH. reflexivity.
  - destruct (PyStr.split_on sep t) as [| w ws] eqn:E.
    { contradiction (split_on_non_empty sep t). }
    destruct ws as [| w' ws'].
    + cbn in IH |- *. rewrite IH. reflexivity.
    + rewrite join_cons in IH |- * by discriminate.
      rewrite append_cons, IH. reflexivity.
Qed.

(** What the loop of [_parse_text_structure] makes of one line. *)
Local Abbreviation marked :=
  (fun line : string =>
     if is_conditional_line line
     then "<!-- CONDITIONAL: " +:+ PyStr.strip line +:+ " -->" +:+ PyStr.newline +:+ line
     else line).

Lemma parse_text_lines lines : forall enhanced_lines p,
  foldM
    (fun enhanced_lines line =>
       if is_conditional_line line then
         modify (fun p => MkParser (incr_conditionals_parsed (statistics p)) (logged p)) ;;
         ret (enhanced_lines
              ++ ["<!-- CONDITIONAL: " +:+ PyStr.strip line +:+ " -->" +:+ PyStr.newline
                  +:+ line])%list
       else ret (enhanced_lines ++ [line])%list)
    enhanced_lines lines p
  = (Returned (enhanced_lines ++ map marked lines)%list,
     MkParser
       (MkStatistics (max_depth_reached (statistics p)) (tables_parsed (statistics p))
          (conditionals_parsed (statistics p)
           + Z.of_nat (length (List.filter is_conditional_line lines)))
          (nested_structures (statistics p)) (complex_structures (statistics p)))
       (logged p)).
Proof.
  induction lines as [| line rest IH]; intros enhanced_lines p.
  - cbn. rewrite app_nil_r, Z.add_0_r. destruct p as [[? ? ? ? ?] ?]. reflexivity.
  - cbn [foldM map List.filter]. unfold bind at 1.
    destruct (is_conditional_line line); cbn [bind modify ret].
    + unfold bind at 1, modify, ret. rewrite IH. cbn [length].
      rewrite <- app_assoc. cbn. f_equal. f_equal. f_equal. lia.
    + unfold ret at 1. rewrite IH. rewrite <- app_assoc. reflexivity.
Qed.

Lemma unmarked_lines lines :
  Forall (fun line => is_conditional_line line = false) lines ->
  map marked lines = lines /\ List.filter is_conditional_line lines = [].
Proof.
  induction 1 as [| line rest Hline _ [IH1 IH2]]; [split; reflexivity | ].
  cbn [map List.filter]. rewrite Hline, IH1, IH2. split; reflexivity.
Qed.

Context (bs4 : Bs4).

(** X12. Text that does not hold both a [<] and a [>] is never parsed
    into nodes.  [parse_document_structure] returns the bare root, sets
    [max_depth_reached] to zero and adds to [conditionals_parsed] the
    number of lines in which one of the conditional patterns matches,
    the other statistics being as before; and when no line matches, the
    text comes back exactly as it was given. *)
Theorem plain_text_adds_no_node content p :
  PyStr.truthy content = true ->
  PyStr.contains "<" content && PyStr.contains ">" content = false ->
  let lines := PyStr.split_on (PyStr.chr 10) content in
  exists enhanced,
    parse_document_structure bs4 content p
    = (Returned (document_root, enhanced),
       MkParser
         (MkStatistics 0 (tables_parsed (statistics p))
            (conditionals_parsed (statistics p)
             + Z.of_nat (length (List.filter is_conditional_line lines)))
            (nested_structures (statistics p)) (complex_structures (statistics p)))
         (logged p))
    /\ (Forall (fun line => is_conditional_line line = false) lines -> enhanced = content).
Proof.
  intros Htruthy Hplain lines.
  exists (PyStr.join PyStr.newline (map marked lines)). split.
  - unfold parse_document_structure. rewrite Htruthy, Hplain. cbn [negb].
    unfold _parse_text_structure. fold lines.
    unfold bind at 1. unfold bind at 1. unfold bind at 1.
    rewrite parse_text_lines. reflexivity.
  - intros Hnone. destruct (unmarked_lines lines Hnone) as [-> _].
    apply join_split_on.
Qed.

(** X13. After a call that was given content, the statistic
    [max_depth_reached] is the depth that [validate_structure] reports for
    the returned tree; a call without content returns the bare root and
    leaves the parser, and with it the statistic of the call before, as it
    was. *)
Theorem max_depth_reached_follows_the_tree content p root enhanced p' :
  parse_document_structure bs4 content p = (Returned (root, enhanced), p') ->
  (PyStr.truthy content = true ->
   max_depth_reached (statistics p') = max_depth (structure_summary (validate_structure root)))
  /\ (PyStr.truthy content = false -> root = document_root /\ enhanced = EmptyString /\ p' = p).
Proof.
  unfold parse_document_structure. intros H. split; intros Hc; rewrite Hc in H; cbn [negb] in H.
  - apply bind_returned in H as ([root1 enhanced1] & p1 & _ & H).
    apply bind_returned in H as (u & p2 & H2 & H).
    cbn in H2. injection H2 as <- <-. apply ret_returned in H as [[= -> ->] ->].
    unfold validate_structure. destruct (_find_unclosed_conditionals root1); reflexivity.
  - apply ret_returned in H as [[= -> ->] ->]. repeat split.
Qed.

End PlainText.

(** * The shape of a parsed tree *)

Module ShapeFacts.

Import Eff Parser Spec Laws ParserFacts TreeFacts.

Lemma extends_by_weaken (ok ok' : StructureNode -> bool) old new :
  (forall n, ok n = true -> ok' n = true) -> extends_by ok old new -> extends_by ok' old new.
Proof.
  intros Hok (added & -> & Hadded). exists added. split; [reflexivity | ].
  rewrite forallb_forall in Hadded |- *. auto.
Qed.

Lemma extends_by_depth ok old new : extends_by ok old new -> depth new = depth old.
Proof. intros (added & -> & _). destruct old. reflexivity. Qed.

(** The loop over the strings and the loop over the conditional
    divisions, for any property that the nodes they make have. *)
Section Blocks.

Variable ok : StructureNode -> bool.
Variable old : StructureNode.

Hypothesis ok_if :
  forall d c info,
    1 <= d -> ok (MkNode CONDITIONAL d (ContentStr c) [] [] [] (Some info)) = true.
Hypothesis ok_mark_else : forall n, ok n = true -> ok (mark_else n) = true.
Hypothesis ok_mixed :
  forall a,
    ok (MkNode MIXED (depth old + 1) (ContentStr "conditional_with_table") [] a [] None)
    = true.

Local Abbreviation invariant :=
  (fun acc : StructureNode * conditional_stack =>
     extends_by ok old (fst acc) /\ forallb ok (snd acc) = true).

Lemma process_text_node_makes_ok acc text_node :
  invariant acc -> ensures invariant (process_text_node acc text_node).
Proof.
  destruct acc as [parent stack]. destruct text_node as [at_path text].
  intros [Hparent Hstack]. cbn [fst snd] in *. unfold process_text_node.
  destruct (if_match text) as [m | ].
  - apply ensures_then. intros _. apply ensures_then. intros _. apply ensures_ret.
    split; [exact Hparent | ]. cbn [fst snd]. rewrite forallb_app, Hstack. cbn.
    rewrite ok_if by lia. reflexivity.
  - destruct (is_match (pattern_search "else" text)).
    + destruct stack as [| s0 stack0] eqn:Es; [apply ensures_ret; split; auto | ].
      apply ensures_then. intros _. apply ensures_ret. split; [exact Hparent | ].
      cbn [fst snd]. apply forallb_update_last; [exact ok_mark_else | exact Hstack].
    + destruct (is_match (pattern_search "endif" text)); [ | apply ensures_ret; split; auto].
      destruct (last stack) as [completed | ] eqn:El; [ | apply ensures_ret; split; auto].
      destruct (forallb_last ok stack completed Hstack El) as [Hc Hrem].
      apply ensures_then. intros _. apply ensures_ret. split; [ | exact Hrem].
      cbn [fst]. apply extends_append_child; assumption.
Qed.

Lemma process_conditional_blocks_makes_ok parent :
  extends_by ok old parent ->
  ensures (extends_by ok old) (_process_conditional_blocks parent).
Proof.
  intros Hparent. unfold _process_conditional_blocks.
  apply ensures_then. intros text_nodes.
  eapply ensures_bind.
  - apply (ensures_foldM invariant).
    + intros acc x Hacc. apply process_text_node_makes_ok. exact Hacc.
    + split; [exact Hparent | reflexivity].
  - intros [parent' stack] [Hp _]. apply ensures_then. intros _. apply ensures_ret. exact Hp.
Qed.

Lemma process_mixed_content_makes_ok parent :
  extends_by ok old parent ->
  ensures (extends_by ok old) (_process_mixed_content parent).
Proof.
  intros Hparent. unfold _process_mixed_content.
  apply ensures_then. intros conditional_divs.
  apply ensures_foldM; [ | exact Hparent].
  intros p cond_div Hp. unfold process_conditional_div.
  apply ensures_then. intros tables.
  destruct (non_empty tables); [ | apply ensures_ret; exact Hp].
  do 4 (apply ensures_then; intros ?). apply ensures_ret.
  apply extends_append_child; [exact Hp | ].
  rewrite (extends_by_depth _ _ _ Hp). apply ok_mixed.
Qed.

End Blocks.

Lemma table_tree_table d c ch a f :
  d <= MAX_NESTING_DEPTH -> forallb table_tree ch = true ->
  table_tree (MkNode TABLE d c ch a f None) = true.
Proof.
  intros Hd Hch. cbn. apply Z.leb_le in Hd. rewrite Hd, Hch. reflexivity.
Qed.

Lemma table_tree_parser_node n : table_tree n = true -> parser_node n = true.
Proof.
  destruct n as [t d c ch a f ci]. intros H. unfold parser_node. cbn [type].
  assert (Ht : StructureType_eqb t TABLE = true).
  { cbn in H. destruct (StructureType_eqb t TABLE); [reflexivity | discriminate]. }
  destruct t; try discriminate. exact H.
Qed.

Lemma parser_node_mark_else n : parser_node n = true -> parser_node (mark_else n) = true.
Proof.
  destruct n as [t d c ch a f [info | ]]; [ | auto].
  unfold mark_else. cbn [conditional_info set_conditional_info].
  unfold parser_node. cbn [type children depth conditional_info is_leaf].
  destruct t; auto.
Qed.

Section Parse.

Context (bs4 : Bs4).

Lemma parse_html_structure_makes_parser_nodes html :
  ensures (fun r => extends_by parser_node document_root (fst r))
    (_parse_html_structure bs4 html document_root).
Proof.
  unfold _parse_html_structure. apply ensures_then. intros tree p r p'.
  match goal with
  | |- context [let '(o, w) := ?run ?w0 in _] => destruct (run w0) as [o w] eqn:Erun
  end.
  intros [= -> <-]. revert Erun.
  match goal with
  | |- ?run ?w0 = _ -> _ =>
      apply (fun H => H w0 r w);
      change (ensures (fun r => extends_by parser_node document_root (fst r)) run)
  end.
  eapply ensures_bind.
  { apply agree_ensures. unfold _process_nested_tables.
    apply (agree_process_nested_tables table_tree table_tree_table);
      [apply le_n | unfold nesting_budget; lia]. }
  intros p1 H1. apply (extends_by_weaken _ parser_node) in H1; [ | apply table_tree_parser_node].
  eapply ensures_bind.
  { apply (process_conditional_blocks_makes_ok parser_node document_root);
      [ | exact parser_node_mark_else | exact H1].
    intros d c info Hd. unfold parser_node. cbn. apply Z.leb_le in Hd. rewrite Hd. reflexivity. }
  intros p2 H2. eapply ensures_bind.
  { apply (process_mixed_content_makes_ok parser_node document_root); [ | exact H2].
    intros a. reflexivity. }
  intros p3 H3. do 2 (apply ensures_then; intros ?). apply ensures_ret. exact H3.
Qed.

Lemma parse_document_structure_makes_parser_nodes content :
  ensures (fun r => extends_by parser_node document_root (fst r))
    (parse_document_structure bs4 content).
Proof.
  unfold parse_document_structure. fold document_root.
  destruct (negb (PyStr.truthy content)); [apply ensures_ret, extends_refl | ].
  eapply ensures_bind.
  - destruct (_ && _).
    + apply parse_html_structure_makes_parser_nodes.
    + apply ensures_then. intros ?. apply ensures_ret. apply extends_refl.
  - intros [r e] Hr. apply ensures_then. intros _. apply ensures_ret. exact Hr.
Qed.

End Parse.

(** Counting in trees of the three shapes. *)

Lemma count_nodes_cons t d c x ch a f ci :
  _count_nodes (MkNode t d c (x :: ch) a f ci)
  = _count_nodes x + _count_nodes (MkNode t d c ch a f ci).
Proof. cbn [_count_nodes map]. rewrite sum_cons. lia. Qed.

Lemma count_by_type_cons k t d c x ch a f ci :
  _count_by_type k (MkNode t d c (x :: ch) a f ci)
  = _count_by_type k x + _count_by_type k (MkNode t d c ch a f ci).
Proof. cbn [_count_by_type map]. rewrite sum_cons. lia. Qed.

Lemma count_table_tree n :
  table_tree n = true ->
  forall k, _count_by_type k n = if StructureType_eqb TABLE k then _count_nodes n else 0.
Proof.
  induction n as [t d c ch a f ci IH] using StructureNode_rect_children.
  intros H k. cbn [table_tree] in H.
  apply andb_prop in H as [H Hch]. apply andb_prop in H as [H _].
  apply andb_prop in H as [Ht _]. destruct t; try discriminate. clear Ht.
  induction ch as [| x rest IHrest].
  - cbn. destruct k; reflexivity.
  - cbn [forallb] in Hch. apply andb_prop in Hch as [Hx Hrest].
    rewrite count_by_type_cons, count_nodes_cons.
    rewrite (List.Forall_inv IH Hx k), (IHrest (List.Forall_inv_tail IH) Hrest).
    destruct (StructureType_eqb TABLE k); lia.
Qed.

Lemma count_parser_node n :
  parser_node n = true ->
  _count_nodes n
  = _count_by_type TABLE n + _count_by_type CONDITIONAL n + _count_by_type MIXED n.
Proof.
  destruct n as [t d c ch a f ci]. unfold parser_node. cbn [type].
  destruct t; try discriminate.
  - intros H. rewrite !(count_table_tree _ H). cbn [StructureType_eqb]. lia.
  - cbn [is_leaf children]. destruct ch; [ | discriminate]. reflexivity.
  - cbn [is_leaf children]. destruct ch; [ | discriminate]. reflexivity.
Qed.

Lemma count_parsed_root added :
  forallb parser_node added = true ->
  _count_nodes (add_children added document_root)
  = 1 + _count_by_type TABLE (add_children added document_root)
    + _count_by_type CONDITIONAL (add_children added document_root)
    + _count_by_type MIXED (add_children added document_root).
Proof.
  unfold document_root. cbn [add_children app].
  induction added as [| x rest IH]; intros H; [reflexivity | ].
  cbn [forallb] in H. apply andb_prop in H as [Hx Hrest].
  rewrite count_nodes_cons, !count_by_type_cons, (IH Hrest), (count_parser_node x Hx). lia.
Qed.

(** The warnings of [_find_invalid_nesting] in trees of the three
    shapes. *)

Lemma invalid_nesting_table_tree n :
  table_tree n = true -> Forall table_warning (_find_invalid_nesting n).
Proof.
  induction n as [t d c ch a f ci IH] using StructureNode_rect_children.
  intros H. cbn [table_tree] in H.
  apply andb_prop in H as [H Hch]. apply andb_prop in H as [H _].
  apply andb_prop in H as [Ht Hd]. destruct t; try discriminate. clear Ht.
  apply Z.leb_le in Hd. cbn [_find_invalid_nesting StructureType_eqb andb app].
  apply Forall_app. split.
  - destruct (5 <? d) eqn:H5; [ | constructor]. apply Z.ltb_lt in H5.
    constructor; [ | constructor]. exists d. split; [lia | reflexivity].
  - induction ch as [| x rest IHrest]; [constructor | ].
    cbn [forallb] in Hch. apply andb_prop in Hch as [Hx Hrest].
    cbn [flat_map]. apply Forall_app. split.
    + apply (List.Forall_inv IH Hx).
    + apply IHrest; [exact (List.Forall_inv_tail IH) | exact Hrest].
Qed.

Lemma invalid_nesting_parser_node n :
  parser_node n = true -> Forall table_warning (_find_invalid_nesting n).
Proof.
  destruct n as [t d c ch a f ci]. unfold parser_node. cbn [type].
  destruct t; try discriminate.
  - apply invalid_nesting_table_tree.
  - cbn [is_leaf children]. destruct ch; [ | discriminate]. intros _. constructor.
  - cbn [is_leaf children depth]. destruct ch; [ | discriminate]. cbn.
    destruct (Z.eqb_spec d 1) as [-> | ]; [ | discriminate]. intros _. constructor.
Qed.

End ShapeFacts.

(** * What the passes over the document keep *)

Module KeepsFacts.

Import Eff Laws.

Section Rules.

Context {S : Type}.
Variable P : S -> Prop.

Lemma keeps_ret {A} (a : A) : keeps P (ret a).
Proof. intros s H. exact H. Qed.

Lemma keeps_gets {A} (g : S -> A) : keeps P (gets g).
Proof. intros s H. exact H. Qed.

Lemma keeps_lift {A} (r : exn + A) : keeps P (lift r).
Proof. intros s H. destruct r; exact H. Qed.

Lemma keeps_out_of_fuel {A} : keeps P (@out_of_fuel S A).
Proof. intros s H. exact H. Qed.

Lemma keeps_modify (f : S -> S) : (forall s, P s -> P (f s)) -> keeps P (modify f).
Proof. intros Hf s H. apply Hf, H. Qed.

Lemma keeps_bind {A B} (m : M S A) (f : A -> M S B) :
  keeps P m -> (forall a, keeps P (f a)) -> keeps P (bind m f).
Proof.
  intros Hm Hf s H. unfold bind. specialize (Hm s H).
  destruct (m s) as [[a | e | ] s1]; cbn in *; [apply Hf, Hm | exact Hm | exact Hm].
Qed.

Lemma keeps_foldM {A B} (f : A -> B -> M S A) (l : list B) :
  (forall a x, keeps P (f a x)) -> forall a, keeps P (foldM f a l).
Proof.
  intros Hf. induction l as [| x rest IH]; intros a; cbn.
  - apply keeps_ret.
  - apply keeps_bind; [apply Hf | exact IH].
Qed.

End Rules.

End KeepsFacts.

Module PassFacts.

Import Eff Parser Spec Laws KeepsFacts.

Section Passes.

(** A property of the parser at work that every single update of the
    three passes keeps. *)
Variable P : Work -> Prop.
Hypothesis P_tables : forall w, P w -> P (set_statistics incr_tables_parsed w).
Hypothesis P_nested : forall w, P w -> P (set_statistics incr_nested_structures w).
Hypothesis P_conditionals : forall w, P w -> P (set_statistics incr_conditionals_parsed w).
Hypothesis P_complex : forall w, P w -> P (set_statistics incr_complex_structures w).
Hypothesis P_log : forall msg w, P w -> P (log_warning msg w).
Hypothesis P_attr :
  forall p k v w, P w -> P (set_soup (Dom.update_at (Dom.set_attr k v) p) w).
Hypothesis P_wrap :
  forall p attrs w, P w -> P (set_soup (Dom.update_at (Dom.wrap "div" attrs) p) w).

Ltac keeps_step :=
  lazymatch goal with
  | |- keeps _ (ret _) => apply keeps_ret
  | |- keeps _ (gets _) => apply keeps_gets
  | |- keeps _ (element_at _) => apply keeps_gets
  | |- keeps _ (lift _) => apply keeps_lift
  | |- keeps _ (set_attr_at _ _ _) => apply keeps_modify; intros ? ?; apply P_attr; assumption
  | |- keeps _ (wrap_at _ _) => apply keeps_modify; intros ? ?; apply P_wrap; assumption
  | |- keeps _ (modify _) => apply keeps_modify; intros ? ?; auto
  | |- keeps _ (bind _ _) => apply keeps_bind; [ | intros ? ]
  | |- keeps _ (foldM _ _ _) => apply keeps_foldM; intros ? ?
  | |- keeps _ (for_each _ _) => unfold for_each
  | |- keeps _ (if ?b then _ else _) => destruct b
  | |- keeps _ (match ?x with _ => _ end) => destruct x
  end.

Lemma keeps_preserve_cell_content cell depth : keeps P (_preserve_cell_content cell depth).
Proof. unfold _preserve_cell_content. repeat keeps_step. Qed.

Lemma keeps_process_table rec depth parent table :
  (forall cell node d, keeps P (rec cell node d)) ->
  keeps P (process_table rec depth parent table).
Proof.
  intros Hrec. unfold process_table.
  repeat first [apply Hrec | apply keeps_preserve_cell_content | keeps_step].
Qed.

Lemma keeps_process_nested_tables_fuel fuel :
  forall at_path parent depth, keeps P (_process_nested_tables_fuel fuel at_path parent depth).
Proof.
  induction fuel as [| fuel IH]; intros at_path parent depth; cbn [_process_nested_tables_fuel].
  - apply keeps_out_of_fuel.
  - unfold _process_nested_tables_body.
    repeat first [apply keeps_process_table; exact IH | keeps_step].
Qed.

Lemma keeps_process_nested_tables at_path parent depth :
  keeps P (_process_nested_tables at_path parent depth).
Proof. apply keeps_process_nested_tables_fuel. Qed.

Lemma keeps_process_text_node acc text_node : keeps P (process_text_node acc text_node).
Proof. unfold process_text_node. repeat keeps_step. Qed.

Lemma keeps_process_conditional_blocks parent : keeps P (_process_conditional_blocks parent).
Proof.
  unfold _process_conditional_blocks.
  repeat first [apply keeps_process_text_node | keeps_step].
Qed.

Lemma keeps_process_mixed_content parent : keeps P (_process_mixed_content parent).
Proof. unfold _process_mixed_content, process_conditional_div. repeat keeps_step. Qed.

End Passes.

End PassFacts.

(** * The document under the passes *)

Module DomFacts.

Import Dom Laws.

Lemma node_rect_contents (P : node -> Prop) :
  (forall s, P (Text s)) ->
  (forall name attrs contents, Forall P contents -> P (Tag name attrs contents)) ->
  forall n, P n.
Proof.
  intros HText HTag. fix IH 1. intros [s | name attrs contents]; [apply HText | ].
  apply HTag. induction contents as [| c rest IHrest]; constructor; [apply IH | exact IHrest].
Qed.

Lemma flat_map_alter {A B} (h : A -> list B) (g : A -> A) l :
  (forall x, h (g x) = h x) -> forall i, flat_map h (alter g i l) = flat_map h l.
Proof.
  intros Hg. induction l as [| x rest IH]; intros [| i]; cbn; try reflexivity.
  - rewrite Hg. reflexivity.
  - change (list_alter g i rest) with (alter g i rest). rewrite IH. reflexivity.
Qed.

(** An update that keeps the strings of the element it rewrites keeps the
    strings of the document. *)
Lemma all_texts_update_at f :
  (forall m, all_texts (f m) = all_texts m) ->
  forall p n, all_texts (update_at f p n) = all_texts n.
Proof.
  intros Hf. induction p as [| i p IH]; intros n; [apply Hf | ].
  destruct n as [s | name attrs contents]; [reflexivity | ].
  cbn [update_at all_texts]. apply flat_map_alter. exact IH.
Qed.

Lemma all_texts_set_attr k v m : all_texts (set_attr k v m) = all_texts m.
Proof. destruct m; reflexivity. Qed.

Lemma all_texts_wrap name attrs m : all_texts (wrap name attrs m) = all_texts m.
Proof. cbn. apply app_nil_r. Qed.

Lemma lookup_store_same k v attrs : lookup_attr k (store_attr k v attrs) = Some v.
Proof.
  induction attrs as [| [k0 v0] rest IH]; cbn.
  - rewrite String.eqb_refl. reflexivity.
  - destruct (String.eqb_spec k k0) as [-> | Hne]; cbn.
    + rewrite String.eqb_refl. reflexivity.
    + destruct (String.eqb_spec k k0); [contradiction | exact IH].
Qed.

Lemma lookup_store_other k k' v attrs :
  k <> k' -> lookup_attr k (store_attr k' v attrs) = lookup_attr k attrs.
Proof.
  intros Hne. induction attrs as [| [k0 v0] rest IH]; cbn.
  - destruct (String.eqb_spec k k'); [contradiction | reflexivity].
  - destruct (String.eqb_spec k' k0) as [-> | Hk0]; cbn.
    + destruct (String.eqb_spec k k0); [contradiction | reflexivity].
    + destruct (String.eqb_spec k k0); [reflexivity | exact IH].
Qed.

Lemma get_at_update_at f p : forall n m,
  get_at p n = Some m -> get_at p (update_at f p n) = Some (f m).
Proof.
  induction p as [| i p IH]; intros n m H.
  - cbn in *. injection H as ->. reflexivity.
  - destruct n as [s | name attrs contents]; [discriminate | ].
    cbn [get_at update_at] in *.
    destruct (contents !! i) as [c | ] eqn:Ec; [ | discriminate].
    rewrite list_lookup_alter_eq, Ec. cbn. apply IH. exact H.
Qed.

Lemma attrs_of_update_append child h n :
  attrs_of (update_at (Parser.append_node child) h n) = attrs_of n.
Proof. destruct h; destruct n; reflexivity. Qed.

(** Appending a child somewhere in the document leaves every element that
    was there at its address, with its attributes. *)
Lemma get_at_update_append child b : forall h n m,
  get_at b n = Some m ->
  exists m', get_at b (update_at (Parser.append_node child) h n) = Some m'
             /\ attrs_of m' = attrs_of m.
Proof.
  induction b as [| i b IH]; intros h n m H.
  - cbn in H. injection H as ->. eexists. split; [reflexivity | ].
    apply attrs_of_update_append.
  - destruct n as [s | name attrs contents]; [discriminate | ].
    cbn [get_at] in H. destruct (contents !! i) as [c | ] eqn:Ec; [ | discriminate].
    destruct h as [| j h].
    + cbn [update_at Parser.append_node get_at].
      rewrite (lookup_app_l_Some _ _ _ _ Ec). exists m. split; [exact H | reflexivity].
    + cbn [update_at get_at]. destruct (decide (j = i)) as [-> | Hne].
      * rewrite list_lookup_alter_eq, Ec. cbn. apply IH. exact H.
      * rewrite list_lookup_alter_ne by exact Hne. rewrite Ec.
        exists m. split; [exact H | reflexivity].
Qed.

(** The addresses that [descendants_at] lists lead to the elements it
    lists them with. *)
Lemma descendants_at_valid n : forall here p m,
  In (p, m) (descendants_at here n) ->
  exists q, p = (here ++ q)%list /\ get_at q n = Some m.
Proof.
  induction n as [s | name attrs contents IH] using node_rect_contents;
    intros here p m Hin; [destruct Hin | ].
  cbn [descendants_at] in Hin.
  assert (Hwalk : forall i cs,
             Forall (fun c => forall here p m,
                                In (p, m) (descendants_at here c) ->
                                exists q, p = (here ++ q)%list /\ get_at q c = Some m) cs ->
             In (p, m)
               ((fix walk (i : nat) (cs : list node) : list (path * node) :=
                   match cs with
                   | [] => []
                   | c :: rest =>
                       ((((here ++ [i])%list, c) :: descendants_at (here ++ [i])%list c)
                        ++ walk (S i) rest)%list
                   end) i cs) ->
             exists k c q, cs !! k = Some c /\ p = (here ++ (i + k)%nat :: q)%list
                           /\ get_at q c = Some m).
  { intros i cs. revert i. induction cs as [| c rest IHrest]; intros i HF Hp; [destruct Hp | ].
    apply in_app_or in Hp as [[Hp | Hp] | Hp].
    - injection Hp as <- <-. exists O, c, []. rewrite Nat.add_0_r. repeat split.
    - destruct (List.Forall_inv HF _ _ _ Hp) as (q & -> & Hq).
      exists O, c, q. rewrite Nat.add_0_r. repeat split; [ | exact Hq].
      rewrite <- app_assoc. reflexivity.
    - destruct (IHrest (S i) (List.Forall_inv_tail HF) Hp) as (k & c' & q & Hk & -> & Hq).
      exists (S k), c', q. repeat split; [exact Hk | | exact Hq].
      replace (i + S k)%nat with (S i + k)%nat by lia. reflexivity. }
  destruct (Hwalk O contents IH Hin) as (k & c & q & Hk & -> & Hq).
  exists (k :: q). split; [reflexivity | ]. cbn [get_at]. rewrite Hk. exact Hq.
Qed.

Lemma find_all_valid names root p :
  In p (find_all names [] root) ->
  exists name attrs contents, get_at p root = Some (Tag name attrs contents).
Proof.
  unfold find_all. cbn [get_at]. intros Hin.
  apply in_map_iff in Hin as ([p' m] & <- & Hin). cbn [fst].
  apply filter_In in Hin as [Hin Htag]. cbn [snd] in Htag.
  destruct (descendants_at_valid root [] p' m Hin) as (q & -> & Hq). cbn [app].
  destruct m as [s | name attrs contents]; [discriminate | ]. eauto.
Qed.

End DomFacts.

(** * Trees and documents that the parser returns *)

Section ParsedTrees.

Import Eff Parser Spec Laws ParserFacts ShapeFacts.

Context (bs4 : Bs4).

(** X14. The tree that [parse_document_structure] returns is the root, a
    section of depth zero, with children of three shapes and no other: a
    tree of table nodes none of which is deeper than [MAX_NESTING_DEPTH],
    a conditional node without children that carries its dictionary, or a
    mixed node without children at depth one.  Nothing is ever put under a
    conditional or a mixed node. *)
Theorem parsed_tree_has_three_shapes content p root enhanced p' :
  parse_document_structure bs4 content p = (Returned (root, enhanced), p') ->
  type root = SECTION /\ depth root = 0
  /\ Parser.content root = ContentStr "document_root"
  /\ conditional_info root = None
  /\ forallb parser_node (children root) = true.
Proof.
  intros H.
  destruct (parse_document_structure_makes_parser_nodes bs4 content p _ p' H)
    as (added & Hroot & Hadded).
  cbn [fst] in Hroot. subst root. cbn. auto.
Qed.

(** X15. In the summary that [validate_structure] gives of a tree that
    [parse_document_structure] returned, the counts by type add up: the
    total is the root and the table, conditional and mixed nodes. *)
Theorem parsed_tree_counts_add_up content p root enhanced p' :
  parse_document_structure bs4 content p = (Returned (root, enhanced), p') ->
  let summary := structure_summary (validate_structure root) in
  total_nodes summary
  = 1 + table_nodes summary + conditional_nodes summary + mixed_nodes summary.
Proof.
  intros H.
  destruct (parse_document_structure_makes_parser_nodes bs4 content p _ p' H)
    as (added & Hroot & Hadded).
  cbn [fst] in Hroot. subst root. cbv zeta. unfold validate_structure.
  destruct (_find_unclosed_conditionals _); cbn [structure_summary total_nodes table_nodes
    conditional_nodes mixed_nodes]; apply count_parsed_root; exact Hadded.
Qed.

(** X16. [validate_structure] never warns of a mixed structure in a tree
    that [parse_document_structure] returned, since a mixed node is made at
    depth one: after the warning about the depth of the whole structure,
    if there is one, every warning is about a table, at a depth from six
    to [MAX_NESTING_DEPTH]. *)
Theorem parsed_tree_warnings_are_about_tables content p root enhanced p' :
  parse_document_structure bs4 content p = (Returned (root, enhanced), p') ->
  Forall table_warning (_find_invalid_nesting root)
  /\ exists depth_warning,
       warnings (validate_structure root) = (depth_warning ++ _find_invalid_nesting root)%list
       /\ (length depth_warning <= 1)%nat
       /\ (depth_warning = [] <-> _calculate_max_depth root <= MAX_NESTING_DEPTH).
Proof.
  intros H.
  destruct (parse_document_structure_makes_parser_nodes bs4 content p _ p' H)
    as (added & Hroot & Hadded).
  cbn [fst] in Hroot. split.
  - subst root. clear H. unfold document_root. cbn [add_children app _find_invalid_nesting
      StructureType_eqb andb].
    induction added as [| x rest IH]; [constructor | ].
    cbn [forallb] in Hadded. apply andb_prop in Hadded as [Hx Hrest].
    cbn [flat_map]. apply Forall_app. split; [ | apply IH, Hrest].
    apply invalid_nesting_parser_node, Hx.
  - exists (if MAX_NESTING_DEPTH <? _calculate_max_depth root
            then ["Structure depth " +:+ str_int (_calculate_max_depth root)
                  +:+ " exceeds recommended maximum " +:+ str_int MAX_NESTING_DEPTH]
            else []).
    split.
    { unfold validate_structure. destruct (_find_unclosed_conditionals root); reflexivity. }
    destruct (MAX_NESTING_DEPTH <? _calculate_max_depth root) eqn:Hd.
    + apply Z.ltb_lt in Hd. split; [cbn; lia | ]. split; [discriminate | lia].
    + apply Z.ltb_ge in Hd. split; [cbn; lia | ]. split; [intros _; exact Hd | reflexivity].
Qed.

End ParsedTrees.

Section Passes.

Import Eff Parser Spec Laws EffFacts KeepsFacts PassFacts DomFacts.

(** X17. None of the three passes over the document changes its text: the
    strings of the document after the walk over the tables, after the
    marking of the conditional blocks and after the marking of mixed
    content are the strings before it, in the same order, however the pass
    ends. *)
Theorem passes_keep_the_text at_path depth parent w :
  all_texts (soup (snd (_process_nested_tables at_path parent depth w)))
  = all_texts (soup w)
  /\ all_texts (soup (snd (_process_conditional_blocks parent w))) = all_texts (soup w)
  /\ all_texts (soup (snd (_process_mixed_content parent w))) = all_texts (soup w).
Proof.
  set (P := fun w' : Work => all_texts (soup w') = all_texts (soup w)).
  assert (Hattr : forall p k v w', P w' ->
                    P (set_soup (Dom.update_at (Dom.set_attr k v) p) w')).
  { intros p k v w' Hw'. unfold P in *. cbn [soup set_soup].
    rewrite all_texts_update_at; [exact Hw' | apply all_texts_set_attr]. }
  assert (Hwrap : forall p attrs w', P w' ->
                    P (set_soup (Dom.update_at (Dom.wrap "div" attrs) p) w')).
  { intros p attrs w' Hw'. unfold P in *. cbn [soup set_soup].
    rewrite all_texts_update_at; [exact Hw' | apply all_texts_wrap]. }
  repeat split.
  - apply (keeps_process_nested_tables P); auto. reflexivity.
  - apply (keeps_process_conditional_blocks P); auto. reflexivity.
  - apply (keeps_process_mixed_content P); auto. reflexivity.
Qed.

End Passes.

(** * Metadata and running totals *)

Module MetadataFacts.

Import Eff Parser Spec Laws EffFacts KeepsFacts PassFacts DomFacts.

(** [_add_structure_metadata] changes the document only. *)
Lemma add_structure_metadata_keeps_parser (Q : Parser -> Prop) :
  keeps (fun w => Q (self w)) _add_structure_metadata.
Proof.
  unfold _add_structure_metadata.
  apply keeps_bind; [apply keeps_gets | intros body].
  apply keeps_bind.
  - destruct body as [body | ]; [ | apply keeps_ret].
    apply keeps_bind; [apply keeps_gets | intros stats].
    repeat (apply keeps_bind; [apply keeps_modify; auto | intros _]).
    apply keeps_modify; auto.
  - intros _. apply keeps_bind; [apply keeps_gets | intros head_tag].
    destruct head_tag; [apply keeps_modify; auto | apply keeps_ret].
Qed.

Lemma add_structure_metadata_returns w : fst (_add_structure_metadata w) = Returned tt.
Proof.
  unfold _add_structure_metadata, bind, gets, set_attr_at, modify, ret. cbv beta iota.
  destruct (head (Dom.find_all ["body"] [] (soup w))); cbv beta iota;
    match goal with
    | |- context [head (Dom.find_all ["head"] [] ?s)] =>
        destruct (head (Dom.find_all ["head"] [] s))
    end; reflexivity.
Qed.

(** What [_add_structure_metadata] writes on the first [body] element. *)
Lemma add_structure_metadata_marks_body w body :
  head (Dom.find_all ["body"] [] (soup w)) = Some body ->
  exists element,
    Dom.get_at body (soup (snd (_add_structure_metadata w))) = Some element
    /\ Dom.get "data-structure-parsed" element = Some "true"
    /\ Dom.get "data-max-depth" element
       = Some (str_int (max_depth_reached (statistics (self w))))
    /\ Dom.get "data-table-count" element
       = Some (str_int (tables_parsed (statistics (self w))))
    /\ Dom.get "data-conditional-count" element
       = Some (str_int (conditionals_parsed (statistics (self w)))).
Proof.
  intros Hbody.
  assert (Hin : In body (Dom.find_all ["body"] [] (soup w))).
  { destruct (Dom.find_all ["body"] [] (soup w)); [discriminate | ].
    injection Hbody as ->. left. reflexivity. }
  destruct (find_all_valid _ _ _ Hin) as (name & attrs & contents & Hat).
  unfold _add_structure_metadata, bind at 1, gets at 1. rewrite Hbody.
  unfold bind at 1. unfold bind at 1, gets at 1. cbn beta iota.
  unfold set_attr_at, bind, modify, gets, ret. cbn beta iota.
  set (marked :=
         Dom.set_attr "data-conditional-count"
           (str_int (conditionals_parsed (statistics (self w))))
           (Dom.set_attr "data-table-count" (str_int (tables_parsed (statistics (self w))))
              (Dom.set_attr "data-max-depth"
                 (str_int (max_depth_reached (statistics (self w))))
                 (Dom.set_attr "data-structure-parsed" "true"
                    (Dom.Tag name attrs contents))))).
  match goal with
  | |- context [head (Dom.find_all ["head"] [] (soup ?w4))] =>
      assert (Hmarked : Dom.get_at body (soup w4) = Some marked);
      [ | destruct (head (Dom.find_all ["head"] [] (soup w4))) as [head_tag | ] ]
  end.
  { cbn [soup set_soup set_statistics self]. subst marked.
    do 4 apply get_at_update_at. exact Hat. }
  - cbn [snd soup set_soup].
    destruct (get_at_update_append
                (Dom.Tag "style" [] [Dom.Text structure_css]) body head_tag _ _ Hmarked)
      as (element & Hel & Hattrs).
    exists element. split; [exact Hel | ]. unfold Dom.get. rewrite Hattrs.
    subst marked. cbn [Dom.set_attr Dom.attrs_of].
    repeat split;
      repeat first [apply lookup_store_same
                   | rewrite lookup_store_other by discriminate].
  - cbn [snd]. exists marked. split; [exact Hmarked | ].
    unfold Dom.get. subst marked. cbn [Dom.set_attr Dom.attrs_of].
    repeat split;
      repeat first [apply lookup_store_same
                   | rewrite lookup_store_other by discriminate].
Qed.

End MetadataFacts.

Section Metadata.

Import Eff Parser Spec Laws EffFacts KeepsFacts PassFacts DomFacts MetadataFacts.

Context (bs4 : Bs4).

(** X18. The attributes that [_parse_html_structure] writes on the [body]
    element are written before the depth of the document is known.  The
    HTML it returns is the document with the metadata added, and on the
    first [body] element of that document [data-max-depth] is the
    [max_depth_reached] that the parser had when the call began, which the
    call itself leaves as it is, while [data-table-count] and
    [data-conditional-count] are the running totals of the parser after
    the passes over this document. *)
Theorem body_metadata_precedes_the_depth html parent p r p' :
  _parse_html_structure bs4 html parent p = (Returned r, p') ->
  max_depth_reached (statistics p') = max_depth_reached (statistics p)
  /\ exists w,
       self w = p'
       /\ snd r = bs4_str bs4 (soup (snd (_add_structure_metadata w)))
       /\ forall body,
            head (Dom.find_all ["body"] [] (soup w)) = Some body ->
            exists element,
              Dom.get_at body (soup (snd (_add_structure_metadata w))) = Some element
              /\ Dom.get "data-structure-parsed" element = Some "true"
              /\ Dom.get "data-max-depth" element
                 = Some (str_int (max_depth_reached (statistics p)))
              /\ Dom.get "data-table-count" element
                 = Some (str_int (tables_parsed (statistics p')))
              /\ Dom.get "data-conditional-count" element
                 = Some (str_int (conditionals_parsed (statistics p'))).
Proof.
  unfold _parse_html_structure. intros H.
  apply bind_returned in H as (tree & p0 & Hparse & H).
  apply lift_returned in Hparse as [_ ->].
  set (P := fun w : Work =>
              max_depth_reached (statistics (self w)) = max_depth_reached (statistics p)).
  assert (Hkeeps1 := keeps_process_nested_tables P).
  assert (Hkeeps2 := keeps_process_conditional_blocks P).
  assert (Hkeeps3 := keeps_process_mixed_content P).
  destruct (_process_nested_tables [] parent 0 (MkWork p tree)) as [o1 w1] eqn:E1.
  assert (H1 : P w1).
  { change w1 with (snd (o1, w1)). rewrite <- E1. apply Hkeeps1; auto. reflexivity. }
  unfold bind at 1 in H. rewrite E1 in H.
  destruct o1 as [parent1 | e | ]; try discriminate.
  destruct (_process_conditional_blocks parent1 w1) as [o2 w2] eqn:E2.
  assert (H2 : P w2).
  { change w2 with (snd (o2, w2)). rewrite <- E2. apply Hkeeps2; auto. }
  unfold bind at 1 in H. rewrite E2 in H.
  destruct o2 as [parent2 | e | ]; try discriminate.
  destruct (_process_mixed_content parent2 w2) as [o3 w3] eqn:E3.
  assert (H3 : P w3).
  { change w3 with (snd (o3, w3)). rewrite <- E3. apply Hkeeps3; auto. }
  unfold bind at 1 in H. rewrite E3 in H.
  destruct o3 as [parent3 | e | ]; try discriminate.
  assert (Hself := add_structure_metadata_keeps_parser (fun q => q = self w3) w3 eq_refl).
  assert (Hret := add_structure_metadata_returns w3).
  unfold bind at 1 in H.
  destruct (_add_structure_metadata w3) as [o4 w4] eqn:E4. cbn [fst snd] in Hself, Hret.
  subst o4. cbn in H. injection H as <- <-.
  rewrite Hself. split; [exact H3 | ].
  exists w3. split; [reflexivity | ]. rewrite E4. cbn [snd]. split; [reflexivity | ].
  intros body Hbody.
  destruct (add_structure_metadata_marks_body w3 body Hbody) as (element & Hel & Hattrs).
  rewrite E4 in Hel. cbn [snd] in Hel. exists element. split; [exact Hel | ].
  rewrite <- H3. exact Hattrs.
Qed.

(** X19. The counters of the parser are running totals.  A call of
    [parse_document_structure] never lowers [tables_parsed],
    [conditionals_parsed], [nested_structures] or [complex_structures] and
    never removes a warning from the log, however it ends: what
    [get_statistics] returns counts every document that the parser has
    seen. *)
Theorem parser_counters_accumulate content p :
  let p' := snd (parse_document_structure bs4 content p) in
  counters_grow (get_statistics p) (get_statistics p')
  /\ exists more, logged p' = (logged p ++ more)%list.
Proof.
  set (Q := parser_grows p).
  assert (Hcount : forall f q,
             (forall s, counters_grow (statistics p) s -> counters_grow (statistics p) (f s)) ->
             Q q -> Q (MkParser (f (statistics q)) (logged q))).
  { intros f q Hf [Hc Hl]. split; [apply Hf, Hc | exact Hl]. }
  assert (Hincr : forall f,
             In f [incr_tables_parsed; incr_conditionals_parsed; incr_nested_structures;
                   incr_complex_structures] ->
             forall s, counters_grow (statistics p) s -> counters_grow (statistics p) (f s)).
  { intros f Hf s (C1 & C2 & C3 & C4).
    cbn in Hf. decompose [or] Hf; subst; try contradiction; repeat split; cbn; lia. }
  assert (Hwork : forall f,
             In f [incr_tables_parsed; incr_conditionals_parsed; incr_nested_structures;
                   incr_complex_structures] ->
             forall w, Q (self w) -> Q (self (set_statistics f w))).
  { intros f Hf w Hw. apply Hcount; [apply Hincr, Hf | exact Hw]. }
  assert (Hlog : forall msg w, Q (self w) -> Q (self (log_warning msg w))).
  { intros msg w [Hc [more Hl]]. split; [exact Hc | ].
    exists (more ++ [msg])%list. cbn. rewrite Hl, app_assoc. reflexivity. }
  assert (Hsoup : forall f w, Q (self w) -> Q (self (set_soup f w))).
  { intros f w Hw. exact Hw. }
  assert (Hkeeps : keeps Q (parse_document_structure bs4 content)).
  { unfold parse_document_structure.
    destruct (negb (PyStr.truthy content)); [apply keeps_ret | ].
    apply keeps_bind.
    - destruct (_ && _).
      + unfold _parse_html_structure.
        apply keeps_bind; [apply keeps_lift | intros tree].
        intros q Hq.
        match goal with
        | |- Q (snd (let '(o, w) := ?run ?w0 in _)) =>
            assert (Hrun : keeps (fun w => Q (self w)) run);
            [ | specialize (Hrun w0 Hq); destruct (run w0) as [o w]; exact Hrun ]
        end.
        apply keeps_bind; [ | intros parent1].
        { apply keeps_process_nested_tables;
            [apply Hwork | apply Hwork | exact Hlog | intros; apply Hsoup; assumption];
            cbn; tauto. }
        apply keeps_bind; [ | intros parent2].
        { apply keeps_process_conditional_blocks;
            [apply Hwork | apply Hwork | intros; apply Hsoup; assumption
            | intros; apply Hsoup; assumption];
            cbn; tauto. }
        apply keeps_bind; [ | intros parent3].
        { apply keeps_process_mixed_content;
            [apply Hwork | intros; apply Hsoup; assumption]; cbn; tauto. }
        apply keeps_bind; [apply (add_structure_metadata_keeps_parser Q) | intros _].
        apply keeps_bind; [apply keeps_gets | intros; apply keeps_ret].
      + apply keeps_bind; [ | intros; apply keeps_ret].
        unfold _parse_text_structure.
        apply keeps_bind; [ | intros; apply keeps_ret].
        apply keeps_foldM. intros lines line.
        destruct (is_conditional_line line); [ | apply keeps_ret].
        apply keeps_bind; [ | intros; apply keeps_ret].
        apply keeps_modify. intros q Hq. apply Hcount; [ | exact Hq].
        apply Hincr. cbn. tauto.
    - intros [root enhanced].
      apply keeps_bind; [ | intros; apply keeps_ret].
      apply keeps_modify. intros q Hq. apply Hcount; [ | exact Hq].
      intros s (C1 & C2 & C3 & C4). repeat split; assumption. }
  cbv zeta. destruct (Hkeeps p) as [Hc Hl]; [ | split; [exact Hc | exact Hl]].
  split; [repeat split; lia | exists []; rewrite app_nil_r; reflexivity].
Qed.

End Metadata.

(** * Lines that count as conditionals *)

Section ConditionalLines.

Import Eff Parser Spec Laws PyStrFacts.

Lemma search_finds p s : forall n m,
  Re.match_here p (PyStr.drop n s) = Some m -> exists m', Re.search p s = Some m'.
Proof.
  induction s as [| c t IH]; intros n m H.
  - destruct n; cbn in H |- *; rewrite H; eauto.
  - cbn [Re.search]. destruct (Re.match_here p (String c t)) as [m0 | ] eqn:E; [eauto | ].
    destruct n as [| n]; [cbn in H; congruence | ].
    cbn [PyStr.drop] in H. exact (IH n m H).
Qed.

Lemma drop_append before : forall rest,
  PyStr.drop (String.length before) (before +:+ rest) = rest.
Proof. induction before as [| c before IH]; intros rest; [reflexivity | apply IH]. Qed.

Lemma strip_prefix_ci_lower lit : forall word rest,
  PyStr.lower word = PyStr.lower lit ->
  Re.strip_prefix_ci lit (word +:+ rest) = Some rest.
Proof.
  induction lit as [| a lit IH]; intros [| b word] rest H; try discriminate; [reflexivity | ].
  cbn [PyStr.lower] in H. injection H as Hc Hrest.
  rewrite append_cons. cbn [Re.strip_prefix_ci]. rewrite Hc, Ascii.eqb_refl.
  apply IH. exact Hrest.
Qed.

(** A pattern [first|word|WORD] under [IGNORECASE] matches where the word
    stands in any letter case. *)
Lemma keyword_matches first lit upper word rest :
  PyStr.lower word = PyStr.lower lit ->
  exists m,
    Re.match_here (Re.compile_i (Re.Alt first (Re.Alt (Re.Lit lit) (Re.Lit upper))))
      (word +:+ rest) = Some m.
Proof.
  intros Hword. unfold Re.match_here, Re.compile_i.
  cbn [Re.expr Re.ignorecase Re.dotall Re.run].
  rewrite (strip_prefix_ci_lower lit word rest Hword).
  match goal with
  | |- exists m, match ?r with _ => _ end = _ => destruct r; eauto
  end.
Qed.

Lemma keyword_line before word after :
  PyStr.lower word = "else" \/ PyStr.lower word = "endif" ->
  is_conditional_line (before +:+ word +:+ after) = true.
Proof.
  intros Hword. unfold is_conditional_line. apply existsb_exists.
  destruct Hword as [Hword | Hword].
  - destruct (keyword_matches
                (Re.cat [Re.Lit "{%"; spaces; Re.Lit "else"; spaces; Re.Lit "%}"])
                "else" "ELSE" word after Hword) as [m Hm].
    rewrite <- (drop_append before (word +:+ after)) in Hm.
    destruct (search_finds _ _ _ _ Hm) as [m' Hsearch].
    eexists (_, _). split; [do 4 right; left; reflexivity | ].
    cbn [snd]. rewrite Hsearch. reflexivity.
  - destruct (keyword_matches
                (Re.cat [Re.Lit "{%"; spaces; Re.Lit "endif"; spaces; Re.Lit "%}"])
                "endif" "ENDIF" word after Hword) as [m Hm].
    rewrite <- (drop_append before (word +:+ after)) in Hm.
    destruct (search_finds _ _ _ _ Hm) as [m' Hsearch].
    eexists (_, _). split; [do 3 right; left; reflexivity | ].
    cbn [snd]. rewrite Hsearch. reflexivity.
Qed.

Lemma filter_holds {A} (f : A -> bool) x l :
  In x l -> f x = true -> (0 < length (List.filter f l))%nat.
Proof.
  intros Hin Hx. assert (H : In x (List.filter f l)) by (apply filter_In; auto).
  destruct (List.filter f l); [destruct H | cbn; lia].
Qed.

(** X20. The patterns for [else] and [endif] match inside words and in
    any letter case.  A line of plain text that holds the letters of one of
    the two anywhere, as in [Chelsea], counts as a conditional line:
    [_parse_text_structure] raises [conditionals_parsed] for it. *)
Theorem keyword_inside_a_word_makes_a_conditional_line text parent p line before word after :
  In line (PyStr.split_on (PyStr.chr 10) text) ->
  line = before +:+ word +:+ after ->
  PyStr.lower word = "else" \/ PyStr.lower word = "endif" ->
  is_conditional_line line = true
  /\ conditionals_parsed (statistics p)
     < conditionals_parsed (statistics (snd (_parse_text_structure text parent p))).
Proof.
  intros Hin -> Hword.
  assert (Hline := keyword_line before word after Hword).
  split; [exact Hline | ].
  unfold _parse_text_structure, bind. rewrite parse_text_lines.
  cbn [snd ret statistics conditionals_parsed].
  assert (H := filter_holds is_conditional_line _ _ Hin Hline). lia.
Qed.

End ConditionalLines.

(** * The dependency graph *)

Section Dependencies.

Import Eff Resolver Spec Laws EffFacts ResolverFacts.

Context (env : Env).

(** The references under [doc_path] in the dependency graph. *)
Local Abbreviation recorded :=
  (fun (doc_path ref_path : string) (st : Resolver) =>
     exists deps, dependency_graph st !! doc_path = Some deps /\ ref_path ∈ deps).

Lemma recorded_kept fuel doc_path ref_path ref_type ref depth st :
  recorded doc_path ref_path st ->
  recorded doc_path ref_path
    (snd (_resolve_single_reference env (resolve_document_fuel env fuel) ref_type ref
            depth st)).
Proof.
  apply (resolve_single_reference_keeps env (recorded doc_path ref_path)); auto.
  intros s doc r (deps & Hd & Hin). cbn [dependency_graph set_dependency_graph].
  unfold add_dependency. destruct (decide (doc = doc_path)) as [-> | Hne].
  - rewrite lookup_insert_eq. eexists. split; [reflexivity | ]. rewrite Hd. cbn. set_solver.
  - rewrite lookup_insert_ne by exact Hne. eauto.
Qed.

Lemma resolve_references_record fuel doc_path depth refs :
  forall html resolved failed st html' resolved' failed' st',
    foldM (resolve_reference env (resolve_document_fuel env fuel) doc_path depth)
      (html, resolved, failed) refs st
    = (Returned (html', resolved', failed'), st') ->
    (forall ref_path, recorded doc_path ref_path st -> recorded doc_path ref_path st')
    /\ (resolved < resolved' ->
        exists ref, In ref refs /\ recorded doc_path (snd ref) st').
Proof.
  induction refs as [| [ref_type ref_path] rest IH];
    intros html resolved failed st html' resolved' failed' st' H.
  - apply ret_returned in H as [[= -> -> ->] ->]. split; [auto | lia].
  - cbn [foldM] in H. apply bind_returned in H as ([[h1 r1] f1] & s1 & H1 & H).
    destruct (IH _ _ _ _ _ _ _ _ H) as [Hkeep Hnew]. clear IH.
    unfold resolve_reference in H1.
    apply bind_returned in H1 as (res & s2 & H2 & H1).
    assert (Hkeep2 : forall r, recorded doc_path r st -> recorded doc_path r s2).
    { intros r Hr.
      assert (K := recorded_kept fuel doc_path r ref_type ref_path (depth + 1) st Hr).
      rewrite H2 in K. exact K. }
    destruct (truthy_opt res).
    + apply bind_returned in H1 as (h & s3 & H3 & H1).
      apply embed_content_returned in H3 as ->.
      apply bind_returned in H1 as (u & s4 & H4 & H1).
      cbn in H4. injection H4 as <- <-. apply ret_returned in H1 as [[= -> -> ->] ->].
      assert (Hadd : forall r, recorded doc_path r s2 ->
                       recorded doc_path r
                         (set_dependency_graph (add_dependency doc_path ref_path) s2)).
      { intros r (deps & Hd & Hin). cbn [dependency_graph set_dependency_graph].
        unfold add_dependency. rewrite lookup_insert_eq. eexists. split; [reflexivity | ].
        rewrite Hd. cbn. set_solver. }
      split; [auto | ]. intros _.
      exists (ref_type, ref_path). split; [left; reflexivity | ]. cbn [snd].
      apply Hkeep. cbn [dependency_graph set_dependency_graph]. unfold add_dependency.
      rewrite lookup_insert_eq. eexists. split; [reflexivity | set_solver].
    + apply bind_returned in H1 as (u & s4 & H4 & H1).
      cbn in H4. injection H4 as <- <-. apply ret_returned in H1 as [[= -> -> ->] ->].
      split.
      * intros r Hr. apply Hkeep. destruct (Hkeep2 r Hr) as (deps & Hd & Hin).
        exists deps. auto.
      * intros Hlt. destruct (Hnew Hlt) as (ref & Hin & Hrec).
        exists ref. split; [right; exact Hin | exact Hrec].
Qed.

(** X21. When [resolve_document] reports that it resolved a reference,
    [get_dependency_graph] lists a dependency of the document: the
    identifier of one of the references that [_extract_references] found
    in it.  The list of a document holds no identifier twice. *)
Theorem resolved_reference_is_recorded doc_path html_content depth st html' stats st'
    resolved :
  resolve_document env doc_path html_content depth st = (Returned (html', stats), st') ->
  dict_get "resolved" stats = Some (PInt resolved) ->
  0 < resolved ->
  exists ref dependencies,
    In ref (_extract_references env html_content)
    /\ get_dependency_graph st' !! doc_path = Some dependencies
    /\ snd ref ∈ dependencies
    /\ NoDup dependencies.
Proof.
  unfold resolve_document, depth_budget. cbn [resolve_document_fuel].
  set (fuel := Z.to_nat (max_depth st - depth)).
  unfold resolve_document_body, bind at 1, gets. cbn beta iota.
  destruct (max_depth st <? depth).
  { intros [= <- <- <-]. discriminate. }
  unfold bind at 1. cbn beta iota.
  destruct (bool_decide _).
  { intros [= <- <- <-]. discriminate. }
  unfold bind at 1, modify at 1. cbn beta iota.
  unfold bind at 1, modify at 1. cbn beta iota.
  set (st1 := set_statistics incr_total_resolutions _).
  unfold try_finally. intros H Hresolved Hpos.
  destruct (_extract_references env html_content) as [| r rs] eqn:Er.
  { cbn in H. destruct (pop_resolution_stack st1) as [[u | e | ] st2]; try discriminate.
    injection H as <- <- <-. discriminate. }
  rewrite <- Er in *.
  match type of H with
  | context [bind ?m ?f st1] => destruct (bind m f st1) as [o st2] eqn:Ebody
  end.
  destruct (pop_resolution_stack st2) as [[u | e | ] st3] eqn:Epop; try discriminate.
  injection H as -> <-.
  assert (Hst3 : dependency_graph st3 = dependency_graph st2).
  { unfold pop_resolution_stack in Epop.
    destruct (resolution_stack st2); inversion Epop; reflexivity. }
  apply bind_returned in Ebody as ([[h1 r1] f1] & s1 & Hloop & Hret).
  apply ret_returned in Hret as [[= -> ->] ->].
  cbn in Hresolved. injection Hresolved as ->.
  destruct (resolve_references_record _ _ _ _ _ _ _ _ _ _ _ _ Hloop) as [_ Hnew].
  destruct (Hnew Hpos) as (ref & Hin & deps & Hd & Href).
  exists ref, (elements deps). split; [exact Hin | ].
  unfold get_dependency_graph. rewrite lookup_fmap, Hst3, Hd. cbn.
  split; [reflexivity | ]. split; [apply elem_of_elements, Href | apply NoDup_elements].
Qed.

End Dependencies.

(** * Runs of the further properties *)

Section FurtherRuns.

Import Eff Resolver Parser Spec Laws.

(** A quoted name is found under the base path. *)
Lemma resolve_path_returns_existing_path_witness :
  _resolve_path Sample.env "'a.html'" Sample.fresh
  = (Returned (Some "/base/a.html"), Sample.fresh)
  /\ path_exists Sample.env "/base/a.html" = inr true.
Proof.
  assert (Hrun : _resolve_path Sample.env "'a.html'" Sample.fresh
                 = (Returned (Some "/base/a.html"), Sample.fresh))
    by (vm_compute; reflexivity).
  split; [exact Hrun | ].
  exact (proj2 (resolve_path_returns_existing_path Sample.env "'a.html'" Sample.fresh
                  (Some "/base/a.html") Sample.fresh Hrun)).
Defined.

(** The block [footer] is found in a file whose name holds it in another
    letter case. *)
Lemma find_content_block_file_returns_named_file_witness :
  exists dir file,
    In dir (content_block_dirs Runs.block_env "/base")
    /\ path_exists Runs.block_env dir = inr true
    /\ In (inr file) (path_rglob_docx Runs.block_env dir)
    /\ names_block Runs.block_env "footer" file = true
    /\ path_relative_to Runs.block_env file "/base"
       = inr "Content Blocks/Office Footer.docx".
Proof.
  assert (Hrun : _find_content_block_file Runs.block_env "footer" Sample.fresh
                 = (Returned (Some "Content Blocks/Office Footer.docx"), Sample.fresh))
    by (vm_compute; reflexivity).
  exact (proj2 (find_content_block_file_returns_named_file Runs.block_env "footer"
                  Sample.fresh (Some "Content Blocks/Office Footer.docx") Sample.fresh Hrun)).
Defined.


(** The same document: one reference resolved, one failed. *)
Lemma resolution_statistics_add_up_witness :
  exists html' stats st',
    resolve_document Sample.env "main" "@include(a.html) and @include(missing.html)" 0
      Sample.fresh
    = (Returned (html', stats), st')
    /\ dict_get "references_found" stats = Some (PInt 2)
    /\ dict_get "resolved" stats = Some (PInt 1)
    /\ dict_get "failed" stats = Some (PInt 1)
    /\ failed_resolutions (Resolver.statistics st') = 1.
Proof.
  destruct (resolve_document Sample.env "main" "@include(a.html) and @include(missing.html)"
              0 Sample.fresh) as [[[html' stats] | e | ] st'] eqn:Hrun;
    try (vm_compute in Hrun; discriminate).
  exists html', stats, st'. split; [reflexivity | ].
  destruct (resolution_statistics_add_up Sample.env "main"
              "@include(a.html) and @include(missing.html)" 0 Sample.fresh html' stats st'
              Hrun) as (Hfound & _ & _).
  { vm_compute in Hrun. injection Hrun as _ <- _. reflexivity. }
  split.
  { rewrite Hfound. vm_compute. reflexivity. }
  vm_compute in Hrun. injection Hrun as _ <- <-. repeat split.
Defined.

(** A fragment that was in the cache is still there after a run that
    caches another. *)
Lemma resolve_document_keeps_cache_entries_witness :
  cache (snd (resolve_document Sample.env "main" "@include(a.html)" 0 Runs.warm))
    !! "old-key" = Some "<p>old</p>".
Proof.
  apply resolve_document_keeps_cache_entries. vm_compute. reflexivity.
Defined.

Lemma extracted_references_are_named_witness :
  In "include_directive" reference_kinds /\ "a.html" <> EmptyString.
Proof.
  apply (extracted_references_are_named Sample.env "see @include(a.html)").
  vm_compute. left. reflexivity.
Defined.

(** An include directive in the middle of a line. *)
Lemma embed_content_replaces_literal_text_witness :
  _embed_content Sample.env "see @include(a.html)!" "include_directive" "a.html" "<p>hi</p>"
    Sample.fresh
  = (Returned ("see " +:+ wrapped_content "include_directive" "a.html" "<p>hi</p>" +:+ "!"),
     Sample.fresh)
  /\ _embed_content Sample.env "see @INCLUDE(a.html)!" "include_directive" "a.html"
       "<p>hi</p>" Sample.fresh
     = (Returned "see @INCLUDE(a.html)!", Sample.fresh).
Proof.
  destruct (embed_content_replaces_literal_text Sample.env "see @include(a.html)!"
              "include_directive" "a.html" "<p>hi</p>" "@include(a.html)" Sample.fresh)
    as (_ & Hfound & _).
  { cbn. tauto. }
  destruct (embed_content_replaces_literal_text Sample.env "see @INCLUDE(a.html)!"
              "include_directive" "a.html" "<p>hi</p>" "@include(a.html)" Sample.fresh)
    as (Habsent & _ & _).
  { cbn. tauto. }
  split.
  - rewrite (Hfound 4%nat); [vm_compute; reflexivity | vm_compute; reflexivity].
  - apply Habsent. vm_compute. reflexivity.
Defined.


(** Two lines of plain text. *)
Lemma plain_text_adds_no_node_witness :
  exists enhanced,
    parse_document_structure Runs.bs4 ("a" +:+ PyStr.newline +:+ "b") Parser.init
    = (Returned (document_root, enhanced), Parser.init)
    /\ enhanced = "a" +:+ PyStr.newline +:+ "b".
Proof.
  destruct (plain_text_adds_no_node Runs.bs4 ("a" +:+ PyStr.newline +:+ "b") Parser.init)
    as (enhanced & Hrun & Hsame).
  - reflexivity.
  - reflexivity.
  - exists enhanced. split; [exact Hrun | ].
    apply Hsame. vm_compute. repeat constructor.
Defined.

(** A table in a table. *)
Lemma max_depth_reached_follows_the_tree_witness :
  max_depth_reached
    (Parser.statistics (snd (parse_document_structure Runs.bs4 Runs.table_html Parser.init)))
  = 2.
Proof.
  destruct (parse_document_structure Runs.bs4 Runs.table_html Parser.init)
    as [[[root enhanced] | e | ] p'] eqn:Hrun; try (vm_compute in Hrun; discriminate).
  destruct (max_depth_reached_follows_the_tree Runs.bs4 Runs.table_html Parser.init
              root enhanced p' Hrun) as [Hdepth _].
  cbn [snd]. rewrite Hdepth by reflexivity.
  vm_compute in Hrun. injection Hrun as <- _ _. vm_compute. reflexivity.
Defined.

Lemma parsed_tree_has_three_shapes_witness :
  exists root enhanced p',
    parse_document_structure Runs.bs4 Runs.table_html Parser.init
    = (Returned (root, enhanced), p')
    /\ Parser.type root = SECTION
    /\ forallb parser_node (Parser.children root) = true.
Proof.
  destruct (parse_document_structure Runs.bs4 Runs.table_html Parser.init)
    as [[[root enhanced] | e | ] p'] eqn:Hrun; try (vm_compute in Hrun; discriminate).
  exists root, enhanced, p'. split; [reflexivity | ].
  destruct (parsed_tree_has_three_shapes Runs.bs4 Runs.table_html Parser.init
              root enhanced p' Hrun) as (Htype & _ & _ & _ & Hnodes).
  split; assumption.
Defined.

Lemma parsed_tree_counts_add_up_witness :
  exists root enhanced p',
    parse_document_structure Runs.bs4 Runs.table_html Parser.init
    = (Returned (root, enhanced), p')
    /\ total_nodes (structure_summary (validate_structure root)) = 3
    /\ table_nodes (structure_summary (validate_structure root)) = 2.
Proof.
  destruct (parse_document_structure Runs.bs4 Runs.table_html Parser.init)
    as [[[root enhanced] | e | ] p'] eqn:Hrun; try (vm_compute in Hrun; discriminate).
  exists root, enhanced, p'. split; [reflexivity | ].
  assert (Hsum := parsed_tree_counts_add_up Runs.bs4 Runs.table_html Parser.init
                    root enhanced p' Hrun).
  cbv zeta in Hsum. rewrite Hsum.
  vm_compute in Hrun. injection Hrun as <- _ _. split; vm_compute; reflexivity.
Defined.

Lemma parsed_tree_warnings_are_about_tables_witness :
  exists root enhanced p',
    parse_document_structure Runs.bs4 Runs.table_html Parser.init
    = (Returned (root, enhanced), p')
    /\ Forall table_warning (_find_invalid_nesting root).
Proof.
  destruct (parse_document_structure Runs.bs4 Runs.table_html Parser.init)
    as [[[root enhanced] | e | ] p'] eqn:Hrun; try (vm_compute in Hrun; discriminate).
  exists root, enhanced, p'. split; [reflexivity | ].
  exact (proj1 (parsed_tree_warnings_are_about_tables Runs.bs4 Runs.table_html Parser.init
                  root enhanced p' Hrun)).
Defined.

(** A parser that has seen a document of depth seven writes seven on the
    body of a page without any structure. *)
Lemma body_metadata_precedes_the_depth_witness :
  let seen := MkParser (Parser.MkStatistics 7 3 0 0 0) [] in
  exists r p',
    _parse_html_structure Runs.bs4 Runs.page_html document_root seen = (Returned r, p')
    /\ max_depth_reached (Parser.statistics p') = 7
    /\ _calculate_max_depth (fst r) = 0
    /\ PyStr.contains ("data-max-depth=" +:+ PyStr.quote +:+ "7" +:+ PyStr.quote) (snd r)
       = true.
Proof.
  cbv zeta.
  destruct (_parse_html_structure Runs.bs4 Runs.page_html document_root
              (MkParser (Parser.MkStatistics 7 3 0 0 0) []))
    as [[r | e | ] p'] eqn:Hrun; try (vm_compute in Hrun; discriminate).
  exists r, p'. split; [reflexivity | ].
  destruct (body_metadata_precedes_the_depth Runs.bs4 Runs.page_html document_root
              (MkParser (Parser.MkStatistics 7 3 0 0 0) []) r p' Hrun) as [Hdepth _].
  split; [exact Hdepth | ].
  vm_compute in Hrun. injection Hrun as <- _. split; vm_compute; reflexivity.
Defined.

(** A name that holds the letters of [else]. *)
Lemma keyword_inside_a_word_makes_a_conditional_line_witness :
  is_conditional_line "Chelsea" = true
  /\ conditionals_parsed
       (Parser.statistics (snd (_parse_text_structure "Chelsea" document_root Parser.init)))
     = 1.
Proof.
  destruct (keyword_inside_a_word_makes_a_conditional_line "Chelsea" document_root
              Parser.init "Chelsea" "Ch" "else" "a") as [Hline _].
  - left. reflexivity.
  - reflexivity.
  - left. reflexivity.
  - split; [exact Hline | vm_compute; reflexivity].
Defined.

Lemma resolved_reference_is_recorded_witness :
  exists ref dependencies,
    In ref (_extract_references Sample.env "@include(a.html)")
    /\ get_dependency_graph
         (snd (resolve_document Sample.env "main" "@include(a.html)" 0 Sample.fresh))
       !! "main" = Some dependencies
    /\ snd ref ∈ dependencies
    /\ NoDup dependencies.
Proof.
  destruct (resolve_document Sample.env "main" "@include(a.html)" 0 Sample.fresh)
    as [[[html' stats] | e | ] st'] eqn:Hrun; try (vm_compute in Hrun; discriminate).
  apply (resolved_reference_is_recorded Sample.env "main" "@include(a.html)" 0 Sample.fresh
           html' stats st' 1 Hrun).
  - vm_compute in Hrun. injection Hrun as _ <- _. reflexivity.
  - lia.
Defined.

Lemma parse_result_is_always_valid_witness :
  exists root enhanced p',
    parse_document_structure Runs.bs4 Runs.page_html Parser.init
    = (Returned (root, enhanced), p')
    /\ is_valid (validate_structure root) = true
    /\ errors (validate_structure root) = [].
Proof.
  destruct (parse_document_structure Runs.bs4 Runs.page_html Parser.init)
    as [[[root enhanced] | e | ] p'] eqn:Hrun; try (vm_compute in Hrun; discriminate).
  exists root, enhanced, p'. split; [reflexivity | ].
  exact (proj2 (ParserFacts.parse_result_is_always_valid Runs.bs4 Runs.page_html Parser.init
                  root enhanced p' Hrun)).
Defined.

(** The attribute [width] wins over the style, the classes are joined by one
    space, and the colour comes from the style. *)
Lemma extract_formatting_precedence_witness :
  Dict.get "width" (_extract_formatting Runs.cell) = Some "50"
  /\ Dict.get "classes" (_extract_formatting Runs.cell) = Some "wide note"
  /\ Dict.get "color" (_extract_formatting Runs.cell) = Some "red".
Proof.
  destruct (extract_formatting_precedence Runs.cell "width") as (Hattr & Hclass & _).
  destruct (extract_formatting_precedence Runs.cell "color") as (_ & _ & Hstyle).
  split; [ | split].
  - apply Hattr; [cbn; tauto | reflexivity | reflexivity].
  - apply Hclass. vm_compute. discriminate.
  - rewrite Hstyle.
    + vm_compute. reflexivity.
    + left. cbn. intros H. repeat (destruct H as [H | H]; [discriminate | ]). exact H.
    + left. discriminate.
Defined.

(** A content block searched in a directory that cannot be listed. *)
Lemma content_block_search_error_escapes_witness :
  exists st',
    resolve_document Sample.env_unreadable "main" "{{dc-nothing}}" 0 Sample.fresh
    = (Raised (Exn "PermissionError"), st')
    /\ resolution_stack st' = []
    /\ cache_misses (Resolver.statistics st') = 1
    /\ total_resolutions (Resolver.statistics st') = 1.
Proof.
  eexists. split.
  - apply (content_block_search_error_escapes Sample.env_unreadable "main" "{{dc-nothing}}" 0
             Sample.fresh "dc-nothing" [] (Exn "PermissionError")).
    + cbn. lia.
    + cbn. apply not_elem_of_nil.
    + vm_compute. reflexivity.
    + vm_compute. reflexivity.
    + vm_compute. reflexivity.
    + vm_compute. reflexivity.
  - cbn. repeat split; reflexivity.
Defined.

End FurtherRuns.
